(** * The driver route-optimisation engine

    A shallow embedding of the route module of the delivery back end:
    [utils/geocoder.js], [utils/distance-matrix.js], [utils/optimizer.js],
    [utils/route-builder.js] and [service.js].  JavaScript arrays are
    lists, objects are records, the two Prisma tables the module touches
    are finite maps, and the
    asynchronous, exception-raising methods are computations in a small
    state-and-exception monad over an explicit world.

    Conventions.  The world holds the order table, the two tables of the
    module, the two providers (functions from a request to a reply, which
    may be a failure), a clock and a trace of the requests sent.  The
    database answers every query; the one Prisma error modelled is P2025,
    which the module handles.  Numbers are binary64 values, strings are
    held as their UTF-8 bytes.  [console] output is left out. *)

From Stdlib Require Import ZArith QArith Qround Qabs String Ascii Sorted Lia.
From stdpp Require Import gmap strings list pretty.

Local Open Scope Z_scope.

(* ===================================================================== *)
(** * JavaScript primitives used by the module *)
(* ===================================================================== *)

Module Js.

(** ** Arrays *)
Section Arrays.
Context {A : Type}.

(** [Array.prototype.sort(cmp)] is a stable sort: with a comparator
    that is a total preorder, the result is the one stable arrangement,
    which insertion from the right computes.  [x] goes in front of the
    first [y] with [cmp x y <= 0]. *)
Fixpoint sortInsert (cmp : A -> A -> Z) (x : A) (l : list A) : list A :=
  match l with
  | [] => [x]
  | y :: l' => if cmp x y <=? 0 then x :: y :: l' else y :: sortInsert cmp x l'
  end.

Definition sort (cmp : A -> A -> Z) (l : list A) : list A :=
  foldr (sortInsert cmp) [] l.

(** [arr.find(p)]: the first element satisfying [p], or undefined. *)
Fixpoint find (p : A -> bool) (l : list A) : option A :=
  match l with
  | [] => None
  | y :: l' => if p y then Some y else find p l'
  end.

Context `{EqDecision A}.

(** [arr.indexOf(x)]; [None] stands for -1.  Objects are compared as
    values: taking the first of two equal values out of an array or the
    second leaves the same array of values. *)
Fixpoint indexOf (x : A) (l : list A) : option nat :=
  match l with
  | [] => None
  | y :: l' => if decide (y = x) then Some 0%nat else S <$> indexOf x l'
  end.

(** [arr.splice(arr.indexOf(x), 1)]: removes the first occurrence of
    [x]; when [x] is absent the start index is -1 and [splice] removes
    the last element (nothing on an empty array). *)
Definition spliceIndexOf (x : A) (l : list A) : list A :=
  match indexOf x l with
  | Some i => delete i l
  | None => removelast l
  end.
End Arrays.

(** ** Numbers

    A JavaScript number is an IEEE 754 binary64 value.  The finite ones
    are rationals, and [+], [*], [/] return the exact result rounded to
    the nearest representable value, ties to even.  The exponent range is
    not modelled: the module computes with second and metre counts and
    with weights between 0 and 1, far from overflow and underflow. *)

Definition pow2 (k : Z) : Q :=
  match k with
  | Z0 => 1%Q
  | Zpos p => inject_Z (2 ^ Zpos p)
  | Zneg p => (1 # (2 ^ p))%Q
  end.

Definition roundHalfEven (q : Q) : Z :=
  let f := Qfloor q in
  match ((q - inject_Z f) ?= (1 # 2))%Q with
  | Lt => f
  | Gt => f + 1
  | Eq => if Z.even f then f else f + 1
  end.

(** The binary64 value nearest to [q]: 53 significant bits. *)
Definition round64 (q : Q) : Q :=
  match Qnum q with
  | Z0 => 0%Q
  | _ =>
      let a := Qabs q in
      let e0 := Z.log2 (Qnum a) - Z.log2 (Zpos (Qden a)) in
      let e := if Qle_bool (pow2 e0) a then e0 else e0 - 1 in
      let m := roundHalfEven (a * pow2 (52 - e))%Q in
      let r := (inject_Z m * pow2 (e - 52))%Q in
      Qred (if Qle_bool 0 q then r else - r)%Q
  end.

Definition add (x y : Q) : Q := round64 (x + y)%Q.
Definition mul (x y : Q) : Q := round64 (x * y)%Q.
Definition div (x y : Q) : Q := round64 (x / y)%Q.

(** A decimal literal such as [0.7] denotes the nearest binary64. *)
Definition literal (q : Q) : Q := round64 q.

(** [x < y] on finite numbers. *)
Definition ltb (x y : Q) : bool := negb (Qle_bool y x).

(** ** Strings *)

(** [`${n}`] for an integer [n]. *)
Definition numberToString (n : Z) : string := pretty n.

(** [x.toFixed(2)] for a finite [x >= 0]: the integer [n] with
    [n / 100 - x] closest to zero, the larger one on a tie, printed with
    two decimals. *)
Definition toFixed2 (x : Q) : string :=
  let n := Qfloor (x * inject_Z 100 + (1 # 2))%Q in
  let frac := n mod 100 in
  let pad := if frac <? 10 then "0"%string else EmptyString in
  pretty (n / 100) +:+ "." +:+ pad +:+ pretty frac.

(** ** The characters of a string

    A string is held as the bytes of its UTF-8 encoding, the bytes that
    [update(s)] feeds to a hash; [codePoints] reads the characters back.
    A string without lone surrogates is such a sequence of bytes, and
    [+] on strings is [++] on them.  A byte that belongs to no UTF-8
    sequence, which no such string has, reads as U+FFFD. *)

Definition bytes (s : string) : list Z :=
  map (fun a => Z.of_N (N_of_ascii a)) (list_ascii_of_string s).

Definition ofBytes (bs : list Z) : string :=
  string_of_list_ascii (map (fun b => ascii_of_N (Z.to_N b)) bs).

(** A Unicode scalar value: a code point that is no surrogate. *)
Definition isScalar (c : Z) : bool :=
  ((0 <=? c) && (c <? 0xD800)) || ((0xE000 <=? c) && (c <? 0x110000)).

Definition isContinuation (b : Z) : bool := (0x80 <=? b) && (b <? 0xC0).

(** The character at the head of [bs] and the number of bytes it takes;
    over-long forms, surrogates and values past U+10FFFF are no
    characters. *)
Definition decodeFirst (bs : list Z) : option (Z * nat) :=
  match bs with
  | [] => None
  | b0 :: rest =>
      if (0 <=? b0) && (b0 <? 0x80) then Some (b0, 1%nat)
      else if (0xC0 <=? b0) && (b0 <? 0xE0) then
        match rest with
        | b1 :: _ =>
            let c := (b0 - 0xC0) * 64 + (b1 - 0x80) in
            if isContinuation b1 && (0x80 <=? c) then Some (c, 2%nat) else None
        | _ => None
        end
      else if (0xE0 <=? b0) && (b0 <? 0xF0) then
        match rest with
        | b1 :: b2 :: _ =>
            let c := (b0 - 0xE0) * 4096 + (b1 - 0x80) * 64 + (b2 - 0x80) in
            if isContinuation b1 && isContinuation b2 && (0x800 <=? c) && isScalar c
            then Some (c, 3%nat) else None
        | _ => None
        end
      else if (0xF0 <=? b0) && (b0 <? 0xF8) then
        match rest with
        | b1 :: b2 :: b3 :: _ =>
            let c := (b0 - 0xF0) * 262144 + (b1 - 0x80) * 4096 + (b2 - 0x80) * 64
                     + (b3 - 0x80) in
            if isContinuation b1 && isContinuation b2 && isContinuation b3
               && (0x10000 <=? c) && isScalar c
            then Some (c, 4%nat) else None
        | _ => None
        end
      else None
  end.

(** The characters of a sequence of bytes, the first [skip] bytes being
    the rest of a character already read. *)
Fixpoint codePointsFrom (skip : nat) (bs : list Z) : list Z :=
  match bs with
  | [] => []
  | _ :: rest =>
      match skip with
      | S k => codePointsFrom k rest
      | O =>
          match decodeFirst bs with
          | Some (c, n) => c :: codePointsFrom (pred n) rest
          | None => 0xFFFD :: codePointsFrom 0 rest
          end
      end
  end.

Definition codePoints (s : string) : list Z := codePointsFrom 0 (bytes s).

(** The UTF-8 encoding of a character. *)
Definition utf8 (c : Z) : list Z :=
  if c <? 0x80 then [c]
  else if c <? 0x800 then [0xC0 + c / 64; 0x80 + c mod 64]
  else if c <? 0x10000 then [0xE0 + c / 4096; 0x80 + (c / 64) mod 64; 0x80 + c mod 64]
  else [0xF0 + c / 262144; 0x80 + (c / 4096) mod 64; 0x80 + (c / 64) mod 64;
        0x80 + c mod 64].

Definition fromCodePoints (cs : list Z) : string := ofBytes (flat_map utf8 cs).

(** Membership in a table of ranges [(first, last)], in ascending order. *)
Fixpoint inRanges (ranges : list (Z * Z)) (c : Z) : bool :=
  match ranges with
  | [] => false
  | (lo, hi) :: rest =>
      if c <? lo then false else if c <=? hi then true else inRanges rest c
  end.

(** The lower-case mappings of UnicodeData.txt (Unicode 14.0), in
    ascending order: [(first, last, step, delta)] maps every [step]-th
    code point from [first] to [last] to itself plus [delta]. *)
Definition lowerMappings : list (Z * Z * Z * Z) :=
  [
   (0x41, 0x5a, 1, 32); (0xc0, 0xd6, 1, 32); (0xd8, 0xde, 1, 32); (0x100, 0x12e, 2, 1);
   (0x132, 0x136, 2, 1); (0x139, 0x147, 2, 1); (0x14a, 0x176, 2, 1); (0x178, 0x178, 1, -121);
   (0x179, 0x17d, 2, 1); (0x181, 0x181, 1, 210); (0x182, 0x184, 2, 1); (0x186, 0x186, 1, 206);
   (0x187, 0x187, 1, 1); (0x189, 0x18a, 1, 205); (0x18b, 0x18b, 1, 1); (0x18e, 0x18e, 1, 79);
   (0x18f, 0x18f, 1, 202); (0x190, 0x190, 1, 203); (0x191, 0x191, 1, 1); (0x193, 0x193, 1, 205);
   (0x194, 0x194, 1, 207); (0x196, 0x196, 1, 211); (0x197, 0x197, 1, 209); (0x198, 0x198, 1, 1);
   (0x19c, 0x19c, 1, 211); (0x19d, 0x19d, 1, 213); (0x19f, 0x19f, 1, 214); (0x1a0, 0x1a4, 2, 1);
   (0x1a6, 0x1a6, 1, 218); (0x1a7, 0x1a7, 1, 1); (0x1a9, 0x1a9, 1, 218); (0x1ac, 0x1ac, 1, 1);
   (0x1ae, 0x1ae, 1, 218); (0x1af, 0x1af, 1, 1); (0x1b1, 0x1b2, 1, 217); (0x1b3, 0x1b5, 2, 1);
   (0x1b7, 0x1b7, 1, 219); (0x1b8, 0x1b8, 1, 1); (0x1bc, 0x1bc, 1, 1); (0x1c4, 0x1c4, 1, 2);
   (0x1c5, 0x1c5, 1, 1); (0x1c7, 0x1c7, 1, 2); (0x1c8, 0x1c8, 1, 1); (0x1ca, 0x1ca, 1, 2);
   (0x1cb, 0x1db, 2, 1); (0x1de, 0x1ee, 2, 1); (0x1f1, 0x1f1, 1, 2); (0x1f2, 0x1f4, 2, 1);
   (0x1f6, 0x1f6, 1, -97); (0x1f7, 0x1f7, 1, -56); (0x1f8, 0x21e, 2, 1); (0x220, 0x220, 1, -130);
   (0x222, 0x232, 2, 1); (0x23a, 0x23a, 1, 10795); (0x23b, 0x23b, 1, 1); (0x23d, 0x23d, 1, -163);
   (0x23e, 0x23e, 1, 10792); (0x241, 0x241, 1, 1); (0x243, 0x243, 1, -195); (0x244, 0x244, 1, 69);
   (0x245, 0x245, 1, 71); (0x246, 0x24e, 2, 1); (0x370, 0x372, 2, 1); (0x376, 0x376, 1, 1);
   (0x37f, 0x37f, 1, 116); (0x386, 0x386, 1, 38); (0x388, 0x38a, 1, 37); (0x38c, 0x38c, 1, 64);
   (0x38e, 0x38f, 1, 63); (0x391, 0x3a1, 1, 32); (0x3a3, 0x3ab, 1, 32); (0x3cf, 0x3cf, 1, 8);
   (0x3d8, 0x3ee, 2, 1); (0x3f4, 0x3f4, 1, -60); (0x3f7, 0x3f7, 1, 1); (0x3f9, 0x3f9, 1, -7);
   (0x3fa, 0x3fa, 1, 1); (0x3fd, 0x3ff, 1, -130); (0x400, 0x40f, 1, 80); (0x410, 0x42f, 1, 32);
   (0x460, 0x480, 2, 1); (0x48a, 0x4be, 2, 1); (0x4c0, 0x4c0, 1, 15); (0x4c1, 0x4cd, 2, 1);
   (0x4d0, 0x52e, 2, 1); (0x531, 0x556, 1, 48); (0x10a0, 0x10c5, 1, 7264); (0x10c7, 0x10c7, 1, 7264);
   (0x10cd, 0x10cd, 1, 7264); (0x13a0, 0x13ef, 1, 38864); (0x13f0, 0x13f5, 1, 8); (0x1c90, 0x1cba, 1, -3008);
   (0x1cbd, 0x1cbf, 1, -3008); (0x1e00, 0x1e94, 2, 1); (0x1e9e, 0x1e9e, 1, -7615); (0x1ea0, 0x1efe, 2, 1);
   (0x1f08, 0x1f0f, 1, -8); (0x1f18, 0x1f1d, 1, -8); (0x1f28, 0x1f2f, 1, -8); (0x1f38, 0x1f3f, 1, -8);
   (0x1f48, 0x1f4d, 1, -8); (0x1f59, 0x1f5f, 2, -8); (0x1f68, 0x1f6f, 1, -8); (0x1f88, 0x1f8f, 1, -8);
   (0x1f98, 0x1f9f, 1, -8); (0x1fa8, 0x1faf, 1, -8); (0x1fb8, 0x1fb9, 1, -8); (0x1fba, 0x1fbb, 1, -74);
   (0x1fbc, 0x1fbc, 1, -9); (0x1fc8, 0x1fcb, 1, -86); (0x1fcc, 0x1fcc, 1, -9); (0x1fd8, 0x1fd9, 1, -8);
   (0x1fda, 0x1fdb, 1, -100); (0x1fe8, 0x1fe9, 1, -8); (0x1fea, 0x1feb, 1, -112); (0x1fec, 0x1fec, 1, -7);
   (0x1ff8, 0x1ff9, 1, -128); (0x1ffa, 0x1ffb, 1, -126); (0x1ffc, 0x1ffc, 1, -9); (0x2126, 0x2126, 1, -7517);
   (0x212a, 0x212a, 1, -8383); (0x212b, 0x212b, 1, -8262); (0x2132, 0x2132, 1, 28); (0x2160, 0x216f, 1, 16);
   (0x2183, 0x2183, 1, 1); (0x24b6, 0x24cf, 1, 26); (0x2c00, 0x2c2f, 1, 48); (0x2c60, 0x2c60, 1, 1);
   (0x2c62, 0x2c62, 1, -10743); (0x2c63, 0x2c63, 1, -3814); (0x2c64, 0x2c64, 1, -10727); (0x2c67, 0x2c6b, 2, 1);
   (0x2c6d, 0x2c6d, 1, -10780); (0x2c6e, 0x2c6e, 1, -10749); (0x2c6f, 0x2c6f, 1, -10783); (0x2c70, 0x2c70, 1, -10782);
   (0x2c72, 0x2c72, 1, 1); (0x2c75, 0x2c75, 1, 1); (0x2c7e, 0x2c7f, 1, -10815); (0x2c80, 0x2ce2, 2, 1);
   (0x2ceb, 0x2ced, 2, 1); (0x2cf2, 0x2cf2, 1, 1); (0xa640, 0xa66c, 2, 1); (0xa680, 0xa69a, 2, 1);
   (0xa722, 0xa72e, 2, 1); (0xa732, 0xa76e, 2, 1); (0xa779, 0xa77b, 2, 1); (0xa77d, 0xa77d, 1, -35332);
   (0xa77e, 0xa786, 2, 1); (0xa78b, 0xa78b, 1, 1); (0xa78d, 0xa78d, 1, -42280); (0xa790, 0xa792, 2, 1);
   (0xa796, 0xa7a8, 2, 1); (0xa7aa, 0xa7aa, 1, -42308); (0xa7ab, 0xa7ab, 1, -42319); (0xa7ac, 0xa7ac, 1, -42315);
   (0xa7ad, 0xa7ad, 1, -42305); (0xa7ae, 0xa7ae, 1, -42308); (0xa7b0, 0xa7b0, 1, -42258); (0xa7b1, 0xa7b1, 1, -42282);
   (0xa7b2, 0xa7b2, 1, -42261); (0xa7b3, 0xa7b3, 1, 928); (0xa7b4, 0xa7c2, 2, 1); (0xa7c4, 0xa7c4, 1, -48);
   (0xa7c5, 0xa7c5, 1, -42307); (0xa7c6, 0xa7c6, 1, -35384); (0xa7c7, 0xa7c9, 2, 1); (0xa7d0, 0xa7d0, 1, 1);
   (0xa7d6, 0xa7d8, 2, 1); (0xa7f5, 0xa7f5, 1, 1); (0xff21, 0xff3a, 1, 32); (0x10400, 0x10427, 1, 40);
   (0x104b0, 0x104d3, 1, 40); (0x10570, 0x1057a, 1, 39); (0x1057c, 0x1058a, 1, 39); (0x1058c, 0x10592, 1, 39);
   (0x10594, 0x10595, 1, 39); (0x10c80, 0x10cb2, 1, 64); (0x118a0, 0x118bf, 1, 32); (0x16e40, 0x16e5f, 1, 32);
   (0x1e900, 0x1e921, 1, 34)
  ].

Fixpoint simpleLower (mappings : list (Z * Z * Z * Z)) (c : Z) : Z :=
  match mappings with
  | [] => c
  | (lo, hi, step, delta) :: rest =>
      if c <? lo then c
      else if (c <=? hi) && ((c - lo) mod step =? 0) then c + delta
      else simpleLower rest c
  end.

(** The code points with the property Cased (DerivedCoreProperties.txt). *)
Definition cased : list (Z * Z) :=
  [
   (0x41, 0x5a); (0x61, 0x7a); (0xaa, 0xaa); (0xb5, 0xb5); (0xba, 0xba);
   (0xc0, 0xd6); (0xd8, 0xf6); (0xf8, 0x1ba); (0x1bc, 0x1bf); (0x1c4, 0x293);
   (0x295, 0x2b8); (0x2c0, 0x2c1); (0x2e0, 0x2e4); (0x345, 0x345); (0x370, 0x373);
   (0x376, 0x377); (0x37a, 0x37d); (0x37f, 0x37f); (0x386, 0x386); (0x388, 0x38a);
   (0x38c, 0x38c); (0x38e, 0x3a1); (0x3a3, 0x3f5); (0x3f7, 0x481); (0x48a, 0x52f);
   (0x531, 0x556); (0x560, 0x588); (0x10a0, 0x10c5); (0x10c7, 0x10c7); (0x10cd, 0x10cd);
   (0x10d0, 0x10fa); (0x10fd, 0x10ff); (0x13a0, 0x13f5); (0x13f8, 0x13fd); (0x1c80, 0x1c88);
   (0x1c90, 0x1cba); (0x1cbd, 0x1cbf); (0x1d00, 0x1dbf); (0x1e00, 0x1f15); (0x1f18, 0x1f1d);
   (0x1f20, 0x1f45); (0x1f48, 0x1f4d); (0x1f50, 0x1f57); (0x1f59, 0x1f59); (0x1f5b, 0x1f5b);
   (0x1f5d, 0x1f5d); (0x1f5f, 0x1f7d); (0x1f80, 0x1fb4); (0x1fb6, 0x1fbc); (0x1fbe, 0x1fbe);
   (0x1fc2, 0x1fc4); (0x1fc6, 0x1fcc); (0x1fd0, 0x1fd3); (0x1fd6, 0x1fdb); (0x1fe0, 0x1fec);
   (0x1ff2, 0x1ff4); (0x1ff6, 0x1ffc); (0x2071, 0x2071); (0x207f, 0x207f); (0x2090, 0x209c);
   (0x2102, 0x2102); (0x2107, 0x2107); (0x210a, 0x2113); (0x2115, 0x2115); (0x2119, 0x211d);
   (0x2124, 0x2124); (0x2126, 0x2126); (0x2128, 0x2128); (0x212a, 0x212d); (0x212f, 0x2134);
   (0x2139, 0x2139); (0x213c, 0x213f); (0x2145, 0x2149); (0x214e, 0x214e); (0x2160, 0x217f);
   (0x2183, 0x2184); (0x24b6, 0x24e9); (0x2c00, 0x2ce4); (0x2ceb, 0x2cee); (0x2cf2, 0x2cf3);
   (0x2d00, 0x2d25); (0x2d27, 0x2d27); (0x2d2d, 0x2d2d); (0xa640, 0xa66d); (0xa680, 0xa69d);
   (0xa722, 0xa787); (0xa78b, 0xa78e); (0xa790, 0xa7ca); (0xa7d0, 0xa7d1); (0xa7d3, 0xa7d3);
   (0xa7d5, 0xa7d9); (0xa7f5, 0xa7f6); (0xa7f8, 0xa7fa); (0xab30, 0xab5a); (0xab5c, 0xab68);
   (0xab70, 0xabbf); (0xfb00, 0xfb06); (0xfb13, 0xfb17); (0xff21, 0xff3a); (0xff41, 0xff5a);
   (0x10400, 0x1044f); (0x104b0, 0x104d3); (0x104d8, 0x104fb); (0x10570, 0x1057a); (0x1057c, 0x1058a);
   (0x1058c, 0x10592); (0x10594, 0x10595); (0x10597, 0x105a1); (0x105a3, 0x105b1); (0x105b3, 0x105b9);
   (0x105bb, 0x105bc); (0x10780, 0x10780); (0x10783, 0x10785); (0x10787, 0x107b0); (0x107b2, 0x107ba);
   (0x10c80, 0x10cb2); (0x10cc0, 0x10cf2); (0x118a0, 0x118df); (0x16e40, 0x16e7f); (0x1d400, 0x1d454);
   (0x1d456, 0x1d49c); (0x1d49e, 0x1d49f); (0x1d4a2, 0x1d4a2); (0x1d4a5, 0x1d4a6); (0x1d4a9, 0x1d4ac);
   (0x1d4ae, 0x1d4b9); (0x1d4bb, 0x1d4bb); (0x1d4bd, 0x1d4c3); (0x1d4c5, 0x1d505); (0x1d507, 0x1d50a);
   (0x1d50d, 0x1d514); (0x1d516, 0x1d51c); (0x1d51e, 0x1d539); (0x1d53b, 0x1d53e); (0x1d540, 0x1d544);
   (0x1d546, 0x1d546); (0x1d54a, 0x1d550); (0x1d552, 0x1d6a5); (0x1d6a8, 0x1d6c0); (0x1d6c2, 0x1d6da);
   (0x1d6dc, 0x1d6fa); (0x1d6fc, 0x1d714); (0x1d716, 0x1d734); (0x1d736, 0x1d74e); (0x1d750, 0x1d76e);
   (0x1d770, 0x1d788); (0x1d78a, 0x1d7a8); (0x1d7aa, 0x1d7c2); (0x1d7c4, 0x1d7cb); (0x1df00, 0x1df09);
   (0x1df0b, 0x1df1e); (0x1e900, 0x1e943); (0x1f130, 0x1f149); (0x1f150, 0x1f169); (0x1f170, 0x1f189)
  ].

(** The code points with the property Case_Ignorable. *)
Definition caseIgnorable : list (Z * Z) :=
  [
   (0x27, 0x27); (0x2e, 0x2e); (0x3a, 0x3a); (0x5e, 0x5e); (0x60, 0x60);
   (0xa8, 0xa8); (0xad, 0xad); (0xaf, 0xaf); (0xb4, 0xb4); (0xb7, 0xb8);
   (0x2b0, 0x36f); (0x374, 0x375); (0x37a, 0x37a); (0x384, 0x385); (0x387, 0x387);
   (0x483, 0x489); (0x559, 0x559); (0x55f, 0x55f); (0x591, 0x5bd); (0x5bf, 0x5bf);
   (0x5c1, 0x5c2); (0x5c4, 0x5c5); (0x5c7, 0x5c7); (0x5f4, 0x5f4); (0x600, 0x605);
   (0x610, 0x61a); (0x61c, 0x61c); (0x640, 0x640); (0x64b, 0x65f); (0x670, 0x670);
   (0x6d6, 0x6dd); (0x6df, 0x6e8); (0x6ea, 0x6ed); (0x70f, 0x70f); (0x711, 0x711);
   (0x730, 0x74a); (0x7a6, 0x7b0); (0x7eb, 0x7f5); (0x7fa, 0x7fa); (0x7fd, 0x7fd);
   (0x816, 0x82d); (0x859, 0x85b); (0x888, 0x888); (0x890, 0x891); (0x898, 0x89f);
   (0x8c9, 0x902); (0x93a, 0x93a); (0x93c, 0x93c); (0x941, 0x948); (0x94d, 0x94d);
   (0x951, 0x957); (0x962, 0x963); (0x971, 0x971); (0x981, 0x981); (0x9bc, 0x9bc);
   (0x9c1, 0x9c4); (0x9cd, 0x9cd); (0x9e2, 0x9e3); (0x9fe, 0x9fe); (0xa01, 0xa02);
   (0xa3c, 0xa3c); (0xa41, 0xa42); (0xa47, 0xa48); (0xa4b, 0xa4d); (0xa51, 0xa51);
   (0xa70, 0xa71); (0xa75, 0xa75); (0xa81, 0xa82); (0xabc, 0xabc); (0xac1, 0xac5);
   (0xac7, 0xac8); (0xacd, 0xacd); (0xae2, 0xae3); (0xafa, 0xaff); (0xb01, 0xb01);
   (0xb3c, 0xb3c); (0xb3f, 0xb3f); (0xb41, 0xb44); (0xb4d, 0xb4d); (0xb55, 0xb56);
   (0xb62, 0xb63); (0xb82, 0xb82); (0xbc0, 0xbc0); (0xbcd, 0xbcd); (0xc00, 0xc00);
   (0xc04, 0xc04); (0xc3c, 0xc3c); (0xc3e, 0xc40); (0xc46, 0xc48); (0xc4a, 0xc4d);
   (0xc55, 0xc56); (0xc62, 0xc63); (0xc81, 0xc81); (0xcbc, 0xcbc); (0xcbf, 0xcbf);
   (0xcc6, 0xcc6); (0xccc, 0xccd); (0xce2, 0xce3); (0xd00, 0xd01); (0xd3b, 0xd3c);
   (0xd41, 0xd44); (0xd4d, 0xd4d); (0xd62, 0xd63); (0xd81, 0xd81); (0xdca, 0xdca);
   (0xdd2, 0xdd4); (0xdd6, 0xdd6); (0xe31, 0xe31); (0xe34, 0xe3a); (0xe46, 0xe4e);
   (0xeb1, 0xeb1); (0xeb4, 0xebc); (0xec6, 0xec6); (0xec8, 0xecd); (0xf18, 0xf19);
   (0xf35, 0xf35); (0xf37, 0xf37); (0xf39, 0xf39); (0xf71, 0xf7e); (0xf80, 0xf84);
   (0xf86, 0xf87); (0xf8d, 0xf97); (0xf99, 0xfbc); (0xfc6, 0xfc6); (0x102d, 0x1030);
   (0x1032, 0x1037); (0x1039, 0x103a); (0x103d, 0x103e); (0x1058, 0x1059); (0x105e, 0x1060);
   (0x1071, 0x1074); (0x1082, 0x1082); (0x1085, 0x1086); (0x108d, 0x108d); (0x109d, 0x109d);
   (0x10fc, 0x10fc); (0x135d, 0x135f); (0x1712, 0x1714); (0x1732, 0x1733); (0x1752, 0x1753);
   (0x1772, 0x1773); (0x17b4, 0x17b5); (0x17b7, 0x17bd); (0x17c6, 0x17c6); (0x17c9, 0x17d3);
   (0x17d7, 0x17d7); (0x17dd, 0x17dd); (0x180b, 0x180f); (0x1843, 0x1843); (0x1885, 0x1886);
   (0x18a9, 0x18a9); (0x1920, 0x1922); (0x1927, 0x1928); (0x1932, 0x1932); (0x1939, 0x193b);
   (0x1a17, 0x1a18); (0x1a1b, 0x1a1b); (0x1a56, 0x1a56); (0x1a58, 0x1a5e); (0x1a60, 0x1a60);
   (0x1a62, 0x1a62); (0x1a65, 0x1a6c); (0x1a73, 0x1a7c); (0x1a7f, 0x1a7f); (0x1aa7, 0x1aa7);
   (0x1ab0, 0x1ace); (0x1b00, 0x1b03); (0x1b34, 0x1b34); (0x1b36, 0x1b3a); (0x1b3c, 0x1b3c);
   (0x1b42, 0x1b42); (0x1b6b, 0x1b73); (0x1b80, 0x1b81); (0x1ba2, 0x1ba5); (0x1ba8, 0x1ba9);
   (0x1bab, 0x1bad); (0x1be6, 0x1be6); (0x1be8, 0x1be9); (0x1bed, 0x1bed); (0x1bef, 0x1bf1);
   (0x1c2c, 0x1c33); (0x1c36, 0x1c37); (0x1c78, 0x1c7d); (0x1cd0, 0x1cd2); (0x1cd4, 0x1ce0);
   (0x1ce2, 0x1ce8); (0x1ced, 0x1ced); (0x1cf4, 0x1cf4); (0x1cf8, 0x1cf9); (0x1d2c, 0x1d6a);
   (0x1d78, 0x1d78); (0x1d9b, 0x1dff); (0x1fbd, 0x1fbd); (0x1fbf, 0x1fc1); (0x1fcd, 0x1fcf);
   (0x1fdd, 0x1fdf); (0x1fed, 0x1fef); (0x1ffd, 0x1ffe); (0x200b, 0x200f); (0x2018, 0x2019);
   (0x2024, 0x2024); (0x2027, 0x2027); (0x202a, 0x202e); (0x2060, 0x2064); (0x2066, 0x206f);
   (0x2071, 0x2071); (0x207f, 0x207f); (0x2090, 0x209c); (0x20d0, 0x20f0); (0x2c7c, 0x2c7d);
   (0x2cef, 0x2cf1); (0x2d6f, 0x2d6f); (0x2d7f, 0x2d7f); (0x2de0, 0x2dff); (0x2e2f, 0x2e2f);
   (0x3005, 0x3005); (0x302a, 0x302d); (0x3031, 0x3035); (0x303b, 0x303b); (0x3099, 0x309e);
   (0x30fc, 0x30fe); (0xa015, 0xa015); (0xa4f8, 0xa4fd); (0xa60c, 0xa60c); (0xa66f, 0xa672);
   (0xa674, 0xa67d); (0xa67f, 0xa67f); (0xa69c, 0xa69f); (0xa6f0, 0xa6f1); (0xa700, 0xa721);
   (0xa770, 0xa770); (0xa788, 0xa78a); (0xa7f2, 0xa7f4); (0xa7f8, 0xa7f9); (0xa802, 0xa802);
   (0xa806, 0xa806); (0xa80b, 0xa80b); (0xa825, 0xa826); (0xa82c, 0xa82c); (0xa8c4, 0xa8c5);
   (0xa8e0, 0xa8f1); (0xa8ff, 0xa8ff); (0xa926, 0xa92d); (0xa947, 0xa951); (0xa980, 0xa982);
   (0xa9b3, 0xa9b3); (0xa9b6, 0xa9b9); (0xa9bc, 0xa9bd); (0xa9cf, 0xa9cf); (0xa9e5, 0xa9e6);
   (0xaa29, 0xaa2e); (0xaa31, 0xaa32); (0xaa35, 0xaa36); (0xaa43, 0xaa43); (0xaa4c, 0xaa4c);
   (0xaa70, 0xaa70); (0xaa7c, 0xaa7c); (0xaab0, 0xaab0); (0xaab2, 0xaab4); (0xaab7, 0xaab8);
   (0xaabe, 0xaabf); (0xaac1, 0xaac1); (0xaadd, 0xaadd); (0xaaec, 0xaaed); (0xaaf3, 0xaaf4);
   (0xaaf6, 0xaaf6); (0xab5b, 0xab5f); (0xab69, 0xab6b); (0xabe5, 0xabe5); (0xabe8, 0xabe8);
   (0xabed, 0xabed); (0xfb1e, 0xfb1e); (0xfbb2, 0xfbc2); (0xfe00, 0xfe0f); (0xfe13, 0xfe13);
   (0xfe20, 0xfe2f); (0xfe52, 0xfe52); (0xfe55, 0xfe55); (0xfeff, 0xfeff); (0xff07, 0xff07);
   (0xff0e, 0xff0e); (0xff1a, 0xff1a); (0xff3e, 0xff3e); (0xff40, 0xff40); (0xff70, 0xff70);
   (0xff9e, 0xff9f); (0xffe3, 0xffe3); (0xfff9, 0xfffb); (0x101fd, 0x101fd); (0x102e0, 0x102e0);
   (0x10376, 0x1037a); (0x10780, 0x10785); (0x10787, 0x107b0); (0x107b2, 0x107ba); (0x10a01, 0x10a03);
   (0x10a05, 0x10a06); (0x10a0c, 0x10a0f); (0x10a38, 0x10a3a); (0x10a3f, 0x10a3f); (0x10ae5, 0x10ae6);
   (0x10d24, 0x10d27); (0x10eab, 0x10eac); (0x10f46, 0x10f50); (0x10f82, 0x10f85); (0x11001, 0x11001);
   (0x11038, 0x11046); (0x11070, 0x11070); (0x11073, 0x11074); (0x1107f, 0x11081); (0x110b3, 0x110b6);
   (0x110b9, 0x110ba); (0x110bd, 0x110bd); (0x110c2, 0x110c2); (0x110cd, 0x110cd); (0x11100, 0x11102);
   (0x11127, 0x1112b); (0x1112d, 0x11134); (0x11173, 0x11173); (0x11180, 0x11181); (0x111b6, 0x111be);
   (0x111c9, 0x111cc); (0x111cf, 0x111cf); (0x1122f, 0x11231); (0x11234, 0x11234); (0x11236, 0x11237);
   (0x1123e, 0x1123e); (0x112df, 0x112df); (0x112e3, 0x112ea); (0x11300, 0x11301); (0x1133b, 0x1133c);
   (0x11340, 0x11340); (0x11366, 0x1136c); (0x11370, 0x11374); (0x11438, 0x1143f); (0x11442, 0x11444);
   (0x11446, 0x11446); (0x1145e, 0x1145e); (0x114b3, 0x114b8); (0x114ba, 0x114ba); (0x114bf, 0x114c0);
   (0x114c2, 0x114c3); (0x115b2, 0x115b5); (0x115bc, 0x115bd); (0x115bf, 0x115c0); (0x115dc, 0x115dd);
   (0x11633, 0x1163a); (0x1163d, 0x1163d); (0x1163f, 0x11640); (0x116ab, 0x116ab); (0x116ad, 0x116ad);
   (0x116b0, 0x116b5); (0x116b7, 0x116b7); (0x1171d, 0x1171f); (0x11722, 0x11725); (0x11727, 0x1172b);
   (0x1182f, 0x11837); (0x11839, 0x1183a); (0x1193b, 0x1193c); (0x1193e, 0x1193e); (0x11943, 0x11943);
   (0x119d4, 0x119d7); (0x119da, 0x119db); (0x119e0, 0x119e0); (0x11a01, 0x11a0a); (0x11a33, 0x11a38);
   (0x11a3b, 0x11a3e); (0x11a47, 0x11a47); (0x11a51, 0x11a56); (0x11a59, 0x11a5b); (0x11a8a, 0x11a96);
   (0x11a98, 0x11a99); (0x11c30, 0x11c36); (0x11c38, 0x11c3d); (0x11c3f, 0x11c3f); (0x11c92, 0x11ca7);
   (0x11caa, 0x11cb0); (0x11cb2, 0x11cb3); (0x11cb5, 0x11cb6); (0x11d31, 0x11d36); (0x11d3a, 0x11d3a);
   (0x11d3c, 0x11d3d); (0x11d3f, 0x11d45); (0x11d47, 0x11d47); (0x11d90, 0x11d91); (0x11d95, 0x11d95);
   (0x11d97, 0x11d97); (0x11ef3, 0x11ef4); (0x13430, 0x13438); (0x16af0, 0x16af4); (0x16b30, 0x16b36);
   (0x16b40, 0x16b43); (0x16f4f, 0x16f4f); (0x16f8f, 0x16f9f); (0x16fe0, 0x16fe1); (0x16fe3, 0x16fe4);
   (0x1aff0, 0x1aff3); (0x1aff5, 0x1affb); (0x1affd, 0x1affe); (0x1bc9d, 0x1bc9e); (0x1bca0, 0x1bca3);
   (0x1cf00, 0x1cf2d); (0x1cf30, 0x1cf46); (0x1d167, 0x1d169); (0x1d173, 0x1d182); (0x1d185, 0x1d18b);
   (0x1d1aa, 0x1d1ad); (0x1d242, 0x1d244); (0x1da00, 0x1da36); (0x1da3b, 0x1da6c); (0x1da75, 0x1da75);
   (0x1da84, 0x1da84); (0x1da9b, 0x1da9f); (0x1daa1, 0x1daaf); (0x1e000, 0x1e006); (0x1e008, 0x1e018);
   (0x1e01b, 0x1e021); (0x1e023, 0x1e024); (0x1e026, 0x1e02a); (0x1e130, 0x1e13d); (0x1e2ae, 0x1e2ae);
   (0x1e2ec, 0x1e2ef); (0x1e8d0, 0x1e8d6); (0x1e944, 0x1e94b); (0x1f3fb, 0x1f3ff); (0xe0001, 0xe0001);
   (0xe0020, 0xe007f); (0xe0100, 0xe01ef)
  ].

Definition isCased (c : Z) : bool := inRanges cased c.
Definition isCaseIgnorable (c : Z) : bool := inRanges caseIgnorable c.

(** Going through [cs], past the case-ignorable characters, the first
    other character is a cased letter. *)
Fixpoint reachesCased (cs : list Z) : bool :=
  match cs with
  | [] => false
  | c :: rest => if isCaseIgnorable c then reachesCased rest else isCased c
  end.

(** The lower case of one character (SpecialCasing.txt): a capital sigma
    is final when a cased letter comes before it and none after it, and
    the capital I with a dot keeps its dot as a combining character.
    [before] holds the characters that precede, the nearest first. *)
Definition toLowerCaseChar (before : list Z) (c : Z) (after : list Z) : list Z :=
  if c =? 0x3A3
  then [if reachesCased before && negb (reachesCased after) then 0x3C2 else 0x3C3]
  else if c =? 0x130 then [0x69; 0x307]
  else [simpleLower lowerMappings c].

Fixpoint toLowerCaseFrom (before : list Z) (cs : list Z) : list Z :=
  match cs with
  | [] => []
  | c :: rest => toLowerCaseChar before c rest ++ toLowerCaseFrom (c :: before) rest
  end.

(** [s.toLowerCase()]: the Unicode default case conversion, which does
    not depend on the locale. *)
Definition toLowerCase (s : string) : string :=
  fromCodePoints (toLowerCaseFrom [] (codePoints s)).

(** WhiteSpace and LineTerminator: tab, line feed, vertical tab, form
    feed, carriage return, the space separators (Zs), the line and
    paragraph separators, and the byte order mark. *)
Definition whiteSpace : list (Z * Z) :=
  [(0x9, 0xd); (0x20, 0x20); (0xa0, 0xa0); (0x1680, 0x1680); (0x2000, 0x200a);
   (0x2028, 0x2029); (0x202f, 0x202f); (0x205f, 0x205f); (0x3000, 0x3000);
   (0xfeff, 0xfeff)].

Definition isWhiteSpace (c : Z) : bool := inRanges whiteSpace c.

Fixpoint trimStart (cs : list Z) : list Z :=
  match cs with
  | [] => []
  | c :: rest => if isWhiteSpace c then trimStart rest else cs
  end.

(** [trimEnd] keeps a character when it, or something after it, is not
    white space. *)
Fixpoint trimEnd (cs : list Z) : list Z :=
  match cs with
  | [] => []
  | c :: rest =>
      match trimEnd rest with
      | [] => if isWhiteSpace c then [] else [c]
      | t => c :: t
      end
  end.

(** [s.trim()] *)
Definition trim (s : string) : string :=
  fromCodePoints (trimEnd (trimStart (codePoints s))).

End Js.

(* ===================================================================== *)
(** * MD5 (RFC 1321), as computed by [crypto.createHash('md5')] *)
(* ===================================================================== *)

Module MD5.

Definition mask32 : Z := 0xffffffff.
Definition add32 (x y : Z) : Z := Z.land (x + y) mask32.
Definition not32 (x : Z) : Z := Z.lxor x mask32.
Definition rotl32 (x s : Z) : Z :=
  Z.land (Z.lor (Z.shiftl x s) (Z.shiftr x (32 - s))) mask32.

(** Per-round shift amounts and the sine table. *)
Definition shifts : list Z :=
  [7; 12; 17; 22; 7; 12; 17; 22; 7; 12; 17; 22; 7; 12; 17; 22;
   5; 9; 14; 20; 5; 9; 14; 20; 5; 9; 14; 20; 5; 9; 14; 20;
   4; 11; 16; 23; 4; 11; 16; 23; 4; 11; 16; 23; 4; 11; 16; 23;
   6; 10; 15; 21; 6; 10; 15; 21; 6; 10; 15; 21; 6; 10; 15; 21].

Definition sines : list Z :=
  [
    0xd76aa478; 0xe8c7b756; 0x242070db; 0xc1bdceee;
    0xf57c0faf; 0x4787c62a; 0xa8304613; 0xfd469501;
    0x698098d8; 0x8b44f7af; 0xffff5bb1; 0x895cd7be;
    0x6b901122; 0xfd987193; 0xa679438e; 0x49b40821;
    0xf61e2562; 0xc040b340; 0x265e5a51; 0xe9b6c7aa;
    0xd62f105d; 0x02441453; 0xd8a1e681; 0xe7d3fbc8;
    0x21e1cde6; 0xc33707d6; 0xf4d50d87; 0x455a14ed;
    0xa9e3e905; 0xfcefa3f8; 0x676f02d9; 0x8d2a4c8a;
    0xfffa3942; 0x8771f681; 0x6d9d6122; 0xfde5380c;
    0xa4beea44; 0x4bdecfa9; 0xf6bb4b60; 0xbebfbc70;
    0x289b7ec6; 0xeaa127fa; 0xd4ef3085; 0x04881d05;
    0xd9d4d039; 0xe6db99e5; 0x1fa27cf8; 0xc4ac5665;
    0xf4292244; 0x432aff97; 0xab9423a7; 0xfc93a039;
    0x655b59c3; 0x8f0ccc92; 0xffeff47d; 0x85845dd1;
    0x6fa87e4f; 0xfe2ce6e0; 0xa3014314; 0x4e0811a1;
    0xf7537e82; 0xbd3af235; 0x2ad7d2bb; 0xeb86d391
  ].

Record state := { sa : Z; sb : Z; sc : Z; sd : Z }.

Definition initial : state :=
  {| sa := 0x67452301; sb := 0xefcdab89; sc := 0x98badcfe; sd := 0x10325476 |}.

(** The message as bytes, padded to a multiple of 64: a single 1 bit,
    zeros, and the bit length as 64 little-endian bits. *)
Definition bytesOf (s : string) : list Z :=
  map (fun a => Z.of_nat (nat_of_ascii a)) (list_ascii_of_string s).

Definition littleEndian (width : nat) (x : Z) : list Z :=
  map (fun i => Z.land (Z.shiftr x (8 * Z.of_nat i)) 0xff) (seq 0 width).

Definition pad (msg : list Z) : list Z :=
  let len := Z.of_nat (length msg) in
  let zeros := Z.to_nat ((55 - len) mod 64) in
  msg ++ [0x80] ++ replicate zeros 0 ++ littleEndian 8 (8 * len).

Definition wordOf (bs : list Z) : Z :=
  foldr (fun b acc => Z.lor b (Z.shiftl acc 8)) 0 bs.

Fixpoint chunks {A} (size count : nat) (l : list A) : list (list A) :=
  match count with
  | O => []
  | S c => take size l :: chunks size c (drop size l)
  end.

Definition wordsOf (block : list Z) : list Z :=
  map wordOf (chunks 4 16 block).

Definition step (m : list Z) (st : state) (i : nat) : state :=
  let a := sa st in let b := sb st in let c := sc st in let d := sd st in
  let zi := Z.of_nat i in
  let '(f, g) :=
    if zi <? 16 then (Z.lor (Z.land b c) (Z.land (not32 b) d), zi)
    else if zi <? 32 then (Z.lor (Z.land d b) (Z.land (not32 d) c), (5 * zi + 1) mod 16)
    else if zi <? 48 then (Z.lxor (Z.lxor b c) d, (3 * zi + 5) mod 16)
    else (Z.lxor c (Z.lor b (not32 d)), (7 * zi) mod 16) in
  let f' := add32 (add32 (add32 f a) (nth i sines 0)) (nth (Z.to_nat g) m 0) in
  {| sa := d; sd := c; sc := b; sb := add32 b (rotl32 f' (nth i shifts 0)) |}.

Definition compress (st : state) (block : list Z) : state :=
  let r := foldl (step (wordsOf block)) st (seq 0 64) in
  {| sa := add32 (sa st) (sa r); sb := add32 (sb st) (sb r);
     sc := add32 (sc st) (sc r); sd := add32 (sd st) (sd r) |}.

Definition hexDigit (n : Z) : ascii :=
  nth (Z.to_nat n) (list_ascii_of_string "0123456789abcdef") "0"%char.

Definition hexByte (b : Z) : string :=
  String (hexDigit (Z.shiftr b 4)) (String (hexDigit (Z.land b 0xf)) EmptyString).

(** [createHash('md5').update(s).digest('hex')] *)
Definition hexdigest (s : string) : string :=
  let padded := pad (bytesOf s) in
  let st := foldl compress initial (chunks 64 (length padded / 64) padded) in
  String.concat EmptyString (map hexByte (flat_map (littleEndian 4) [sa st; sb st; sc st; sd st])).

End MD5.

(* ===================================================================== *)
(** * Data model *)
(* ===================================================================== *)

#[global] Instance Q_eq_dec : EqDecision Q.
Proof. solve_decision. Defined.

(** The [OrderPriority] and [OrderStatus] enums of the schema, in their
    declared order. *)
Inductive Priority := LOW | NORMAL | HIGH | URGENT.

Inductive OrderStatus :=
  | PENDING | ASSIGNED | PICKED_UP | IN_TRANSIT | DELIVERED
  | CANCELLED | RETURNED | PARTIALLY_DELIVERED.

#[global] Instance Priority_eq_dec : EqDecision Priority.
Proof. solve_decision. Defined.

#[global] Instance OrderStatus_eq_dec : EqDecision OrderStatus.
Proof. solve_decision. Defined.

(** What [Geocoder.geocodeAddress] returns.  [latitude] and [longitude]
    are [null] for an address that could not be resolved; [error] is a
    property of the fresh negative result only. *)
Record Coordinates := {
  latitude : option Q;
  longitude : option Q;
  formattedAddress : string;
  isValid : bool;
  isGeocoded : bool;
  error : option string
}.

#[global] Instance Coordinates_eq_dec : EqDecision Coordinates.
Proof. solve_decision. Defined.

(** An [Order] row as the route module reads it.  [coordinates] is not a
    column: it is the property [geocodeOrders] adds. *)
Record Order := {
  id : string;
  driverId : option string;
  status : OrderStatus;
  priority : Priority;
  createdAt : Z;
  deliveryAddress : string;
  vehicleMaxUnits : option Z;
  coordinates : option Coordinates
}.

#[global] Instance Order_eq_dec : EqDecision Order.
Proof. solve_decision. Defined.

(** [{ 'URGENT': 4, 'HIGH': 3, 'NORMAL': 2, 'LOW': 1 }] *)
Definition priorityValues (p : Priority) : Z :=
  match p with
  | URGENT => 4
  | HIGH => 3
  | NORMAL => 2
  | LOW => 1
  end.

(** An entry of the list every heuristic consumes
    ([DistanceMatrix.formatForRouteOptimization]). *)
Record DistanceEdge := {
  fromOrderId : string;
  toOrderId : string;
  fromAddress : string;
  toAddress : string;
  distanceMeters : Z;
  distanceText : string;
  durationSeconds : Z;
  durationText : string;
  durationInTrafficSeconds : Z;
  durationInTrafficText : string;
  fromIndex : nat;
  toIndex : nat
}.

(** ** The distance-matrix provider *)

Record TextValue := { text : string; value : Z }.

(** An element of a response row: resolved, or a per-cell error status. *)
Inductive MatrixElement :=
  | ElementOk (distance duration : TextValue) (duration_in_traffic : option TextValue)
  | ElementFailed (elementStatus : string).

Inductive MatrixReply :=
  | MatrixUnreachable (reason : string)
  | MatrixResponse (responseStatus : string) (error_message : option string)
      (rows : list (list MatrixElement)).

(** A delivery point as [calculateDeliveryDistances] keeps it (the
    [priority] some callers add is dropped there).  Both coordinates are
    truthy numbers. *)
Record DeliveryPoint := {
  orderId : string;
  pointLatitude : Q;
  pointLongitude : Q;
  address : string
}.

Record MatrixCell := {
  originIndex : nat;
  destinationIndex : nat;
  origin : option DeliveryPoint;
  destination : option DeliveryPoint;
  cellDistance : option TextValue;
  cellDuration : option TextValue;
  cellDurationInTraffic : option TextValue;
  cellStatus : string
}.

(** What [calculateDeliveryDistances] returns. *)
Record DistanceData := {
  distances : list DistanceEdge;
  matrix : option (list (list MatrixCell));
  totalPoints : Z;
  successfulCalculations : option Z;
  calculatedAt : option Z;
  distanceMessage : option string
}.

(** ** The geocoding provider *)

Record GeocodeResult := { lat : Q; lng : Q; formatted_address : string }.

Inductive GeocodeReply :=
  | GeocodeUnreachable
  | GeocodeResponse (responseStatus : string) (results : list GeocodeResult).

(** ** Options and results of the optimizer

    In an options object [None] is an absent property. *)
Module Options.
Record t := {
  algorithm : option string;
  includeTraffic : option bool;
  vehicleCapacity : option Z;
  priorityWeight : option Q;
  distanceWeight : option Q;
  useCoordinates : option bool
}.

Definition empty : t :=
  {| algorithm := None; includeTraffic := None; vehicleCapacity := None;
     priorityWeight := None; distanceWeight := None; useCoordinates := None |}.

(** [options.x || false] *)
Definition truthy (b : option bool) : bool := default false b.
End Options.

(** The [metadata] object of an optimisation result. *)
Module Metadata.
Record t := {
  algorithm : option string;
  includeTraffic : option bool;
  estimatedImprovement : option string;
  distanceData : option DistanceData;
  optimizationParams : option Options.t;
  optimizationVersion : option string;
  fallback : option bool
}.
End Metadata.

(** An element of [optimizedSequence]: the order's own properties with a
    sequence number and a nominal delivery time. *)
Record SequencedOrder := {
  order : Order;
  sequenceNumber : Z;
  estimatedDeliveryTime : string
}.

(** What the optimizer, and the basic algorithm of the service, return. *)
Module Result.
Record t := {
  success : bool;
  algorithm : string;
  totalOrders : Z;
  optimizedSequence : list SequencedOrder;
  estimatedDuration : string;
  estimatedDistance : string;
  optimizedAt : option Z;
  metadata : Metadata.t;
  realDistanceCalculated : option bool
}.
End Result.

(** ** The two tables *)
Module Db.

(** [addressGeoCache], keyed by [addressHash], with the columns the
    module writes. *)
Record GeoCacheRow := {
  addressHash : string;
  originalAddress : string;
  formattedAddress : string;
  latitude : option Q;
  longitude : option Q;
  isValid : bool;
  isGeocoded : bool;
  geocodedAt : option Z;
  area : string;
  governorate : string
}.

(** The JSON column [optimizationData]: the seven properties the service
    writes, then the spread of the result's metadata, whose
    [includeTraffic] replaces the service's. *)
Record OptimizationData := {
  method : string;
  forceRecalculate : bool;
  includeTraffic : bool;
  useGoogleMaps : bool;
  totalOrders : Z;
  optimizationTimestamp : Z;
  realDistanceCalculated : bool;
  spread : option Metadata.t
}.

(** [RouteOptimizations], one row per [driverId]. *)
Record RouteOptimizationRow := {
  driverId : string;
  routeOptimized : bool;
  optimizedAt : option Z;
  estimatedDuration : option string;
  estimatedDistance : option string;
  optimizationData : option OptimizationData
}.

End Db.

(* ===================================================================== *)
(** * The world and the monad of asynchronous methods *)
(* ===================================================================== *)

(** A latitude/longitude pair of a distance-matrix request. *)
Definition LatLng : Type := Q * Q.

(** Calls that leave the process, and a ghost event [Ran] recording that
    the body of a heuristic was entered.  Nothing reads the trace. *)
Inductive Event :=
  | GeocodeFetch (address : string)
  | DistanceMatrixFetch (origins destinations : list LatLng)
  | Ran (heuristic : string).

Record World := {
  orderTable : list Order;
  routeOptimization : gmap string Db.RouteOptimizationRow;
  addressGeoCache : gmap string Db.GeoCacheRow;
  geocodingApi : string -> GeocodeReply;
  distanceMatrixApi : list LatLng -> list LatLng -> MatrixReply;
  clock : Z;
  trace : list Event
}.

(** A thrown [Error]: Prisma errors carry a [code]. *)
Record JsError := { code : option string; errorMessage : string }.

Definition Error (msg : string) : JsError := {| code := None; errorMessage := msg |}.

Inductive Outcome (A : Type) :=
  | Returned (a : A)
  | Thrown (e : JsError).
Arguments Returned {A} a.
Arguments Thrown {A} e.

Definition M (A : Type) : Type := World -> Outcome A * World.

Definition ret {A} (a : A) : M A := fun w => (Returned a, w).

Definition throw {A} (e : JsError) : M A := fun w => (Thrown e, w).

Definition bind {A B} (m : M A) (k : A -> M B) : M B :=
  fun w =>
    match m w with
    | (Returned a, w') => k a w'
    | (Thrown e, w') => (Thrown e, w')
    end.

(** [try { m } catch (error) { handler error }] *)
Definition tryCatch {A} (m : M A) (handler : JsError -> M A) : M A :=
  fun w =>
    match m w with
    | (Returned a, w') => (Returned a, w')
    | (Thrown e, w') => handler e w'
    end.

Definition getWorld : M World := fun w => (Returned w, w).

Definition emit (e : Event) : M unit :=
  fun w =>
    (Returned tt,
     {| orderTable := orderTable w; routeOptimization := routeOptimization w;
        addressGeoCache := addressGeoCache w; geocodingApi := geocodingApi w;
        distanceMatrixApi := distanceMatrixApi w; clock := clock w;
        trace := trace w ++ [e] |}).

(** [new Date()] *)
Definition newDate : M Z := fun w => (Returned (clock w), w).

Notation "x <- m ;; k" := (bind m (fun x => k))
  (at level 100, m at next level, right associativity).
Notation "m ;;; k" := (bind m (fun _ => k))
  (at level 100, right associativity).

(** [arr.map(f)] and [for (const x of arr)] with an awaited body. *)
Fixpoint forEachM {A B} (f : A -> M B) (l : list A) : M (list B) :=
  match l with
  | [] => ret []
  | x :: l' => y <- f x ;; ys <- forEachM f l' ;; ret (y :: ys)
  end.

(** Updates of one component of the world. *)
Definition setAddressGeoCache (t : gmap string Db.GeoCacheRow) : M unit :=
  fun w =>
    (Returned tt,
     {| orderTable := orderTable w; routeOptimization := routeOptimization w;
        addressGeoCache := t; geocodingApi := geocodingApi w;
        distanceMatrixApi := distanceMatrixApi w; clock := clock w;
        trace := trace w |}).

Definition setRouteOptimization (t : gmap string Db.RouteOptimizationRow) : M unit :=
  fun w =>
    (Returned tt,
     {| orderTable := orderTable w; routeOptimization := t;
        addressGeoCache := addressGeoCache w; geocodingApi := geocodingApi w;
        distanceMatrixApi := distanceMatrixApi w; clock := clock w;
        trace := trace w |}).

(* ===================================================================== *)
(** * utils/geocoder.js *)
(* ===================================================================== *)

Module Geocoder.

(** [md5(address.toLowerCase().trim())], in hexadecimal *)
Definition createAddressHash (address : string) : string :=
  MD5.hexdigest (Js.trim (Js.toLowerCase address)).

(** [haystack.includes(needle)] *)
Definition includes (haystack needle : string) : bool :=
  match String.index 0 needle haystack with
  | Some _ => true
  | None => false
  end.

Definition extractAreaFromAddress (address : string) : string :=
  let areas := ["Zamalek"; "Dokki"; "Downtown"; "Maadi"; "Heliopolis";
                "Nasr City"; "New Cairo"]%string in
  match Js.find (fun a => includes (Js.toLowerCase address) (Js.toLowerCase a)) areas with
  | Some a => a
  | None => "Unknown"%string
  end.

Definition extractGovernorateFromAddress (address : string) : string :=
  let governorates := ["Cairo"; "Giza"; "Alexandria"; "Qalyubia"]%string in
  match Js.find (fun g => includes (Js.toLowerCase address) (Js.toLowerCase g)) governorates with
  | Some g => g
  | None => "Cairo"%string
  end.

(** The cached coordinates of an address, or [null].  The object built
    from the row has no [error] property. *)
Definition getCachedCoordinates (address : string) : M (option Coordinates) :=
  let hash := createAddressHash address in
  w <- getWorld ;;
  match addressGeoCache w !! hash with
  | Some cached =>
      ret (Some {| latitude := Db.latitude cached;
                   longitude := Db.longitude cached;
                   formattedAddress := Db.formattedAddress cached;
                   isValid := Db.isValid cached;
                   isGeocoded := Db.isGeocoded cached;
                   error := None |})
  | None => ret None
  end.

(** [prisma.addressGeoCache.upsert]: the [create] object for a new hash,
    the [update] object over the existing row otherwise. *)
Definition cacheCoordinates (address : string) (coordinates : Coordinates) : M unit :=
  let hash := createAddressHash address in
  w <- getWorld ;;
  date <- newDate ;;
  let stamp := if isGeocoded coordinates then Some date else None in
  let row :=
    match addressGeoCache w !! hash with
    | None =>
        {| Db.addressHash := hash;
           Db.originalAddress := address;
           Db.formattedAddress := formattedAddress coordinates;
           Db.latitude := latitude coordinates;
           Db.longitude := longitude coordinates;
           Db.isValid := isValid coordinates;
           Db.isGeocoded := isGeocoded coordinates;
           Db.geocodedAt := stamp;
           Db.area := extractAreaFromAddress address;
           Db.governorate := extractGovernorateFromAddress address |}
    | Some old =>
        {| Db.addressHash := Db.addressHash old;
           Db.originalAddress := Db.originalAddress old;
           Db.formattedAddress := formattedAddress coordinates;
           Db.latitude := latitude coordinates;
           Db.longitude := longitude coordinates;
           Db.isValid := isValid coordinates;
           Db.isGeocoded := isGeocoded coordinates;
           Db.geocodedAt := stamp;
           Db.area := Db.area old;
           Db.governorate := Db.governorate old |}
    end in
  setAddressGeoCache (<[hash := row]> (addressGeoCache w)).

(** Geocode a single address to coordinates. *)
Definition geocodeAddress (address : string) : M Coordinates :=
  tryCatch
    (cached <- getCachedCoordinates address ;;
     match cached with
     | Some c => ret c
     | None =>
         w <- getWorld ;;
         emit (GeocodeFetch address) ;;;
         match geocodingApi w address with
         | GeocodeUnreachable => throw (Error "fetch failed")
         | GeocodeResponse st results =>
             match (if decide (st = "OK"%string) then head results else None) with
             | Some first =>
                 let coordinates :=
                   {| latitude := Some (lat first);
                      longitude := Some (lng first);
                      formattedAddress := formatted_address first;
                      isValid := true;
                      isGeocoded := true;
                      error := None |} in
                 cacheCoordinates address coordinates ;;;
                 ret coordinates
             | None =>
                 let invalidResult :=
                   {| latitude := None;
                      longitude := None;
                      formattedAddress := address;
                      isValid := false;
                      isGeocoded := false;
                      error := Some st |} in
                 cacheCoordinates address invalidResult ;;;
                 ret invalidResult
             end
         end
     end)
    (fun _ => throw (Error ("Failed to geocode address: " +:+ address))).

(** [setTimeout(resolve, ms)]: the promise resolves once [ms]
    milliseconds have passed. *)
Definition delay (ms : Z) : M unit :=
  fun w =>
    (Returned tt,
     {| orderTable := orderTable w; routeOptimization := routeOptimization w;
        addressGeoCache := addressGeoCache w; geocodingApi := geocodingApi w;
        distanceMatrixApi := distanceMatrixApi w; clock := clock w + ms;
        trace := trace w |}).

(** [{ address: address, ...result }] *)
Record BatchResult := { batchAddress : string; batchCoordinates : Coordinates }.

(** Geocode multiple addresses in batch: one after the other, a pause
    after each. *)
Definition geocodeAddresses (addresses : list string) : M (list BatchResult) :=
  forEachM
    (fun address =>
       result <- geocodeAddress address ;;
       delay 100 ;;;
       ret {| batchAddress := address; batchCoordinates := result |})
    addresses.

Record GeocacheStats := {
  totalAddresses : Z;
  validAddresses : Z;
  geocodedAddresses : Z;
  cacheHitRate : string
}.

(** [prisma.addressGeoCache.count({ where })] *)
Definition countWhere (condition : Db.GeoCacheRow -> bool)
    (table : gmap string Db.GeoCacheRow) : Z :=
  Z.of_nat (length (List.filter (fun entry => condition (snd entry)) (map_to_list table))).

(** Get geocache statistics. *)
Definition getGeocacheStats : M GeocacheStats :=
  tryCatch
    (w <- getWorld ;;
     let total := countWhere (fun _ => true) (addressGeoCache w) in
     let valid := countWhere Db.isValid (addressGeoCache w) in
     let geocoded := countWhere Db.isGeocoded (addressGeoCache w) in
     ret {| totalAddresses := total;
            validAddresses := valid;
            geocodedAddresses := geocoded;
            cacheHitRate :=
              if 0 <? total
              then Js.toFixed2
                     (Js.mul (Js.div (inject_Z geocoded) (inject_Z total)) (inject_Z 100))
              else "0" |})
    (fun _ => throw (Error "Failed to get geocache statistics")).

End Geocoder.

(* ===================================================================== *)
(** * utils/distance-matrix.js *)
(* ===================================================================== *)

Module DistanceMatrix.

Record MatrixResult := {
  resultMatrix : list (list MatrixCell);
  resultOrigins : list DeliveryPoint;
  resultDestinations : list DeliveryPoint;
  totalElements : Z;
  resultSuccessful : Z
}.

Definition typeError (property : string) : JsError :=
  Error ("Cannot read properties of undefined (reading '" +:+ property +:+ "')").

(** [arr.forEach((x, i) => ...)] with a body that may throw. *)
Fixpoint forEachIndexed {A B} (f : nat -> A -> M B) (i : nat) (l : list A) : M (list B) :=
  match l with
  | [] => ret []
  | x :: l' => y <- f i x ;; ys <- forEachIndexed f (S i) l' ;; ret (y :: ys)
  end.

Definition processElement (origins destinations : list DeliveryPoint)
    (originIndex destIndex : nat) (element : MatrixElement) : M MatrixCell :=
  match element with
  | ElementOk distance duration duration_in_traffic =>
      ret {| originIndex := originIndex;
             destinationIndex := destIndex;
             origin := origins !! originIndex;
             destination := destinations !! destIndex;
             cellDistance := Some distance;
             cellDuration := Some duration;
             cellDurationInTraffic := duration_in_traffic;
             cellStatus := "OK" |}
  | ElementFailed st =>
      if decide (st = "OK"%string)
      then throw (typeError "text")
      else ret {| originIndex := originIndex;
                  destinationIndex := destIndex;
                  origin := origins !! originIndex;
                  destination := destinations !! destIndex;
                  cellDistance := None;
                  cellDuration := None;
                  cellDurationInTraffic := None;
                  cellStatus := st |}
  end.

Definition isOk (cell : MatrixCell) : bool :=
  bool_decide (cellStatus cell = "OK"%string).

(** Process Google Maps Distance Matrix API response. *)
Definition processDistanceMatrixResponse (rows : list (list MatrixElement))
    (origins destinations : list DeliveryPoint) : M MatrixResult :=
  matrix <- forEachIndexed
              (fun originIndex row =>
                 forEachIndexed (processElement origins destinations originIndex) 0%nat row)
              0%nat rows ;;
  ret {| resultMatrix := matrix;
         resultOrigins := origins;
         resultDestinations := destinations;
         totalElements := Z.of_nat (length origins) * Z.of_nat (length destinations);
         resultSuccessful := Z.of_nat (length (filter (fun c => isOk c = true) (concat matrix))) |}.

Definition latLng (p : DeliveryPoint) : LatLng := (pointLatitude p, pointLongitude p).

(** Calculate distance matrix between multiple points: one request to
    the provider. *)
Definition calculateDistanceMatrix (origins destinations : list DeliveryPoint) : M MatrixResult :=
  tryCatch
    (w <- getWorld ;;
     emit (DistanceMatrixFetch (map latLng origins) (map latLng destinations)) ;;;
     match distanceMatrixApi w (map latLng origins) (map latLng destinations) with
     | MatrixUnreachable reason => throw (Error reason)
     | MatrixResponse st error_message rows =>
         if decide (st = "OK"%string)
         then processDistanceMatrixResponse rows origins destinations
         else throw (Error ("Distance Matrix API error: " +:+ st +:+ " - " +:+
                              default "Unknown error"%string
                                (match error_message with
                                 | Some EmptyString => None
                                 | m => m
                                 end)))
     end)
    (fun error =>
       throw (Error ("Failed to calculate distance matrix: " +:+ errorMessage error))).

(** [element.durationInTraffic?.value || element.duration.value]: a
    missing or zero traffic value gives way to the plain duration. *)
Definition trafficOrDuration (inTraffic : option TextValue) (duration : TextValue) : Z :=
  match inTraffic with
  | Some tv => if decide (value tv = 0) then value duration else value tv
  | None => value duration
  end.

Definition trafficOrDurationText (inTraffic : option TextValue) (duration : TextValue) : string :=
  match inTraffic with
  | Some tv => if decide (text tv = EmptyString) then text duration else text tv
  | None => text duration
  end.

Definition formatElement (deliveryPoints : list DeliveryPoint) (i j : nat)
    (element : MatrixCell) : M (list DistanceEdge) :=
  if isOk element && negb (bool_decide (i = j)) then
    match deliveryPoints !! i, deliveryPoints !! j with
    | Some from, Some to =>
        match cellDistance element, cellDuration element with
        | Some distance, Some duration =>
            ret [ {| fromOrderId := orderId from;
                     toOrderId := orderId to;
                     fromAddress := address from;
                     toAddress := address to;
                     distanceMeters := value distance;
                     distanceText := text distance;
                     durationSeconds := value duration;
                     durationText := text duration;
                     durationInTrafficSeconds :=
                       trafficOrDuration (cellDurationInTraffic element) duration;
                     durationInTrafficText :=
                       trafficOrDurationText (cellDurationInTraffic element) duration;
                     fromIndex := i;
                     toIndex := j |} ]
        | _, _ => throw (typeError "value")
        end
    | _, _ => throw (typeError "orderId")
    end
  else ret [].

(** Format distance matrix for route optimization algorithms: the
    resolved off-diagonal cells, keyed by order id. *)
Definition formatForRouteOptimization (distanceResult : MatrixResult)
    (deliveryPoints : list DeliveryPoint) : M (list DistanceEdge) :=
  formatted <- forEachIndexed
                 (fun i row =>
                    cells <- forEachIndexed (formatElement deliveryPoints i) 0%nat row ;;
                    ret (concat cells))
                 0%nat (resultMatrix distanceResult) ;;
  ret (concat formatted).

(** Calculate distances between delivery points for route optimization. *)
Definition calculateDeliveryDistances (deliveryPoints : list DeliveryPoint) : M DistanceData :=
  tryCatch
    (if (length deliveryPoints <? 2)%nat then
       ret {| distances := [];
              matrix := None;
              totalPoints := Z.of_nat (length deliveryPoints);
              successfulCalculations := None;
              calculatedAt := None;
              distanceMessage :=
                Some "Need at least 2 delivery points for distance calculation"%string |}
     else
       result <- calculateDistanceMatrix deliveryPoints deliveryPoints ;;
       deliveryDistances <- formatForRouteOptimization result deliveryPoints ;;
       date <- newDate ;;
       ret {| distances := deliveryDistances;
              matrix := Some (resultMatrix result);
              totalPoints := Z.of_nat (length deliveryPoints);
              successfulCalculations := Some (resultSuccessful result);
              calculatedAt := Some date;
              distanceMessage := None |})
    (fun error =>
       throw (Error ("Failed to calculate delivery distances: " +:+ errorMessage error))).

(** Format duration from seconds to readable text. *)
Definition formatDuration (seconds : Z) : string :=
  let hours := seconds / 3600 in
  let minutes := Z.rem seconds 3600 / 60 in
  if 0 <? hours
  then Js.numberToString hours +:+ "h " +:+ Js.numberToString minutes +:+ "m"
  else Js.numberToString minutes +:+ "m".

Record RoutePoint := { pointOrder : Order; index : nat }.

Record RouteTotals := {
  totalDistanceMeters : Z;
  totalDistanceKm : string;
  totalDurationSeconds : Z;
  totalDurationMinutes : Z;
  totalDurationInTrafficSeconds : Z;
  totalDurationInTrafficMinutes : Z;
  totalDurationText : string;
  totalDurationInTrafficText : string
}.

(** The edge the loop of [calculateRouteTotals] looks up for a pair of
    consecutive route points: first match on the matrix indices. *)
Definition findByIndex (distanceMatrix : list DistanceEdge) (from to : nat) : option DistanceEdge :=
  Js.find (fun d => bool_decide (fromIndex d = from) && bool_decide (toIndex d = to))
    distanceMatrix.

(** The three running sums over [i = 0 .. length - 2]. *)
Fixpoint sumTotals (routePoints : list RoutePoint) (distanceMatrix : list DistanceEdge)
    (acc : Z * Z * Z) : Z * Z * Z :=
  match routePoints with
  | p :: ((q :: _) as rest) =>
      let '(totalDistance, totalDuration, totalDurationInTraffic) := acc in
      sumTotals rest distanceMatrix
        match findByIndex distanceMatrix (index p) (index q) with
        | Some distanceInfo =>
            (totalDistance + distanceMeters distanceInfo,
             totalDuration + durationSeconds distanceInfo,
             totalDurationInTraffic + durationInTrafficSeconds distanceInfo)
        | None => acc
        end
  | _ => acc
  end.

(** [Math.ceil(x / 60)] for an integer [x] *)
Definition ceilDiv60 (x : Z) : Z := - ((- x) / 60).

(** Calculate total route distance and duration. *)
Definition calculateRouteTotals (routePoints : list RoutePoint)
    (distanceMatrix : list DistanceEdge) : RouteTotals :=
  let '(totalDistance, totalDuration, totalDurationInTraffic) :=
    sumTotals routePoints distanceMatrix (0, 0, 0) in
  {| totalDistanceMeters := totalDistance;
     totalDistanceKm := Js.toFixed2 (Js.div (inject_Z totalDistance) (inject_Z 1000));
     totalDurationSeconds := totalDuration;
     totalDurationMinutes := ceilDiv60 totalDuration;
     totalDurationInTrafficSeconds := totalDurationInTraffic;
     totalDurationInTrafficMinutes := ceilDiv60 totalDurationInTraffic;
     totalDurationText := formatDuration totalDuration;
     totalDurationInTrafficText := formatDuration totalDurationInTraffic |}.

(** What [getDirectDistance] returns. *)
Record DirectDistance := {
  directDistance : option TextValue;
  directDuration : option TextValue;
  directDurationInTraffic : option TextValue;
  directOrigin : DeliveryPoint;
  directDestination : DeliveryPoint
}.

(** Get shortest distance between two points: the one cell of a
    one-by-one matrix. *)
Definition getDirectDistance (origin destination : DeliveryPoint) : M DirectDistance :=
  tryCatch
    (result <- calculateDistanceMatrix [origin] [destination] ;;
     match resultMatrix result !! 0%nat ≫= (fun row => row !! 0%nat) with
     | Some cell =>
         if isOk cell
         then ret {| directDistance := cellDistance cell;
                     directDuration := cellDuration cell;
                     directDurationInTraffic := cellDurationInTraffic cell;
                     directOrigin := origin;
                     directDestination := destination |}
         else throw (Error "Cannot calculate distance between points")
     | None => throw (Error "Cannot calculate distance between points")
     end)
    (fun error => throw (Error ("Failed to get direct distance: " +:+ errorMessage error))).

End DistanceMatrix.

(* ===================================================================== *)
(** * utils/optimizer.js *)
(* ===================================================================== *)

Module RouteOptimizer.

Definition PRIORITY_BASED : string := "priority".
Definition NEAREST_NEIGHBOR : string := "nearest_neighbor".
Definition GENETIC_ALGORITHM : string := "genetic".
Definition OR_TOOLS_VRP : string := "or_tools".
Definition HYBRID : string := "hybrid".

(** A string is truthy when it is not empty. *)
Definition truthyString (s : string) : bool := negb (bool_decide (s = EmptyString)).

(** Select optimal algorithm based on problem characteristics. *)
Definition selectOptimalAlgorithm (orderCount : Z) (requestedAlgorithm : string) : string :=
  if truthyString requestedAlgorithm && negb (bool_decide (requestedAlgorithm = HYBRID))
  then requestedAlgorithm
  else if orderCount <=? 3 then PRIORITY_BASED
  else if orderCount <=? 10 then NEAREST_NEIGHBOR
  else if orderCount <=? 25 then GENETIC_ALGORITHM
  else OR_TOOLS_VRP.

(** [distances.find(d => d.fromOrderId === from && d.toOrderId === to)] *)
Definition findEdge (distances : list DistanceEdge) (from to : string) : option DistanceEdge :=
  Js.find (fun d => bool_decide (fromOrderId d = from) && bool_decide (toOrderId d = to))
    distances.

(** Calculate total route distance: the traffic-aware seconds of the
    consecutive pairs that have an edge. *)
Fixpoint calculateRouteDistance (route : list Order) (distances : list DistanceEdge) : Z :=
  match route with
  | a :: ((b :: _) as rest) =>
      match findEdge distances (id a) (id b) with
      | Some distanceInfo => durationInTrafficSeconds distanceInfo
      | None => 0
      end + calculateRouteDistance rest distances
  | _ => 0
  end.

Definition sequenced (index : nat) (o : Order) : SequencedOrder :=
  {| order := o;
     sequenceNumber := Z.of_nat index + 1;
     estimatedDeliveryTime :=
       Js.numberToString ((Z.of_nat index + 1) * 15) +:+ " minutes" |}.

Definition routePoint (index : nat) (o : Order) : DistanceMatrix.RoutePoint :=
  {| DistanceMatrix.pointOrder := o; DistanceMatrix.index := index |}.

(** [metadata.algorithm || 'UNKNOWN'] *)
Definition algorithmOr (unknown : string) (a : option string) : string :=
  match a with
  | Some s => if truthyString s then s else unknown
  | None => unknown
  end.

Definition withVersion (m : Metadata.t) : Metadata.t :=
  {| Metadata.algorithm := Metadata.algorithm m;
     Metadata.includeTraffic := Metadata.includeTraffic m;
     Metadata.estimatedImprovement := Metadata.estimatedImprovement m;
     Metadata.distanceData := Metadata.distanceData m;
     Metadata.optimizationParams := Metadata.optimizationParams m;
     Metadata.optimizationVersion := Some "1.0.0"%string;
     Metadata.fallback := Metadata.fallback m |}.

(** Format optimization result.  Without distance data the duration and
    the distance are nominal: 15 minutes and 5 km an order.  With
    distance data they are the totals [calculateRouteTotals] finds for
    the route points, each carrying its position in the route as [index]. *)
Definition formatOptimizationResult (optimizedOrders : list Order) (metadata : Metadata.t)
    : M Result.t :=
  date <- newDate ;;
  let count := Z.of_nat (length optimizedOrders) in
  let result (duration distance : string) (real : option bool) :=
    {| Result.success := true;
       Result.algorithm := algorithmOr "UNKNOWN" (Metadata.algorithm metadata);
       Result.totalOrders := count;
       Result.optimizedSequence := imap sequenced optimizedOrders;
       Result.estimatedDuration := duration;
       Result.estimatedDistance := distance;
       Result.optimizedAt := Some date;
       Result.metadata := withVersion metadata;
       Result.realDistanceCalculated := real |} in
  match Metadata.distanceData metadata with
  | Some data =>
      let totals :=
        DistanceMatrix.calculateRouteTotals (imap routePoint optimizedOrders) (distances data) in
      ret (result (DistanceMatrix.totalDurationInTrafficText totals)
             (DistanceMatrix.totalDistanceKm totals +:+ " km")
             (Some true))
  | None =>
      ret (result (Js.numberToString (count * 15) +:+ " minutes")
             (Js.numberToString (count * 5) +:+ " km")
             None)
  end.

(** Create route result for single order. *)
Definition createSingleOrderRoute (o : Order) : M Result.t :=
  formatOptimizationResult [o]
    {| Metadata.algorithm := Some "SINGLE_ORDER"%string;
       Metadata.includeTraffic := Some false;
       Metadata.estimatedImprovement := Some "0%"%string;
       Metadata.distanceData := None;
       Metadata.optimizationParams := None;
       Metadata.optimizationVersion := None;
       Metadata.fallback := None |}.

Definition withCoordinates (o : Order) (c : option Coordinates) : Order :=
  {| id := id o; driverId := driverId o; status := status o; priority := priority o;
     createdAt := createdAt o; deliveryAddress := deliveryAddress o;
     vehicleMaxUnits := vehicleMaxUnits o; coordinates := c |}.

Definition geocodeOrder (o : Order) : M Order :=
  tryCatch
    match coordinates o with
    | None =>
        c <- Geocoder.geocodeAddress (deliveryAddress o) ;;
        ret (withCoordinates o (if isValid c then Some c else None))
    | Some _ => ret o
    end
    (fun _ => ret (withCoordinates o None)).

(** Geocode orders if coordinates are missing. *)
Definition geocodeOrders (orders : list Order) : M (list Order) :=
  forEachM geocodeOrder orders.

(** A number is truthy when it is not zero. *)
Definition truthyNumber (q : Q) : bool := negb (Qeq_bool q 0).

(** The point of an order that passes
    [filter(point => point.latitude && point.longitude)]. *)
Definition deliveryPointOf (o : Order) : option DeliveryPoint :=
  c ← coordinates o;
  la ← latitude c;
  lo ← longitude c;
  if truthyNumber la && truthyNumber lo
  then Some {| orderId := id o; pointLatitude := la; pointLongitude := lo;
               address := deliveryAddress o |}
  else None.

Definition deliveryPointsOf (orders : list Order) : list DeliveryPoint :=
  omap deliveryPointOf orders.

(** An array of orders without its [undefined] entries.  The two
    nearest-neighbour routines return the one-element array
    [[undefined]] for an empty array and no [undefined] otherwise; their
    callers pass at least two orders. *)
Definition definedOrders (route : list (option Order)) : list Order :=
  omap (fun o => o) route.

(** ** Simple nearest neighbor without priority weighting *)

Definition nearer (distances : list DistanceEdge) (current : Order)
    (best : option (Order * Z)) (candidate : Order) : option (Order * Z) :=
  match findEdge distances (id current) (id candidate) with
  | Some distanceInfo =>
      match best with
      | None => Some (candidate, durationInTrafficSeconds distanceInfo)
      | Some (_, shortestDistance) =>
          if durationInTrafficSeconds distanceInfo <? shortestDistance
          then Some (candidate, durationInTrafficSeconds distanceInfo)
          else best
      end
  | None => best
  end.

(** The [while (unvisited.length > 0)] loop; every turn removes one
    element, so [length unvisited] turns empty the array. *)
Fixpoint simpleLoop (turns : nat) (distances : list DistanceEdge) (current : Order)
    (unvisited : list Order) : list Order :=
  match turns, unvisited with
  | S turns', first :: others =>
      match foldl (nearer distances current) None unvisited with
      | Some (nearest, _) =>
          nearest :: simpleLoop turns' distances nearest (Js.spliceIndexOf nearest unvisited)
      | None => first :: simpleLoop turns' distances first others
      end
  | _, _ => []
  end.

Definition simpleNearestNeighbor (orders : list Order) (distances : list DistanceEdge)
    : list (option Order) :=
  match orders with
  | [] => [None]
  | current :: unvisited =>
      map Some (current :: simpleLoop (length unvisited) distances current unvisited)
  end.

(** Apply nearest neighbor algorithm to a group of orders. *)
Definition nearestNeighborForGroup (orders : list Order) (options : Options.t)
    : M (list Order) :=
  if (length orders <=? 1)%nat then ret orders
  else
    tryCatch
      (let deliveryPoints := deliveryPointsOf orders in
       if (length deliveryPoints <? 2)%nat then ret orders
       else
         distanceData <- DistanceMatrix.calculateDeliveryDistances deliveryPoints ;;
         ret (definedOrders (simpleNearestNeighbor orders (distances distanceData))))
      (fun _ => ret orders).

(** Group orders by priority level: an object keyed by priority, its
    keys in order of first appearance. *)
Fixpoint addToGroup (groups : list (Priority * list Order)) (o : Order)
    : list (Priority * list Order) :=
  match groups with
  | [] => [(priority o, [o])]
  | (p, members) :: rest =>
      if decide (p = priority o)
      then (p, members ++ [o]) :: rest
      else (p, members) :: addToGroup rest o
  end.

Definition groupOrdersByPriority (orders : list Order) : list (Priority * list Order) :=
  foldl addToGroup [] orders.

(** ** Nearest neighbor algorithm with priority weighting *)

(** [(a, b) => priorityValues[b.priority] - priorityValues[a.priority]] *)
Definition byPriority (a b : Order) : Z :=
  priorityValues (priority b) - priorityValues (priority a).

(** [const { priorityWeight = 0.3, distanceWeight = 0.7 } = options] *)
Definition priorityWeightOf (options : Options.t) : Q :=
  default (Js.literal (3 # 10)) (Options.priorityWeight options).

Definition distanceWeightOf (options : Options.t) : Q :=
  default (Js.literal (7 # 10)) (Options.distanceWeight options).

(** The weighted score of a candidate reached over [distanceInfo]; lower
    is better. *)
Definition score (priorityWeight distanceWeight : Q) (distanceInfo : DistanceEdge)
    (candidate : Order) : Q :=
  let normalizedDistance :=
    Js.div (inject_Z (durationInTrafficSeconds distanceInfo)) (inject_Z 3600) in
  let normalizedPriority :=
    Js.div (inject_Z (5 - priorityValues (priority candidate))) (inject_Z 4) in
  Js.add (Js.mul distanceWeight normalizedDistance) (Js.mul priorityWeight normalizedPriority).

(** One turn of the [for (const candidate of unvisited)] loop.  [best] is
    [(bestNext, bestScore)]; [None] is the initial [(null, Infinity)],
    which every score beats. *)
Definition better (priorityWeight distanceWeight : Q) (distances : list DistanceEdge)
    (current : Order) (best : option (Order * Q)) (candidate : Order) : option (Order * Q) :=
  match findEdge distances (id current) (id candidate) with
  | Some distanceInfo =>
      let s := score priorityWeight distanceWeight distanceInfo candidate in
      match best with
      | None => Some (candidate, s)
      | Some (_, bestScore) => if Js.ltb s bestScore then Some (candidate, s) else best
      end
  | None => best
  end.

Definition bestNext (priorityWeight distanceWeight : Q) (distances : list DistanceEdge)
    (current : Order) (unvisited : list Order) : option (Order * Q) :=
  foldl (better priorityWeight distanceWeight distances current) None unvisited.

(** The [while (unvisited.length > 0)] loop.  Without distance data for
    any candidate the array is sorted by priority in place and its head
    is taken. *)
Fixpoint weightedLoop (turns : nat) (priorityWeight distanceWeight : Q)
    (distances : list DistanceEdge) (current : Order) (unvisited : list Order) : list Order :=
  match turns, unvisited with
  | S turns', _ :: _ =>
      match bestNext priorityWeight distanceWeight distances current unvisited with
      | Some (next, _) =>
          next :: weightedLoop turns' priorityWeight distanceWeight distances next
                    (Js.spliceIndexOf next unvisited)
      | None =>
          let sorted := Js.sort byPriority unvisited in
          match sorted with
          | nextByPriority :: _ =>
              nextByPriority ::
                weightedLoop turns' priorityWeight distanceWeight distances nextByPriority
                  (Js.spliceIndexOf nextByPriority sorted)
          | [] => []
          end
      end
  | _, _ => []
  end.

(** The copy of [orders] is sorted by priority in place; its head starts
    the route.  On an empty array the head is [undefined], which is
    pushed to the route. *)
Definition nearestNeighborWithPriority (orders : list Order) (distances : list DistanceEdge)
    (options : Options.t) : list (option Order) :=
  let sorted := Js.sort byPriority orders in
  match sorted with
  | [] => [None]
  | current :: _ =>
      let unvisited := Js.spliceIndexOf current sorted in
      map Some
        (current ::
           weightedLoop (length unvisited) (priorityWeightOf options)
             (distanceWeightOf options) distances current unvisited)
  end.

(** ** The heuristics *)

(** The comparator of the priority sort: priority rank descending, then
    creation time ascending. *)
Definition byPriorityThenAge (a b : Order) : Z :=
  if decide (priorityValues (priority a) <> priorityValues (priority b))
  then priorityValues (priority b) - priorityValues (priority a)
  else createdAt a - createdAt b.

Definition metadataOf (algorithm : string) (includeTraffic : bool) (improvement : string)
    (data : option DistanceData) (params : option Options.t) : Metadata.t :=
  {| Metadata.algorithm := Some algorithm;
     Metadata.includeTraffic := Some includeTraffic;
     Metadata.estimatedImprovement := Some improvement;
     Metadata.distanceData := data;
     Metadata.optimizationParams := params;
     Metadata.optimizationVersion := None;
     Metadata.fallback := None |}.

(** Priority-based optimization with distance consideration.  The
    [catch] clause, a call of [priorityBasedOptimization], is not
    modelled: no statement of the [try] block raises, since
    [geocodeOrders] and [nearestNeighborForGroup] catch what their calls
    raise and the result is formatted without distance data
    ([priorityWithDistance_returns] below). *)
Definition priorityWithDistanceOptimization (orders : list Order) (options : Options.t)
    : M Result.t :=
  emit (Ran "priorityWithDistanceOptimization") ;;;
  geocodedOrders <- geocodeOrders orders ;;
  let priorityGroups := groupOrdersByPriority geocodedOrders in
  optimizedGroups <-
    forEachM
      (fun '(_, groupOrders) =>
         if (length groupOrders <=? 1)%nat then ret groupOrders
         else nearestNeighborForGroup groupOrders options)
      priorityGroups ;;
  formatOptimizationResult (concat optimizedGroups)
    (metadataOf "PRIORITY_WITH_DISTANCE" (Options.truthy (Options.includeTraffic options))
       "15-25%" None None).

(** Priority-based optimization. *)
Definition priorityBasedOptimization (orders : list Order) (options : Options.t)
    : M Result.t :=
  emit (Ran "priorityBasedOptimization") ;;;
  tryCatch
    (let sortedOrders := Js.sort byPriorityThenAge orders in
     if Options.truthy (Options.includeTraffic options)
        || Options.truthy (Options.useCoordinates options)
     then priorityWithDistanceOptimization sortedOrders options
     else formatOptimizationResult sortedOrders
            (metadataOf PRIORITY_BASED false "0%" None None))
    (fun error => throw (Error ("Priority optimization failed: " +:+ errorMessage error))).

(** Nearest Neighbor algorithm for route optimization. *)
Definition nearestNeighborOptimization (orders : list Order) (options : Options.t)
    : M Result.t :=
  emit (Ran "nearestNeighborOptimization") ;;;
  tryCatch
    (geocodedOrders <- geocodeOrders orders ;;
     let deliveryPoints := deliveryPointsOf geocodedOrders in
     if (length deliveryPoints <? 2)%nat then priorityBasedOptimization orders options
     else
       distanceData <- DistanceMatrix.calculateDeliveryDistances deliveryPoints ;;
       let optimizedRoute :=
         nearestNeighborWithPriority geocodedOrders (distances distanceData) options in
       formatOptimizationResult (definedOrders optimizedRoute)
         (metadataOf NEAREST_NEIGHBOR (Options.truthy (Options.includeTraffic options))
            "25-40%" (Some distanceData) None))
    (fun _ => priorityBasedOptimization orders options).

Definition weights (priorityWeight distanceWeight : Q) : Options.t :=
  {| Options.algorithm := None; Options.includeTraffic := None;
     Options.vehicleCapacity := None;
     Options.priorityWeight := Some (Js.literal priorityWeight);
     Options.distanceWeight := Some (Js.literal distanceWeight);
     Options.useCoordinates := None |}.

Definition parameterSets : list Options.t :=
  [ weights (2 # 10) (8 # 10);
    weights (3 # 10) (7 # 10);
    weights (4 # 10) (6 # 10);
    weights (5 # 10) (5 # 10) ].

Record Attempt := { route : list Order; distance : Z; params : Options.t }.

Definition attempt (geocodedOrders : list Order) (distances : list DistanceEdge)
    (params : Options.t) : Attempt :=
  let route := definedOrders (nearestNeighborWithPriority geocodedOrders distances params) in
  {| route := route;
     distance := calculateRouteDistance route distances;
     params := params |}.

(** [attempts.sort((a, b) => a.distance - b.distance)[0]] *)
Definition selectBest (attempts : list Attempt) : option Attempt :=
  head (Js.sort (fun a b => distance a - distance b) attempts).

(** Genetic Algorithm optimization (simplified implementation): several
    nearest-neighbor runs with different parameters. *)
Definition geneticAlgorithmOptimization (orders : list Order) (options : Options.t)
    : M Result.t :=
  emit (Ran "geneticAlgorithmOptimization") ;;;
  tryCatch
    (geocodedOrders <- geocodeOrders orders ;;
     let deliveryPoints := deliveryPointsOf geocodedOrders in
     if (length deliveryPoints <? 2)%nat then priorityBasedOptimization orders options
     else
       distanceData <- DistanceMatrix.calculateDeliveryDistances deliveryPoints ;;
       let attempts := map (attempt geocodedOrders (distances distanceData)) parameterSets in
       match selectBest attempts with
       | Some bestAttempt =>
           formatOptimizationResult (route bestAttempt)
             (metadataOf GENETIC_ALGORITHM (Options.truthy (Options.includeTraffic options))
                "30-50%" (Some distanceData) (Some (params bestAttempt)))
       | None => throw (DistanceMatrix.typeError "route")
       end)
    (fun _ => nearestNeighborOptimization orders options).

(** OR-Tools VRP optimization (placeholder): the genetic routine. *)
Definition orToolsVrpOptimization (orders : list Order) (options : Options.t)
    : M Result.t :=
  tryCatch (geneticAlgorithmOptimization orders options)
    (fun _ => geneticAlgorithmOptimization orders options).

(** Hybrid optimization - combines multiple approaches. *)
Definition hybridOptimization (orders : list Order) (options : Options.t) : M Result.t :=
  tryCatch
    (let orderCount := Z.of_nat (length orders) in
     if orderCount <=? 3 then priorityBasedOptimization orders options
     else if orderCount <=? 10 then nearestNeighborOptimization orders options
     else geneticAlgorithmOptimization orders options)
    (fun _ => priorityBasedOptimization orders options).

(** The [switch] of [optimizeRoute]. *)
Definition dispatch (selectedAlgorithm : string) (orders : list Order) (options : Options.t)
    : M Result.t :=
  if decide (selectedAlgorithm = PRIORITY_BASED) then priorityBasedOptimization orders options
  else if decide (selectedAlgorithm = NEAREST_NEIGHBOR)
  then nearestNeighborOptimization orders options
  else if decide (selectedAlgorithm = GENETIC_ALGORITHM)
  then geneticAlgorithmOptimization orders options
  else if decide (selectedAlgorithm = OR_TOOLS_VRP) then orToolsVrpOptimization orders options
  else hybridOptimization orders options.

(** Main optimization method - chooses best algorithm based on problem
    size. *)
Definition optimizeRoute (orders : list Order) (options : Options.t) : M Result.t :=
  tryCatch
    (let algorithm := default HYBRID (Options.algorithm options) in
     match orders with
     | [] => throw (Error "No orders provided for optimization")
     | [single] => createSingleOrderRoute single
     | _ =>
         let selectedAlgorithm :=
           selectOptimalAlgorithm (Z.of_nat (length orders)) algorithm in
         dispatch selectedAlgorithm orders options
     end)
    (fun error => throw (Error ("Failed to optimize route: " +:+ errorMessage error))).

End RouteOptimizer.

(* ===================================================================== *)
(** * utils/route-builder.js

    The routines of the route builder that work on the optimised
    sequence.  Columns an order only carries along ([customerName],
    [orderNumber] and the like) are not part of [Order]. *)
(* ===================================================================== *)

Module RouteBuilder.

(** An element of the geocoded route: the sequenced order, its
    [coordinates] replaced, with the two properties the builder adds. *)
Record RouteStop := {
  sequenced : SequencedOrder;
  geocoded : bool;
  geocodingError : option string
}.

Definition stopOrder (s : RouteStop) : Order := order (sequenced s).

Definition withStopCoordinates (s : SequencedOrder) (c : option Coordinates) : SequencedOrder :=
  {| order := RouteOptimizer.withCoordinates (order s) c;
     sequenceNumber := sequenceNumber s;
     estimatedDeliveryTime := estimatedDeliveryTime s |}.

(** [!coordinates || !coordinates.latitude || !coordinates.longitude] *)
Definition missing (c : option Coordinates) : bool :=
  match c with
  | None => true
  | Some c =>
      negb (from_option RouteOptimizer.truthyNumber false (latitude c))
      || negb (from_option RouteOptimizer.truthyNumber false (longitude c))
  end.

Definition geocodeRouteOrder (s : SequencedOrder) : M RouteStop :=
  tryCatch
    (c <- match coordinates (order s) with
          | Some c =>
              if missing (Some c) then Geocoder.geocodeAddress (deliveryAddress (order s))
              else ret c
          | None => Geocoder.geocodeAddress (deliveryAddress (order s))
          end ;;
     ret {| sequenced := withStopCoordinates s (if isValid c then Some c else None);
            geocoded := isValid c;
            geocodingError := if isValid c then None else error c |})
    (fun error =>
       ret {| sequenced := withStopCoordinates s None;
              geocoded := false;
              geocodingError := Some (errorMessage error) |}).

(** Geocode all orders in the optimized route. *)
Definition geocodeRouteOrders (orders : list SequencedOrder) : M (list RouteStop) :=
  forEachM geocodeRouteOrder orders.

(** Format duration from seconds to readable text. *)
Definition formatDuration (seconds : Z) : string :=
  let hours := seconds / 3600 in
  let minutes := Z.rem seconds 3600 / 60 in
  if 0 <? hours
  then Js.numberToString hours +:+ "h " +:+ Js.numberToString minutes +:+ "m"
  else Js.numberToString minutes +:+ "m".

Record Endpoint := { endpointOrderId : string; endpointAddress : string }.

Record Segment := {
  segmentFrom : Endpoint;
  segmentTo : Endpoint;
  segmentDistance : string;
  segmentDuration : string;
  segmentDurationInTraffic : string;
  segmentNumber : Z
}.

Record SequentialTotals := {
  totalDistanceMeters : Z;
  totalDistanceKm : string;
  totalDurationSeconds : Z;
  totalDurationMinutes : Z;
  totalDurationInTrafficSeconds : Z;
  totalDurationInTrafficMinutes : Z;
  totalDurationText : string;
  totalDurationInTrafficText : string;
  routeSegments : list Segment
}.

Definition endpoint (o : Order) : Endpoint :=
  {| endpointOrderId := id o; endpointAddress := deliveryAddress o |}.

(** The [for (let i = 0; i < orders.length - 1; i++)] loop: the three
    cumulative figures and the segments pushed so far. *)
Fixpoint sequentialLoop (i : nat) (orders : list RouteStop) (distances : list DistanceEdge)
    (acc : Z * Z * Z * list Segment) : Z * Z * Z * list Segment :=
  match orders with
  | fromOrder :: ((toOrder :: _) as rest) =>
      let '(cumulativeDistance, cumulativeDuration, cumulativeDurationInTraffic, segments) :=
        acc in
      sequentialLoop (S i) rest distances
        match RouteOptimizer.findEdge distances (id (stopOrder fromOrder))
                (id (stopOrder toOrder)) with
        | Some distanceInfo =>
            (cumulativeDistance + distanceMeters distanceInfo,
             cumulativeDuration + durationSeconds distanceInfo,
             cumulativeDurationInTraffic + durationInTrafficSeconds distanceInfo,
             segments ++
               [ {| segmentFrom := endpoint (stopOrder fromOrder);
                    segmentTo := endpoint (stopOrder toOrder);
                    segmentDistance := distanceText distanceInfo;
                    segmentDuration := durationText distanceInfo;
                    segmentDurationInTraffic := durationInTrafficText distanceInfo;
                    segmentNumber := Z.of_nat i + 1 |} ])
        | None => acc
        end
  | _ => acc
  end.

(** Calculate route totals following the optimized sequence. *)
Definition calculateSequentialRouteTotals (orders : list RouteStop)
    (distances : list DistanceEdge) : SequentialTotals :=
  let '(cumulativeDistance, cumulativeDuration, cumulativeDurationInTraffic, segments) :=
    sequentialLoop 0 orders distances (0, 0, 0, []) in
  {| totalDistanceMeters := cumulativeDistance;
     totalDistanceKm := Js.toFixed2 (Js.div (inject_Z cumulativeDistance) (inject_Z 1000));
     totalDurationSeconds := cumulativeDuration;
     totalDurationMinutes := DistanceMatrix.ceilDiv60 cumulativeDuration;
     totalDurationInTrafficSeconds := cumulativeDurationInTraffic;
     totalDurationInTrafficMinutes := DistanceMatrix.ceilDiv60 cumulativeDurationInTraffic;
     totalDurationText := formatDuration cumulativeDuration;
     totalDurationInTrafficText := formatDuration cumulativeDurationInTraffic;
     routeSegments := segments |}.

(** A stop of [buildDetailedStops].  The properties the stop copies from
    the order one by one ([orderId], [deliveryAddress], [priority],
    [coordinates], [geocoded], ...) are read from [stop], the element of
    the route they are copied from. *)
Record DetailedStop := {
  stopNumber : Z;
  stop : RouteStop;
  estimatedArrivalTime : string;
  estimatedArrivalMinutes : Z;
  travelTimeFromPrevious : Z;
  deliveryTimeEstimate : Z
}.

(** The [orders.forEach((order, index) => ...)] loop of
    [buildDetailedStops]: [previous] is [orders[index - 1]],
    [cumulativeTime] the minutes counted before the stop. *)
Fixpoint stopsLoop (index : nat) (previous : option RouteStop) (cumulativeTime : Z)
    (orders : list RouteStop) (distances : list DistanceEdge) : list DetailedStop :=
  match orders with
  | [] => []
  | o :: rest =>
      let deliveryTimeMinutes := 10 in
      let travelTimeToStop :=
        match previous with
        | Some previousOrder =>
            match RouteOptimizer.findEdge distances (id (stopOrder previousOrder))
                    (id (stopOrder o)) with
            | Some distanceInfo =>
                DistanceMatrix.ceilDiv60 (durationInTrafficSeconds distanceInfo)
            | None => 0
            end
        | None => 0
        end in
      let arrival := cumulativeTime + travelTimeToStop in
      {| stopNumber := Z.of_nat index + 1;
         stop := o;
         estimatedArrivalTime := Js.numberToString arrival +:+ " minutes from start";
         estimatedArrivalMinutes := arrival;
         travelTimeFromPrevious := travelTimeToStop;
         deliveryTimeEstimate := deliveryTimeMinutes |}
      :: stopsLoop (S index) (Some o) (arrival + deliveryTimeMinutes) rest distances
  end.

(** Build detailed stops with cumulative timing. *)
Definition buildDetailedStops (orders : list RouteStop) (distances : list DistanceEdge)
    : list DetailedStop :=
  stopsLoop 0 None 0 orders distances.

End RouteBuilder.

(* ===================================================================== *)
(** * service.js *)
(* ===================================================================== *)

Module RouteService.

(** The options of [optimizeRoute]; [None] is an absent property. *)
Module Request.
Record t := {
  forceRecalculate : option bool;
  includeTraffic : option bool;
  algorithm : option string;
  useGoogleMaps : option bool
}.
End Request.

(** The [data] object of a response.  [optimizedAt], [estimatedDuration]
    and [estimatedDistance] are always present and may be [null]; the
    other optional properties are absent when [None]. *)
Module Data.
Record t := {
  driverId : string;
  routeOptimized : bool;
  totalOrders : Z;
  optimizedSequence : option (list SequencedOrder);
  optimizedAt : option Z;
  estimatedDuration : option string;
  estimatedDistance : option string;
  optimizationMethod : option string;
  includeTraffic : option bool;
  realDistanceCalculated : option bool;
  estimatedImprovement : option string;
  fromCache : option bool
}.
End Data.

(** A response; [data] is [null] when [None], and [clearRouteOptimization]
    answers without it. *)
Module Response.
Record t := {
  success : bool;
  message : string;
  messageAr : string;
  data : option Data.t
}.
End Response.

Record OrdersResult := { ordersSuccess : bool; ordersData : list Order; count : Z }.

(** [orderBy: [{ priority: 'desc' }, { createdAt: 'asc' }]]; the enum
    sorts in its declared order, which is that of [priorityValues]. *)
Definition orderBy (a b : Order) : Z :=
  if decide (priority a = priority b)
  then createdAt a - createdAt b
  else priorityValues (priority b) - priorityValues (priority a).

Definition pickedUpBy (driver : string) (o : Order) : bool :=
  bool_decide (driverId o = Some driver) && bool_decide (status o = PICKED_UP).

(** Get all PICKED_UP orders for a specific driver. *)
Definition getDriverPickedUpOrders (driver : string) : M OrdersResult :=
  w <- getWorld ;;
  let orders := Js.sort orderBy (List.filter (pickedUpBy driver) (orderTable w)) in
  ret {| ordersSuccess := true; ordersData := orders; count := Z.of_nat (length orders) |}.

(** Basic optimization algorithm (fallback). *)
Definition applyBasicOptimizationAlgorithm (orders : list Order) : Result.t :=
  let optimizedOrders := Js.sort RouteOptimizer.byPriorityThenAge orders in
  let total := Z.of_nat (length optimizedOrders) in
  {| Result.success := true;
     Result.algorithm := "PRIORITY_BASED";
     Result.totalOrders := total;
     Result.optimizedSequence := imap RouteOptimizer.sequenced optimizedOrders;
     Result.estimatedDuration := Js.numberToString (total * 15) +:+ " minutes";
     Result.estimatedDistance := Js.numberToString (total * 5) +:+ " km";
     Result.optimizedAt := None;
     Result.metadata :=
       {| Metadata.algorithm := None;
          Metadata.includeTraffic := None;
          Metadata.estimatedImprovement := Some "0%"%string;
          Metadata.distanceData := None;
          Metadata.optimizationParams := None;
          Metadata.optimizationVersion := Some "1.0.0"%string;
          Metadata.fallback := Some true |};
     Result.realDistanceCalculated := Some false |}.

(** The answer for a driver whose row says the route is optimised. *)
Definition fromCacheResponse (driver : string) (count : Z)
    (existingOptimization : Db.RouteOptimizationRow) : Response.t :=
  {| Response.success := true;
     Response.message :=
       "Route already optimized (use forceRecalculate=true to recalculate)";
     Response.messageAr := "المسار محسن بالفعل";
     Response.data :=
       Some {| Data.driverId := driver;
               Data.routeOptimized := true;
               Data.totalOrders := count;
               Data.optimizedSequence := None;
               Data.optimizedAt := Db.optimizedAt existingOptimization;
               Data.estimatedDuration := Db.estimatedDuration existingOptimization;
               Data.estimatedDistance := Db.estimatedDistance existingOptimization;
               Data.optimizationMethod := None;
               Data.includeTraffic := None;
               Data.realDistanceCalculated := None;
               Data.estimatedImprovement := None;
               Data.fromCache := Some true |} |}.

(** [s || fallback] on strings *)
Definition stringOr (s fallback : string) : string :=
  if RouteOptimizer.truthyString s then s else fallback.

(** The optimisation proper: run the optimizer (or the basic algorithm),
    save the state of the driver, answer. *)
Definition recalculate (driver : string) (ordersResult : OrdersResult)
    (forceRecalculate includeTraffic useGoogleMaps : bool) (algorithm : string)
    : M Response.t :=
  optimizationResult <-
    (if useGoogleMaps && (1 <? count ordersResult) then
       tryCatch
         (RouteOptimizer.optimizeRoute (ordersData ordersResult)
            {| Options.algorithm := Some algorithm;
               Options.includeTraffic := Some includeTraffic;
               Options.vehicleCapacity :=
                 match head (ordersData ordersResult) ≫= vehicleMaxUnits with
                 | Some 0 => None
                 | units => units
                 end;
               Options.priorityWeight := None;
               Options.distanceWeight := None;
               Options.useCoordinates := None |})
         (fun _ =>
            emit (Ran "applyBasicOptimizationAlgorithm") ;;;
            ret (applyBasicOptimizationAlgorithm (ordersData ordersResult)))
     else
       emit (Ran "applyBasicOptimizationAlgorithm") ;;;
       ret (applyBasicOptimizationAlgorithm (ordersData ordersResult))) ;;
  let totalOrders :=
    if Result.totalOrders optimizationResult =? 0 then count ordersResult
    else Result.totalOrders optimizationResult in
  let estimatedDuration :=
    stringOr (Result.estimatedDuration optimizationResult)
      (Js.numberToString (totalOrders * 15) +:+ " minutes") in
  let estimatedDistance :=
    stringOr (Result.estimatedDistance optimizationResult)
      (Js.numberToString (totalOrders * 5) +:+ " km") in
  optimizedAt <- newDate ;;
  let optimizationMethod :=
    stringOr (Result.algorithm optimizationResult)
      (if includeTraffic then "PRIORITY_TRAFFIC_BASED" else "PRIORITY_BASED") in
  let realDistanceCalculated :=
    default false (Result.realDistanceCalculated optimizationResult) in
  let metadata := Result.metadata optimizationResult in
  w <- getWorld ;;
  setRouteOptimization
    (<[driver :=
         {| Db.driverId := driver;
            Db.routeOptimized := true;
            Db.optimizedAt := Some optimizedAt;
            Db.estimatedDuration := Some estimatedDuration;
            Db.estimatedDistance := Some estimatedDistance;
            Db.optimizationData :=
              Some {| Db.method := optimizationMethod;
                      Db.forceRecalculate := forceRecalculate;
                      Db.includeTraffic :=
                        default includeTraffic (Metadata.includeTraffic metadata);
                      Db.useGoogleMaps := useGoogleMaps;
                      Db.totalOrders := totalOrders;
                      Db.optimizationTimestamp := optimizedAt;
                      Db.realDistanceCalculated := realDistanceCalculated;
                      Db.spread := Some metadata |} |}]>
       (routeOptimization w)) ;;;
  ret {| Response.success := true;
         Response.message := "Route optimized successfully";
         Response.messageAr := "تم تحسين المسار بنجاح";
         Response.data :=
           Some {| Data.driverId := driver;
                   Data.routeOptimized := true;
                   Data.totalOrders := totalOrders;
                   Data.optimizedSequence :=
                     Some (Result.optimizedSequence optimizationResult);
                   Data.optimizedAt := Some optimizedAt;
                   Data.estimatedDuration := Some estimatedDuration;
                   Data.estimatedDistance := Some estimatedDistance;
                   Data.optimizationMethod := Some optimizationMethod;
                   Data.includeTraffic := Some includeTraffic;
                   Data.realDistanceCalculated := Some realDistanceCalculated;
                   Data.estimatedImprovement :=
                     Some (match Metadata.estimatedImprovement metadata with
                           | Some s => stringOr s "0%"
                           | None => "0%"%string
                           end);
                   Data.fromCache := None |} |}.

(** Optimize route using advanced algorithms.  Without picked-up orders
    the answer is a failure; without [forceRecalculate], a driver whose
    row has [routeOptimized] gets the saved state back. *)
Definition optimizeRoute (driver : string) (options : Request.t) : M Response.t :=
  tryCatch
    (let forceRecalculate := default false (Request.forceRecalculate options) in
     let includeTraffic := default false (Request.includeTraffic options) in
     let algorithm := default "HYBRID"%string (Request.algorithm options) in
     let useGoogleMaps := default true (Request.useGoogleMaps options) in
     ordersResult <- getDriverPickedUpOrders driver ;;
     if count ordersResult =? 0 then
       ret {| Response.success := false;
              Response.message := "No picked up orders found for driver";
              Response.messageAr := "لا توجد طلبات محملة للسائق";
              Response.data := None |}
     else
       w <- getWorld ;;
       match (if forceRecalculate then None else routeOptimization w !! driver) with
       | Some existingOptimization =>
           if Db.routeOptimized existingOptimization
           then ret (fromCacheResponse driver (count ordersResult) existingOptimization)
           else recalculate driver ordersResult forceRecalculate includeTraffic
                  useGoogleMaps algorithm
       | None =>
           recalculate driver ordersResult forceRecalculate includeTraffic
             useGoogleMaps algorithm
       end)
    (fun error => throw (Error ("Failed to optimize route: " +:+ errorMessage error))).

(** [prisma.routeOptimization.delete({ where: { driverId } })]: deleting
    a row that does not exist raises the error of code P2025. *)
Definition deleteRouteOptimization (driver : string) : M unit :=
  w <- getWorld ;;
  match routeOptimization w !! driver with
  | Some _ => setRouteOptimization (delete driver (routeOptimization w))
  | None =>
      throw {| code := Some "P2025"%string;
               errorMessage := "Record to delete does not exist." |}
  end.

(** Clear route optimization for driver. *)
Definition clearRouteOptimization (driver : string) : M Response.t :=
  tryCatch
    (deleteRouteOptimization driver ;;;
     ret {| Response.success := true;
            Response.message := "Route optimization cleared";
            Response.messageAr := "تم مسح تحسين المسار";
            Response.data := None |})
    (fun error =>
       if decide (code error = Some "P2025"%string) then
         ret {| Response.success := true;
                Response.message := "No route optimization to clear";
                Response.messageAr := "لا يوجد تحسين مسار لمسحه";
                Response.data := None |}
       else throw (Error "Failed to clear route optimization")).

(** The [data] object of [getCurrentRoute]. *)
Module Current.
Record t := {
  driverId : string;
  routeOptimized : bool;
  totalOrders : Z;
  orders : list Order;
  optimizedAt : option Z;
  estimatedDuration : option string;
  estimatedDistance : option string;
  optimizationData : option Db.OptimizationData
}.
End Current.

Record CurrentRoute := {
  currentSuccess : bool;
  currentMessage : string;
  currentMessageAr : string;
  currentData : Current.t
}.

(** [s || null] on a nullable string *)
Definition stringOrNull (s : option string) : option string :=
  s ≫= fun s => if RouteOptimizer.truthyString s then Some s else None.

(** Get current optimized route for driver with persistent state. *)
Definition getCurrentRoute (driver : string) : M CurrentRoute :=
  tryCatch
    (ordersResult <- getDriverPickedUpOrders driver ;;
     w <- getWorld ;;
     let optimizationState := routeOptimization w !! driver in
     ret {| currentSuccess := true;
            currentMessage := "Current route retrieved";
            currentMessageAr := "تم استرجاع المسار الحالي";
            currentData :=
              {| Current.driverId := driver;
                 Current.routeOptimized :=
                   from_option Db.routeOptimized false optimizationState;
                 Current.totalOrders := count ordersResult;
                 Current.orders := ordersData ordersResult;
                 Current.optimizedAt := optimizationState ≫= Db.optimizedAt;
                 Current.estimatedDuration :=
                   stringOrNull (optimizationState ≫= Db.estimatedDuration);
                 Current.estimatedDistance :=
                   stringOrNull (optimizationState ≫= Db.estimatedDistance);
                 Current.optimizationData := optimizationState ≫= Db.optimizationData |} |})
    (fun _ => throw (Error "Failed to get current route")).

Record Point := { mapLatitude : Q; mapLongitude : Q }.

Record MapBounds := { southwest : Point; northeast : Point }.

(** A nullable number as an operand of [Math.min], [Math.max] and [+]:
    [null] counts as 0. *)
Definition toNumber (x : option Q) : Q := default 0%Q x.

(** [Math.min] and [Math.max] on finite numbers. *)
Definition min (x y : Q) : Q := if Qle_bool x y then x else y.
Definition max (x y : Q) : Q := if Qle_bool x y then y else x.

(** Calculate map bounds for frontend map display.  The loop visits the
    first order as well, so the four variables hold numbers when it ends. *)
Definition calculateMapBounds (orders : list Order) : option MapBounds :=
  match omap coordinates orders with
  | [] => None
  | (first :: _) as validOrders =>
      let '(minLat, maxLat, minLng, maxLng) :=
        foldl
          (fun '(minLat, maxLat, minLng, maxLng) c =>
             (min minLat (toNumber (latitude c)), max maxLat (toNumber (latitude c)),
              min minLng (toNumber (longitude c)), max maxLng (toNumber (longitude c))))
          (toNumber (latitude first), toNumber (latitude first),
           toNumber (longitude first), toNumber (longitude first))
          validOrders in
      Some {| southwest := {| mapLatitude := minLat; mapLongitude := minLng |};
              northeast := {| mapLatitude := maxLat; mapLongitude := maxLng |} |}
  end.

Record StatsResponse := { statsSuccess : bool; statsData : Geocoder.GeocacheStats }.

(** Get geocache statistics. *)
Definition getGeocacheStats : M StatsResponse :=
  tryCatch
    (stats <- Geocoder.getGeocacheStats ;;
     ret {| statsSuccess := true; statsData := stats |})
    (fun error =>
       throw (Error ("Failed to get geocache statistics: " +:+ errorMessage error))).

Record ClearedGeocache := {
  clearedSuccess : bool;
  clearedMessage : string;
  clearedMessageAr : string;
  deletedCount : Z
}.

(** Clear geocache: [prisma.addressGeoCache.deleteMany({})]. *)
Definition clearGeocache : M ClearedGeocache :=
  tryCatch
    (w <- getWorld ;;
     setAddressGeoCache ∅ ;;;
     ret {| clearedSuccess := true;
            clearedMessage := "Geocache cleared successfully";
            clearedMessageAr := "تم مسح ذاكرة التخزين المؤقت بنجاح";
            deletedCount := Geocoder.countWhere (fun _ => true) (addressGeoCache w) |})
    (fun _ => throw (Error "Failed to clear geocache")).

End RouteService.

(* ===================================================================== *)
(** * Vocabulary of the statements *)
(* ===================================================================== *)

(** A computation that returns in every world: it raises nothing. *)
Definition returns {A} (m : M A) : Prop :=
  forall w, exists a w', m w = (Returned a, w').

(** [n] successive calls of [clearRouteOptimization] for one driver. *)
Fixpoint clearTimes (n : nat) (driver : string) : M (list RouteService.Response.t) :=
  match n with
  | O => ret []
  | S n' =>
      r <- RouteService.clearRouteOptimization driver ;;
      rs <- clearTimes n' driver ;;
      ret (r :: rs)
  end.

(** The rank order of the priority sort: higher rank first, older first
    within a rank. *)
Definition before (a b : Order) : Prop :=
  priorityValues (priority b) < priorityValues (priority a)
  \/ (priorityValues (priority a) = priorityValues (priority b)
      /\ createdAt a <= createdAt b).

(** The orders of a sequence, in sequence. *)
Definition ordersOf (sequence : list SequencedOrder) : list Order := map order sequence.

(** The provider calls among the events of a trace. *)
Definition isFetch (e : Event) : bool :=
  match e with
  | GeocodeFetch _ | DistanceMatrixFetch _ _ => true
  | Ran _ => false
  end.

(** A result reports a zero travel distance when its distance text is
    that of zero kilometres, nominal or computed. *)
Definition reportsZeroDistance (result : Result.t) : Prop :=
  Result.estimatedDistance result = "0 km"%string
  \/ Result.estimatedDistance result = "0.00 km"%string.

(** The routine the size of the problem selects. *)
Definition bySize (orders : list Order) (options : Options.t) : M Result.t :=
  let orderCount := Z.of_nat (length orders) in
  if orderCount <=? 3 then RouteOptimizer.priorityBasedOptimization orders options
  else if orderCount <=? 10 then RouteOptimizer.nearestNeighborOptimization orders options
  else RouteOptimizer.geneticAlgorithmOptimization orders options.

(** [best] is the choice of the candidate loop over the candidates [seen]:
    nothing when none of them has distance data from [current], otherwise
    one with distance data whose score no other undercuts. *)
Definition bestAmong (priorityWeight distanceWeight : Q) (distances : list DistanceEdge)
    (current : Order) (seen : list Order) (best : option (Order * Q)) : Prop :=
  match best with
  | Some (next, s) =>
      next ∈ seen
      /\ exists e,
          RouteOptimizer.findEdge distances (id current) (id next) = Some e
          /\ s = RouteOptimizer.score priorityWeight distanceWeight e next
          /\ forall c e',
               c ∈ seen ->
               RouteOptimizer.findEdge distances (id current) (id c) = Some e' ->
               (s <= RouteOptimizer.score priorityWeight distanceWeight e' c)%Q
  | None =>
      forall c, c ∈ seen -> RouteOptimizer.findEdge distances (id current) (id c) = None
  end.

(** The rule of one step of the weighted nearest neighbour: [next] is
    taken from [remaining]; it has distance data from [current] and the
    least score among the candidates that have, or no candidate has
    distance data and [next] has the highest priority. *)
Definition stepRule (priorityWeight distanceWeight : Q) (distances : list DistanceEdge)
    (current : Order) (remaining : list Order) (next : Order) : Prop :=
  next ∈ remaining
  /\ ((exists e,
         RouteOptimizer.findEdge distances (id current) (id next) = Some e
         /\ forall c e',
              c ∈ remaining ->
              RouteOptimizer.findEdge distances (id current) (id c) = Some e' ->
              (RouteOptimizer.score priorityWeight distanceWeight e next
               <= RouteOptimizer.score priorityWeight distanceWeight e' c)%Q)
      \/ ((forall c, c ∈ remaining ->
                     RouteOptimizer.findEdge distances (id current) (id c) = None)
          /\ forall c, c ∈ remaining ->
                       priorityValues (priority c) <= priorityValues (priority next))).

(** A route every step of which follows the rule. *)
Fixpoint greedy (priorityWeight distanceWeight : Q) (distances : list DistanceEdge)
    (current : Order) (route : list Order) : Prop :=
  match route with
  | [] => True
  | next :: rest =>
      stepRule priorityWeight distanceWeight distances current route next
      /\ greedy priorityWeight distanceWeight distances next rest
  end.

(** The world a computation leaves. *)
Definition after {A} (m : M A) (w : World) : World := snd (m w).

(** The traffic-aware seconds of the edge from [a] to [b]; zero without
    an edge. *)
Definition edgeSeconds (distances : list DistanceEdge) (a b : Order) : Z :=
  match RouteOptimizer.findEdge distances (id a) (id b) with
  | Some e => durationInTrafficSeconds e
  | None => 0
  end.

(** The consecutive pairs of a route. *)
Definition consecutive (route : list Order) : list (Order * Order) :=
  zip route (tail route).

Definition sumZ (l : list Z) : Z := foldr Z.add 0 l.


(** The value a computation returns in a world, if it returns. *)
Definition outcome {A} (m : M A) (w : World) : option A :=
  match m w with
  | (Returned a, _) => Some a
  | (Thrown _, _) => None
  end.

(** The picked-up orders of a driver, as [getDriverPickedUpOrders] lists
    them. *)
Definition pickedUpOrders (driver : string) (w : World) : list Order :=
  Js.sort RouteService.orderBy (List.filter (RouteService.pickedUpBy driver) (orderTable w)).

(** A request that does not force a recalculation. *)
Definition unforced (options : RouteService.Request.t) : Prop :=
  default false (RouteService.Request.forceRecalculate options) = false.

(** The traffic-aware seconds along the sequence of a result, over the
    distance data the result was formatted with. *)
Definition sequenceSeconds (result : Result.t) : Z :=
  RouteOptimizer.calculateRouteDistance (ordersOf (Result.optimizedSequence result))
    match Metadata.distanceData (Result.metadata result) with
    | Some data => distances data
    | None => []
    end.

(** The two answers of [clearRouteOptimization]. *)
Definition cleared : RouteService.Response.t :=
  {| RouteService.Response.success := true;
     RouteService.Response.message := "Route optimization cleared";
     RouteService.Response.messageAr := "تم مسح تحسين المسار";
     RouteService.Response.data := None |}.

Definition nothingToClear : RouteService.Response.t :=
  {| RouteService.Response.success := true;
     RouteService.Response.message := "No route optimization to clear";
     RouteService.Response.messageAr := "لا يوجد تحسين مسار لمسحه";
     RouteService.Response.data := None |}.

(** An order without the [coordinates] that geocoding adds. *)
Definition forget (o : Order) : Order := RouteOptimizer.withCoordinates o None.

(** [o'] is [o] as [geocodeOrders] returns it: the same order, its
    coordinates kept if it had any, valid ones or none otherwise. *)
Definition geocodedFrom (o o' : Order) : Prop :=
  forget o' = forget o
  /\ (is_Some (coordinates o) -> o' = o)
  /\ (coordinates o = None -> forall c, coordinates o' = Some c -> isValid c = true).

(** [best] is the choice of the candidate loop of [simpleNearestNeighbor]
    over the candidates [seen]: nothing when none has distance data from
    [current], otherwise one with distance data that no other undercuts. *)
Definition nearestAmong (distances : list DistanceEdge) (current : Order)
    (seen : list Order) (best : option (Order * Z)) : Prop :=
  match best with
  | Some (next, shortest) =>
      next ∈ seen
      /\ exists e,
          RouteOptimizer.findEdge distances (id current) (id next) = Some e
          /\ shortest = durationInTrafficSeconds e
          /\ forall c e',
               c ∈ seen ->
               RouteOptimizer.findEdge distances (id current) (id c) = Some e' ->
               shortest <= durationInTrafficSeconds e'
  | None =>
      forall c, c ∈ seen -> RouteOptimizer.findEdge distances (id current) (id c) = None
  end.

(** The rule of one step of the simple nearest neighbour: [next] is taken
    from [remaining] and, if a remaining order has distance data from
    [current], has distance data that is no longer. *)
Definition nearestRule (distances : list DistanceEdge) (current : Order)
    (remaining : list Order) (next : Order) : Prop :=
  next ∈ remaining
  /\ forall c e',
       c ∈ remaining ->
       RouteOptimizer.findEdge distances (id current) (id c) = Some e' ->
       exists e,
         RouteOptimizer.findEdge distances (id current) (id next) = Some e
         /\ durationInTrafficSeconds e <= durationInTrafficSeconds e'.

(** A route every step of which follows the rule. *)
Fixpoint nearestFirst (distances : list DistanceEdge) (current : Order)
    (route : list Order) : Prop :=
  match route with
  | [] => True
  | next :: rest =>
      nearestRule distances current route next /\ nearestFirst distances next rest
  end.

(** A group holds the orders of its priority among [seen], in their
    order, and is not empty. *)
Definition groupOf (seen : list Order) (g : Priority * list Order) : Prop :=
  snd g = filter (fun o => priority o = fst g) seen /\ snd g <> [].

(** [a] may come before [b]: its priority rank is not lower. *)
Definition rankOrder (a b : Order) : Prop :=
  priorityValues (priority b) <= priorityValues (priority a).

(** [result] is a sequence of [orders]: every order once (coordinates
    apart), numbered in sequence, counted, and a success. *)
Definition sequences (orders : list Order) (result : Result.t) : Prop :=
  map forget (ordersOf (Result.optimizedSequence result)) ≡ₚ map forget orders
  /\ Result.optimizedSequence result
     = imap RouteOptimizer.sequenced (ordersOf (Result.optimizedSequence result))
  /\ Result.totalOrders result = Z.of_nat (length orders)
  /\ Result.success result = true.

(** [w'] is [w] with, possibly, more rows in the geocode cache and more
    events in the trace. *)
Definition extends (w w' : World) : Prop :=
  orderTable w' = orderTable w
  /\ routeOptimization w' = routeOptimization w
  /\ geocodingApi w' = geocodingApi w
  /\ distanceMatrixApi w' = distanceMatrixApi w
  /\ clock w' = clock w
  /\ addressGeoCache w ⊆ addressGeoCache w'
  /\ exists events, trace w' = trace w ++ events.

(** A computation that only adds cache rows and events. *)
Definition keeps {A} (m : M A) : Prop := forall w, extends w (after m w).

(** A call of [optimizeRoute] that is not answered from the saved state:
    it is forced, or the driver has no row marked optimised. *)
Definition recalculates (driver : string) (options : RouteService.Request.t) (w : World)
    : Prop :=
  default false (RouteService.Request.forceRecalculate options) = true
  \/ from_option Db.routeOptimized false (routeOptimization w !! driver) = false.

(** A row of the geocode cache as the geocoder writes it. *)
Definition consistentRow (key : string) (row : Db.GeoCacheRow) : Prop :=
  Db.addressHash row = key
  /\ key = Geocoder.createAddressHash (Db.originalAddress row)
  /\ Db.isGeocoded row = Db.isValid row
  /\ (Db.isValid row = true ->
      is_Some (Db.latitude row) /\ is_Some (Db.longitude row) /\ is_Some (Db.geocodedAt row))
  /\ (Db.isValid row = false ->
      Db.latitude row = None /\ Db.longitude row = None /\ Db.geocodedAt row = None).

Definition consistentCache (w : World) : Prop :=
  forall key row, addressGeoCache w !! key = Some row -> consistentRow key row.

(** A computation that leaves the world as it is. *)
Definition silent {A} (m : M A) : Prop := forall w, after m w = w.

(** [message || 'Unknown error'] *)
Definition messageOr (message : option string) : string :=
  match message with
  | Some EmptyString | None => "Unknown error"
  | Some m => m
  end.

(** An edge names two different delivery points by their positions,
    carries their order ids and addresses, and has a traffic-aware
    duration that is zero only when the plain duration is. *)
Definition edgeOf (points : list DeliveryPoint) (e : DistanceEdge) : Prop :=
  fromIndex e <> toIndex e
  /\ (exists from to,
        points !! fromIndex e = Some from
        /\ points !! toIndex e = Some to
        /\ (fromOrderId e, fromAddress e) = (orderId from, address from)
        /\ (toOrderId e, toAddress e) = (orderId to, address to))
  /\ (durationInTrafficSeconds e = 0 -> durationSeconds e = 0).

(** The sum of a measure of the edges between the consecutive orders of
    a route; a pair without an edge counts for nothing. *)
Definition along (measure : DistanceEdge -> Z) (distances : list DistanceEdge)
    (route : list Order) : Z :=
  sumZ (map (fun '(a, b) =>
               match RouteOptimizer.findEdge distances (id a) (id b) with
               | Some e => measure e
               | None => 0
               end)
          (consecutive route)).

(** A segment describes the edge between two consecutive stops and is
    numbered after the position of the first. *)
Definition segmentOf (first : nat) (stops : list RouteBuilder.RouteStop)
    (distances : list DistanceEdge) (s : RouteBuilder.Segment) : Prop :=
  exists k a b e,
    stops !! k = Some a
    /\ stops !! S k = Some b
    /\ RouteOptimizer.findEdge distances (id (RouteBuilder.stopOrder a))
         (id (RouteBuilder.stopOrder b)) = Some e
    /\ RouteBuilder.segmentNumber s = Z.of_nat (first + k) + 1
    /\ RouteBuilder.segmentFrom s = RouteBuilder.endpoint (RouteBuilder.stopOrder a)
    /\ RouteBuilder.segmentTo s = RouteBuilder.endpoint (RouteBuilder.stopOrder b)
    /\ (RouteBuilder.segmentDistance s, RouteBuilder.segmentDuration s,
        RouteBuilder.segmentDurationInTraffic s)
       = (distanceText e, durationText e, durationInTrafficText e).

(** The minutes [buildDetailedStops] counts from [previous] to [o]. *)
Definition travelMinutes (distances : list DistanceEdge)
    (previous o : RouteBuilder.RouteStop) : Z :=
  DistanceMatrix.ceilDiv60
    (edgeSeconds distances (RouteBuilder.stopOrder previous) (RouteBuilder.stopOrder o)).

(** [stop] is the element [s] of the sequence as [geocodeRouteOrders]
    returns it. *)
Definition stopFrom (s : SequencedOrder) (stop : RouteBuilder.RouteStop) : Prop :=
  sequenceNumber (RouteBuilder.sequenced stop) = sequenceNumber s
  /\ estimatedDeliveryTime (RouteBuilder.sequenced stop) = estimatedDeliveryTime s
  /\ forget (RouteBuilder.stopOrder stop) = forget (order s)
  /\ (RouteBuilder.geocoded stop = true <-> is_Some (coordinates (RouteBuilder.stopOrder stop)))
  /\ (forall c, coordinates (RouteBuilder.stopOrder stop) = Some c -> isValid c = true)
  /\ (RouteBuilder.geocoded stop = true -> RouteBuilder.geocodingError stop = None).

(** The step of the loop of [calculateMapBounds]. *)
Definition widen (box : Q * Q * Q * Q) (c : Coordinates) : Q * Q * Q * Q :=
  let '(minLat, maxLat, minLng, maxLng) := box in
  (RouteService.min minLat (RouteService.toNumber (latitude c)),
   RouteService.max maxLat (RouteService.toNumber (latitude c)),
   RouteService.min minLng (RouteService.toNumber (longitude c)),
   RouteService.max maxLng (RouteService.toNumber (longitude c))).

(** [box] bounds the numbers of the coordinates [seen] and its own
    starting values, and each of its four numbers is one of them. *)
Definition bounding (start : Q * Q * Q * Q) (seen : list Coordinates)
    (box : Q * Q * Q * Q) : Prop :=
  let '(minLat0, maxLat0, minLng0, maxLng0) := start in
  let '(minLat, maxLat, minLng, maxLng) := box in
  ((minLat <= minLat0)%Q /\ (maxLat0 <= maxLat)%Q
   /\ (minLng <= minLng0)%Q /\ (maxLng0 <= maxLng)%Q)
  /\ (forall c, c ∈ seen ->
                (minLat <= RouteService.toNumber (latitude c))%Q
                /\ (RouteService.toNumber (latitude c) <= maxLat)%Q
                /\ (minLng <= RouteService.toNumber (longitude c))%Q
                /\ (RouteService.toNumber (longitude c) <= maxLng)%Q)
  /\ (minLat = minLat0
      \/ exists c, c ∈ seen /\ minLat = RouteService.toNumber (latitude c))
  /\ (maxLat = maxLat0
      \/ exists c, c ∈ seen /\ maxLat = RouteService.toNumber (latitude c))
  /\ (minLng = minLng0
      \/ exists c, c ∈ seen /\ minLng = RouteService.toNumber (longitude c))
  /\ (maxLng = maxLng0
      \/ exists c, c ∈ seen /\ maxLng = RouteService.toNumber (longitude c)).

(** The code points a table of mappings changes. *)
Definition mapped (mappings : list (Z * Z * Z * Z)) : list Z :=
  flat_map
    (fun '(lo, hi, step, _) =>
       map (fun k => lo + step * Z.of_nat k) (seq 0 (Z.to_nat ((hi - lo) / step) + 1)))
    mappings.

(** A character that lower-casing leaves as it is, wherever it stands. *)
Definition isLower (c : Z) : bool :=
  negb (c =? 0x3A3) && negb (c =? 0x130) && (Js.simpleLower Js.lowerMappings c =? c).

(** What the proofs need of the lower case [c'] of a character: it is a
    character, in lower case, and no white space. *)
Definition lowerCheck (c : Z) : bool :=
  let c' := Js.simpleLower Js.lowerMappings c in
  Js.isScalar c' && isLower c' && negb (Js.isWhiteSpace c').

(** ** Scenarios

    Concrete orders, providers and worlds on which the statements are
    evaluated. *)

Definition pickedUp (name : string) (p : Priority) (created : Z) (street : string) : Order :=
  {| id := name; driverId := Some "driver-1"%string; status := PICKED_UP; priority := p;
     createdAt := created; deliveryAddress := street; vehicleMaxUnits := None;
     coordinates := None |}.

(** The three orders of the priority example. *)
Definition orderA : Order := pickedUp "A" LOW 1 "1 Nile Street, Zamalek, Cairo".
Definition orderB : Order := pickedUp "B" URGENT 2 "2 Tahrir Square, Downtown, Cairo".
Definition orderC : Order := pickedUp "C" NORMAL 3 "3 Road 9, Maadi, Cairo".

(** A world without providers: every request fails. *)
Definition offline (orders : list Order) : World :=
  {| orderTable := orders;
     routeOptimization := ∅;
     addressGeoCache := ∅;
     geocodingApi := fun _ => GeocodeUnreachable;
     distanceMatrixApi := fun _ _ => MatrixUnreachable "fetch failed";
     clock := 1750000000000;
     trace := [] |}.

(** Four stops of one driver, equal in priority, and a city whose
    providers resolve their addresses and answer the full matrix of travel
    times below (seconds in traffic, a tenth less without; ten metres a
    second). *)
Definition stop1 : Order := pickedUp "o1" NORMAL 1 "1 Nile Street, Zamalek, Cairo".
Definition stop2 : Order := pickedUp "o2" NORMAL 2 "2 Tahrir Square, Downtown, Cairo".
Definition stop3 : Order := pickedUp "o3" NORMAL 3 "3 Road 9, Maadi, Cairo".
Definition stop4 : Order := pickedUp "o4" NORMAL 4 "4 Abbas El Akkad, Nasr City, Cairo".

Definition fourStops : list Order := [stop1; stop2; stop3; stop4].

Definition travelSeconds : list (list Z) :=
  [ [0; 900; 300; 1200];
    [900; 0; 600; 300];
    [300; 600; 0; 2400];
    [1200; 300; 2400; 0] ].

Definition cityElement (seconds : Z) : MatrixElement :=
  ElementOk {| text := Js.numberToString (seconds / 100) +:+ " km"; value := seconds * 10 |}
    {| text := Js.numberToString (seconds * 9 / 600) +:+ " mins"; value := seconds * 9 / 10 |}
    (Some {| text := Js.numberToString (seconds / 60) +:+ " mins"; value := seconds |}).

Definition cityGeocoder (address : string) : GeocodeReply :=
  match Js.find (fun o => bool_decide (deliveryAddress o = address)) fourStops with
  | Some o =>
      GeocodeResponse "OK"
        [ {| lat := inject_Z (createdAt o) / 100 + 30;
             lng := 31;
             formatted_address := address |} ]
  | None => GeocodeResponse "ZERO_RESULTS" []
  end.

Definition city : World :=
  {| orderTable := fourStops;
     routeOptimization := ∅;
     addressGeoCache := ∅;
     geocodingApi := cityGeocoder;
     distanceMatrixApi :=
       fun _ _ => MatrixResponse "OK" None (map (map cityElement) travelSeconds);
     clock := 1750000000000;
     trace := [] |}.


(** The genetic routine in the city, step by step: the world entered, the
    orders geocoded, the distance data. *)
Definition cityEntered : World := after (emit (Ran "geneticAlgorithmOptimization")) city.

Definition cityGeocoded : list Order :=
  match RouteOptimizer.geocodeOrders fourStops cityEntered with
  | (Returned geocoded, _) => geocoded
  | (Thrown _, _) => []
  end.

Definition cityAfterGeocoding : World :=
  after (RouteOptimizer.geocodeOrders fourStops) cityEntered.

Definition noDistanceData : DistanceData :=
  {| distances := []; matrix := None; totalPoints := 0; successfulCalculations := None;
     calculatedAt := None; distanceMessage := None |}.

Definition cityDistanceData : DistanceData :=
  match
    DistanceMatrix.calculateDeliveryDistances (RouteOptimizer.deliveryPointsOf cityGeocoded)
      cityAfterGeocoding
  with
  | (Returned data, _) => data
  | (Thrown _, _) => noDistanceData
  end.


(** A world whose geocoding provider knows no address. *)
Definition nowhere : World :=
  {| orderTable := [];
     routeOptimization := ∅;
     addressGeoCache := ∅;
     geocodingApi := fun _ => GeocodeResponse "ZERO_RESULTS" [];
     distanceMatrixApi := fun _ _ => MatrixUnreachable "fetch failed";
     clock := 1750000000000;
     trace := [] |}.

(** The address of [stop1], as stored and as a customer might type it. *)
Definition nileStreet : string := "1 Nile Street, Zamalek, Cairo".



(** A driver whose route was optimised and whose orders are delivered. *)
Definition savedRow : Db.RouteOptimizationRow :=
  {| Db.driverId := "driver-1";
     Db.routeOptimized := true;
     Db.optimizedAt := Some 1749990000000;
     Db.estimatedDuration := Some "45 minutes"%string;
     Db.estimatedDistance := Some "15 km"%string;
     Db.optimizationData := None |}.

Definition delivered (o : Order) : Order :=
  {| id := id o; driverId := driverId o; status := DELIVERED; priority := priority o;
     createdAt := createdAt o; deliveryAddress := deliveryAddress o;
     vehicleMaxUnits := vehicleMaxUnits o; coordinates := coordinates o |}.

Definition idle : World :=
  {| orderTable := map delivered [orderA; orderB; orderC];
     routeOptimization := {[ "driver-1"%string := savedRow ]};
     addressGeoCache := ∅;
     geocodingApi := cityGeocoder;
     distanceMatrixApi := fun _ _ => MatrixUnreachable "fetch failed";
     clock := 1750000000000;
     trace := [] |}.

(** The same driver with the three orders still on board. *)
Definition busy : World :=
  {| orderTable := [orderA; orderB; orderC];
     routeOptimization := {[ "driver-1"%string := savedRow ]};
     addressGeoCache := ∅;
     geocodingApi := cityGeocoder;
     distanceMatrixApi := fun _ _ => MatrixUnreachable "fetch failed";
     clock := 1750000000000;
     trace := [] |}.

Definition defaults : RouteService.Request.t :=
  {| RouteService.Request.forceRecalculate := None;
     RouteService.Request.includeTraffic := None;
     RouteService.Request.algorithm := None;
     RouteService.Request.useGoogleMaps := None |}.

Definition trafficAware : Options.t :=
  {| Options.algorithm := None; Options.includeTraffic := Some true;
     Options.vehicleCapacity := None; Options.priorityWeight := None;
     Options.distanceWeight := None; Options.useCoordinates := None |}.

Definition capitals : Options.t :=
  {| Options.algorithm := Some "HYBRID"%string; Options.includeTraffic := None;
     Options.vehicleCapacity := None; Options.priorityWeight := None;
     Options.distanceWeight := None; Options.useCoordinates := None |}.

Definition withoutMaps : RouteService.Request.t :=
  {| RouteService.Request.forceRecalculate := Some true;
     RouteService.Request.includeTraffic := None;
     RouteService.Request.algorithm := None;
     RouteService.Request.useGoogleMaps := Some false |}.


Definition tahrir : DeliveryPoint :=
  {| orderId := "o2"; pointLatitude := (300444 # 10000)%Q; pointLongitude := (312357 # 10000)%Q;
     address := "2 Tahrir Square, Downtown, Cairo" |}.

Definition zamalek : DeliveryPoint :=
  {| orderId := "o1"; pointLatitude := (300626 # 10000)%Q; pointLongitude := (312497 # 10000)%Q;
     address := "1 Nile Street, Zamalek, Cairo" |}.

(* ===================================================================== *)
(** * Properties of the primitives *)
(* ===================================================================== *)

Section Returns.
Context {A B : Type}.

Lemma returns_ret (a : A) : returns (ret a).
Proof. intros w. by exists a, w. Qed.

Lemma returns_bind (m : M A) (k : A -> M B) :
  returns m -> (forall a, returns (k a)) -> returns (bind m k).
Proof.
  intros Hm Hk w. destruct (Hm w) as (a & w1 & E).
  destruct (Hk a w1) as (b & w2 & E2).
  exists b, w2. unfold bind. by rewrite E.
Qed.

Lemma returns_tryCatch (m : M A) (handler : JsError -> M A) :
  (forall e, returns (handler e)) -> returns (tryCatch m handler).
Proof.
  intros Hh w. unfold tryCatch.
  destruct (m w) as [[a | e] w1]; [by exists a, w1 | apply Hh].
Qed.

(** A block that raises nothing never reaches its handler. *)
Lemma tryCatch_returns (m : M A) (handler : JsError -> M A) w :
  returns m -> tryCatch m handler w = m w.
Proof.
  intros Hm. unfold tryCatch. by destruct (Hm w) as (a & w1 & ->).
Qed.
End Returns.

(** A run that returns, as a pair. *)
Lemma run_eq {A} (m : M A) (w : World) (a : A) :
  fst (m w) = Returned a -> m w = (Returned a, after m w).
Proof. unfold after. destruct (m w) as [o w']. simpl. by intros ->. Qed.

Lemma returns_emit e : returns (emit e).
Proof. intros w. by eexists _, _. Qed.

Lemma returns_newDate : returns newDate.
Proof. intros w. by eexists _, _. Qed.

Lemma returns_getWorld : returns getWorld.
Proof. intros w. by eexists _, _. Qed.

Lemma returns_forEachM {A B} (f : A -> M B) l :
  (forall x, returns (f x)) -> returns (forEachM f l).
Proof.
  intros Hf. induction l as [|x l IH]; simpl; [apply returns_ret |].
  apply returns_bind; [apply Hf | intros y].
  apply returns_bind; [apply IH | intros ys; apply returns_ret].
Qed.

Ltac returns_step :=
  first
    [ apply returns_ret | apply returns_emit | apply returns_newDate
    | apply returns_getWorld
    | apply returns_bind; [| intros ?]
    | apply returns_tryCatch; intros ? ].

(** Case analysis on the integer comparisons of the goal. *)
Ltac case_leb :=
  repeat match goal with
         | |- context [?a <=? ?b] => destruct (Z.leb_spec a b)
         | |- context [?a <? ?b] => destruct (Z.ltb_spec a b)
         end.

(** Projections out of explicit worlds and coordinates. *)
Ltac world_projections :=
  cbn [orderTable routeOptimization addressGeoCache geocodingApi distanceMatrixApi
       clock trace latitude longitude formattedAddress isValid isGeocoded error].

(** ** The stable sort *)

Section Sort.
Context {A : Type} (cmp : A -> A -> Z).

Lemma sortInsert_perm x l : Js.sortInsert cmp x l ≡ₚ x :: l.
Proof.
  induction l as [|y l IH]; simpl; [done |].
  destruct (cmp x y <=? 0); [done |].
  by rewrite IH, Permutation_swap.
Qed.

Lemma sort_perm l : Js.sort cmp l ≡ₚ l.
Proof.
  induction l as [|x l IH]; simpl; [done |].
  by rewrite sortInsert_perm, IH.
Qed.

Lemma sort_nil_inv l : Js.sort cmp l = [] -> l = [].
Proof.
  intros E. apply Permutation_nil_r. by rewrite <- E, sort_perm.
Qed.

(** The comparator is a total preorder. *)
Hypothesis cmp_total : forall x y, cmp x y <= 0 \/ cmp y x <= 0.
Hypothesis cmp_trans : forall x y z, cmp x y <= 0 -> cmp y z <= 0 -> cmp x z <= 0.

Lemma sortInsert_sorted x l :
  StronglySorted (fun a b => cmp a b <= 0) l ->
  StronglySorted (fun a b => cmp a b <= 0) (Js.sortInsert cmp x l).
Proof.
  induction 1 as [|y l Hs IH Hy]; simpl; [repeat constructor |].
  destruct (Z.leb_spec (cmp x y) 0) as [Hle | Hgt].
  - constructor; [by constructor |].
    constructor; [done |].
    eapply Forall_impl; [exact Hy |]. intros z Hz. by eapply cmp_trans.
  - constructor; [done |].
    rewrite sortInsert_perm. constructor; [| done].
    destruct (cmp_total x y); [lia | done].
Qed.

Lemma sort_sorted l : StronglySorted (fun a b => cmp a b <= 0) (Js.sort cmp l).
Proof.
  induction l as [|x l IH]; simpl; [constructor | by apply sortInsert_sorted].
Qed.

(** Stability: a class of elements that the comparator does not tell
    apart keeps its order. *)
Lemma sortInsert_filter (P : A -> Prop) `{!forall x, Decision (P x)} x l :
  (forall y, P x -> P y -> cmp x y <= 0) ->
  filter P (Js.sortInsert cmp x l) = filter P (x :: l).
Proof.
  intros Hc. induction l as [|y l IH]; simpl; [done |].
  destruct (Z.leb_spec (cmp x y) 0) as [Hle | Hgt]; [done |].
  rewrite filter_cons, IH, !filter_cons.
  destruct (decide (P y)) as [Py |], (decide (P x)) as [Px |]; try done.
  pose proof (Hc y Px Py). lia.
Qed.

Lemma sort_filter (P : A -> Prop) `{!forall x, Decision (P x)} l :
  (forall x y, P x -> P y -> cmp x y <= 0) ->
  filter P (Js.sort cmp l) = filter P l.
Proof.
  intros Hc. induction l as [|x l IH]; simpl; [done |].
  rewrite sortInsert_filter by (intros; by apply Hc).
  by rewrite !filter_cons, IH.
Qed.

End Sort.

(* ===================================================================== *)
(** * Clearing the optimisation state *)
(* ===================================================================== *)

Lemma clear_absent driver w :
  routeOptimization w !! driver = None ->
  RouteService.clearRouteOptimization driver w = (Returned nothingToClear, w).
Proof.
  intros E.
  unfold RouteService.clearRouteOptimization, RouteService.deleteRouteOptimization,
    tryCatch, bind, getWorld.
  by rewrite E.
Qed.

Lemma clear_present driver w row :
  routeOptimization w !! driver = Some row ->
  exists w',
    RouteService.clearRouteOptimization driver w = (Returned cleared, w')
    /\ routeOptimization w' = delete driver (routeOptimization w)
    /\ trace w' = trace w.
Proof.
  intros E.
  unfold RouteService.clearRouteOptimization, RouteService.deleteRouteOptimization,
    tryCatch, bind, getWorld.
  rewrite E. simpl. by eexists.
Qed.

Lemma clearTimes_absent n driver w :
  routeOptimization w !! driver = None ->
  clearTimes n driver w = (Returned (replicate n nothingToClear), w).
Proof.
  intros E. induction n as [|n IH]; simpl; [done |].
  unfold bind. rewrite (clear_absent _ _ E).
  fold (@bind (list RouteService.Response.t)). unfold bind. by rewrite IH.
Qed.

(** C10.  Clearing the optimisation state of a driver always succeeds.  A
    driver without a row gets the answer [nothingToClear], whose message
    differs from that of [cleared], and no exception; after one call or
    more the driver has no row, and every call of the series reports
    success. *)
Theorem clear_is_idempotent (driver : string) (w : World) (n : nat) :
  exists first w',
    clearTimes (S n) driver w = (Returned (first :: replicate n nothingToClear), w')
    /\ first = match routeOptimization w !! driver with
               | Some _ => cleared
               | None => nothingToClear
               end
    /\ Forall (fun r => RouteService.Response.success r = true)
         (first :: replicate n nothingToClear)
    /\ RouteService.Response.message nothingToClear
       <> RouteService.Response.message cleared
    /\ routeOptimization w' !! driver = None.
Proof.
  destruct (routeOptimization w !! driver) as [row |] eqn:E.
  - destruct (clear_present _ _ _ E) as (w1 & Hc & Ht & _).
    assert (E1 : routeOptimization w1 !! driver = None)
      by (rewrite Ht; apply lookup_delete_eq).
    exists cleared, w1. split_and!; try done.
    + simpl. unfold bind at 1. rewrite Hc.
      unfold bind. by rewrite (clearTimes_absent n _ _ E1).
    + constructor; [done |]. by apply Forall_replicate.
  - exists nothingToClear, w. split_and!; try done.
    + by rewrite (clearTimes_absent (S n) _ _ E).
    + constructor; [done |]. by apply Forall_replicate.
Qed.

(* ===================================================================== *)
(** * Priority-only optimisation *)
(* ===================================================================== *)

Lemma StronglySorted_impl {A} (R R' : A -> A -> Prop) l :
  (forall x y, R x y -> R' x y) -> StronglySorted R l -> StronglySorted R' l.
Proof.
  intros HR. induction 1 as [|x l Hs IH Hx]; constructor; [done |].
  eapply Forall_impl; [exact Hx | auto].
Qed.

Lemma byPriorityThenAge_before a b :
  RouteOptimizer.byPriorityThenAge a b <= 0 <-> before a b.
Proof.
  unfold RouteOptimizer.byPriorityThenAge, before.
  destruct (decide _); lia.
Qed.

Lemma byPriorityThenAge_total a b :
  RouteOptimizer.byPriorityThenAge a b <= 0 \/ RouteOptimizer.byPriorityThenAge b a <= 0.
Proof. rewrite !byPriorityThenAge_before. unfold before. lia. Qed.

Lemma byPriorityThenAge_trans a b c :
  RouteOptimizer.byPriorityThenAge a b <= 0 ->
  RouteOptimizer.byPriorityThenAge b c <= 0 ->
  RouteOptimizer.byPriorityThenAge a c <= 0.
Proof. rewrite !byPriorityThenAge_before. unfold before. lia. Qed.

Lemma map_order_imap (f : nat -> Order -> SequencedOrder) (l : list Order) :
  (forall i o, order (f i o) = o) -> map order (imap f l) = l.
Proof.
  revert f. induction l as [|o l IH]; intros f Hf; simpl; [done |].
  rewrite Hf. f_equal. apply IH. intros i o'. apply Hf.
Qed.

Lemma ordersOf_sequenced l : ordersOf (imap RouteOptimizer.sequenced l) = l.
Proof. by apply map_order_imap. Qed.

(** What [formatOptimizationResult] returns without distance data. *)
Lemma format_nominal optimizedOrders metadata w :
  Metadata.distanceData metadata = None ->
  exists result,
    RouteOptimizer.formatOptimizationResult optimizedOrders metadata w = (Returned result, w)
    /\ Result.optimizedSequence result = imap RouteOptimizer.sequenced optimizedOrders
    /\ Result.estimatedDistance result
       = Js.numberToString (Z.of_nat (length optimizedOrders) * 5) +:+ " km"
    /\ Result.estimatedDuration result
       = Js.numberToString (Z.of_nat (length optimizedOrders) * 15) +:+ " minutes"
    /\ Result.algorithm result
       = RouteOptimizer.algorithmOr "UNKNOWN" (Metadata.algorithm metadata)
    /\ Result.realDistanceCalculated result = None
    /\ Result.totalOrders result = Z.of_nat (length optimizedOrders).
Proof.
  intros E. unfold RouteOptimizer.formatOptimizationResult, bind, newDate.
  rewrite E. by eexists.
Qed.

Lemma returns_format optimizedOrders metadata :
  returns (RouteOptimizer.formatOptimizationResult optimizedOrders metadata).
Proof.
  intros w. unfold RouteOptimizer.formatOptimizationResult, bind, newDate.
  destruct (Metadata.distanceData metadata); by eexists _, _.
Qed.

(** The sequence of the priority sort, whatever the function around it. *)
Lemma priority_sort_spec orders :
  let out := Js.sort RouteOptimizer.byPriorityThenAge orders in
  out ≡ₚ orders
  /\ StronglySorted before out
  /\ (forall p t,
        filter (fun o => priority o = p /\ createdAt o = t) out
        = filter (fun o => priority o = p /\ createdAt o = t) orders).
Proof.
  split_and!.
  - apply sort_perm.
  - eapply StronglySorted_impl; [| apply sort_sorted].
    + intros x y. apply byPriorityThenAge_before.
    + apply byPriorityThenAge_total.
    + apply byPriorityThenAge_trans.
  - intros p t. apply sort_filter.
    intros x y [Hx1 Hx2] [Hy1 Hy2]. apply byPriorityThenAge_before.
    right. rewrite Hx1, Hy1, Hx2, Hy2. lia.
Qed.

(** C3.  Without the traffic and coordinates options,
    [priorityBasedOptimization] returns, for every list of orders, the
    orders sorted by priority rank descending (URGENT 4, HIGH 3, NORMAL 2,
    LOW 1), older first within a rank, orders equal in both keeping their
    input order; the basic algorithm of the service computes the same
    sequence; and a LOW order of time 1, an URGENT one of time 2 and a
    NORMAL one of time 3 come out as URGENT, NORMAL, LOW. *)
Theorem priority_only_sorts (orders : list Order) (options : Options.t) (w : World) :
  Options.truthy (Options.includeTraffic options) = false ->
  Options.truthy (Options.useCoordinates options) = false ->
  exists result w',
    RouteOptimizer.priorityBasedOptimization orders options w = (Returned result, w')
    /\ (priorityValues URGENT, priorityValues HIGH, priorityValues NORMAL, priorityValues LOW)
       = (4, 3, 2, 1)
    /\ ordersOf (Result.optimizedSequence result) ≡ₚ orders
    /\ StronglySorted before (ordersOf (Result.optimizedSequence result))
    /\ (forall p t,
          filter (fun o => priority o = p /\ createdAt o = t)
            (ordersOf (Result.optimizedSequence result))
          = filter (fun o => priority o = p /\ createdAt o = t) orders)
    /\ ordersOf (Result.optimizedSequence (RouteService.applyBasicOptimizationAlgorithm orders))
       = ordersOf (Result.optimizedSequence result)
    /\ (forall a b c,
          orders = [a; b; c] ->
          (priority a, createdAt a) = (LOW, 1) ->
          (priority b, createdAt b) = (URGENT, 2) ->
          (priority c, createdAt c) = (NORMAL, 3) ->
          ordersOf (Result.optimizedSequence result) = [b; c; a]).
Proof.
  intros Ht Hc.
  unfold RouteOptimizer.priorityBasedOptimization, bind, tryCatch, emit.
  rewrite Ht, Hc. cbn [orb].
  edestruct format_nominal as (result & -> & Hseq & _); [reflexivity |].
  exists result; eexists. split; [reflexivity |].
  rewrite Hseq, ordersOf_sequenced.
  destruct (priority_sort_spec orders) as (Hp & Hs & Hf).
  split_and!; try done.
  - simpl. by rewrite ordersOf_sequenced.
  - intros a b c -> [= Ha1 Ha2] [= Hb1 Hb2] [= Hc1 Hc2].
    assert (Hbc : RouteOptimizer.byPriorityThenAge b c = -2)
      by (unfold RouteOptimizer.byPriorityThenAge; rewrite Hb1, Hc1; reflexivity).
    assert (Hab : RouteOptimizer.byPriorityThenAge a b = 3)
      by (unfold RouteOptimizer.byPriorityThenAge; rewrite Ha1, Hb1; reflexivity).
    assert (Hac : RouteOptimizer.byPriorityThenAge a c = 1)
      by (unfold RouteOptimizer.byPriorityThenAge; rewrite Ha1, Hc1; reflexivity).
    simpl. rewrite Hbc. simpl. rewrite Hab. simpl. by rewrite Hac.
Qed.

(** The orders A, B, C of the example, in a world without providers. *)
Lemma priority_only_sorts_witness :
  Options.truthy (Options.includeTraffic Options.empty) = false
  /\ Options.truthy (Options.useCoordinates Options.empty) = false
  /\ exists result w',
       RouteOptimizer.priorityBasedOptimization [orderA; orderB; orderC] Options.empty
         (offline []) = (Returned result, w')
       /\ ordersOf (Result.optimizedSequence result) = [orderB; orderC; orderA].
Proof.
  split; [reflexivity |]. split; [reflexivity |].
  destruct (priority_only_sorts [orderA; orderB; orderC] Options.empty (offline [])
              eq_refl eq_refl)
    as (result & w' & E & _ & _ & _ & _ & _ & Hex).
  exists result, w'. split; [exact E |].
  exact (Hex orderA orderB orderC eq_refl eq_refl eq_refl eq_refl).
Defined.

(* ===================================================================== *)
(** * A single order *)
(* ===================================================================== *)

(** The result for one order. *)
Lemma single_order_result (o : Order) (options : Options.t) (w : World) :
  exists result,
    RouteOptimizer.optimizeRoute [o] options w = (Returned result, w)
    /\ Result.optimizedSequence result
       = [ {| order := o; sequenceNumber := 1; estimatedDeliveryTime := "15 minutes" |} ]
    /\ Result.totalOrders result = 1
    /\ Result.algorithm result = "SINGLE_ORDER"%string
    /\ Result.estimatedDistance result = "5 km"%string
    /\ Result.estimatedDuration result = "15 minutes"%string
    /\ Result.realDistanceCalculated result = None.
Proof.
  unfold RouteOptimizer.optimizeRoute, tryCatch, RouteOptimizer.createSingleOrderRoute.
  edestruct format_nominal as (result & -> & Hseq & Hd & Ht & Ha & Hr & Hn);
    [reflexivity |].
  exists result. rewrite Hseq, Hd, Ht, Ha, Hr, Hn. by split_and!.
Qed.

(** C8, as amended.  For one order [optimizeRoute] returns, without a
    provider call, a one-stop sequence whose stop has sequence number 1.
    The sequence has no edge, so its traversal cost is zero for every
    distance list; the result itself reports the nominal figures of one
    order, "5 km" and "15 minutes". *)
Theorem single_order_route (o : Order) (options : Options.t) (w : World) :
  exists result,
    RouteOptimizer.optimizeRoute [o] options w = (Returned result, w)
    /\ Result.optimizedSequence result
       = [ {| order := o; sequenceNumber := 1; estimatedDeliveryTime := "15 minutes" |} ]
    /\ Result.totalOrders result = 1
    /\ Result.algorithm result = "SINGLE_ORDER"%string
    /\ (forall distances,
          RouteOptimizer.calculateRouteDistance
            (ordersOf (Result.optimizedSequence result)) distances = 0)
    /\ Result.estimatedDistance result = "5 km"%string
    /\ Result.estimatedDuration result = "15 minutes"%string
    /\ Result.realDistanceCalculated result = None.
Proof.
  destruct (single_order_result o options w) as (result & E & Hseq & Hn & Ha & Hd & Ht & Hr).
  exists result. rewrite Hseq. by split_and!.
Qed.

(** C8 as stated fails: the result for the single order [orderA] reports
    "5 km", not a zero distance. *)
Lemma single_order_reports_five_km :
  ~ exists result w',
      RouteOptimizer.optimizeRoute [orderA] Options.empty (offline [orderA])
        = (Returned result, w')
      /\ (exists stop,
            Result.optimizedSequence result = [stop] /\ sequenceNumber stop = 1)
      /\ reportsZeroDistance result.
Proof.
  intros (result & w' & E & _ & Hz).
  destruct (single_order_result orderA Options.empty (offline [orderA]))
    as (result' & E' & _ & _ & _ & Hd & _).
  rewrite E' in E. injection E as <- _.
  unfold reportsZeroDistance in Hz. rewrite Hd in Hz.
  by destruct Hz.
Qed.

(* ===================================================================== *)
(** * The heuristics raise nothing *)
(* ===================================================================== *)

Lemma returns_geocodeOrders orders : returns (RouteOptimizer.geocodeOrders orders).
Proof.
  apply returns_forEachM. intros o.
  apply returns_tryCatch. intros e. apply returns_ret.
Qed.

Lemma returns_nearestNeighborForGroup orders options :
  returns (RouteOptimizer.nearestNeighborForGroup orders options).
Proof.
  unfold RouteOptimizer.nearestNeighborForGroup.
  destruct (length orders <=? 1)%nat; [apply returns_ret |].
  apply returns_tryCatch. intros e. apply returns_ret.
Qed.

(** The [try] block of [priorityWithDistanceOptimization] raises nothing:
    its [catch] clause is dead code. *)
Lemma priorityWithDistance_returns orders options :
  returns (RouteOptimizer.priorityWithDistanceOptimization orders options).
Proof.
  unfold RouteOptimizer.priorityWithDistanceOptimization.
  returns_step; [returns_step |].
  returns_step; [apply returns_geocodeOrders |].
  returns_step; [| apply returns_format].
  apply returns_forEachM. intros [p groupOrders].
  destruct (length groupOrders <=? 1)%nat;
    [apply returns_ret | apply returns_nearestNeighborForGroup].
Qed.

Lemma returns_body {A} (m : M A) (handler : JsError -> M A) :
  returns m -> returns (tryCatch m handler).
Proof. intros Hm w. rewrite tryCatch_returns by done. apply Hm. Qed.

Lemma priorityBased_returns orders options :
  returns (RouteOptimizer.priorityBasedOptimization orders options).
Proof.
  unfold RouteOptimizer.priorityBasedOptimization.
  returns_step; [returns_step |].
  apply returns_body.
  destruct (_ || _); [apply priorityWithDistance_returns | apply returns_format].
Qed.

Lemma nearestNeighbor_returns orders options :
  returns (RouteOptimizer.nearestNeighborOptimization orders options).
Proof.
  unfold RouteOptimizer.nearestNeighborOptimization.
  returns_step; [returns_step |].
  apply returns_tryCatch. intros e. apply priorityBased_returns.
Qed.

Lemma genetic_returns orders options :
  returns (RouteOptimizer.geneticAlgorithmOptimization orders options).
Proof.
  unfold RouteOptimizer.geneticAlgorithmOptimization.
  returns_step; [returns_step |].
  apply returns_tryCatch. intros e. apply nearestNeighbor_returns.
Qed.

(** The OR-Tools entry is the genetic routine. *)
Lemma orTools_is_genetic orders options w :
  RouteOptimizer.orToolsVrpOptimization orders options w
  = RouteOptimizer.geneticAlgorithmOptimization orders options w.
Proof. apply tryCatch_returns, genetic_returns. Qed.

Lemma bySize_returns orders options : returns (bySize orders options).
Proof.
  unfold bySize. repeat case_match;
    auto using priorityBased_returns, nearestNeighbor_returns, genetic_returns.
Qed.

Lemma hybrid_bySize orders options w :
  RouteOptimizer.hybridOptimization orders options w = bySize orders options w.
Proof. apply tryCatch_returns, bySize_returns. Qed.

Lemma dispatch_returns selected orders options :
  returns (RouteOptimizer.dispatch selected orders options).
Proof.
  unfold RouteOptimizer.dispatch. repeat case_decide;
    auto using priorityBased_returns, nearestNeighbor_returns, genetic_returns.
  - intros w. rewrite orTools_is_genetic. apply genetic_returns.
  - intros w. rewrite hybrid_bySize. apply bySize_returns.
Qed.

(** With two orders or more [optimizeRoute] is its [switch]. *)
Lemma optimizeRoute_dispatch orders options w :
  (2 <= length orders)%nat ->
  RouteOptimizer.optimizeRoute orders options w
  = RouteOptimizer.dispatch
      (RouteOptimizer.selectOptimalAlgorithm (Z.of_nat (length orders))
         (default RouteOptimizer.HYBRID (Options.algorithm options)))
      orders options w.
Proof.
  intros Hn. unfold RouteOptimizer.optimizeRoute.
  destruct orders as [|a [|b rest]]; simpl in Hn; [lia | lia |].
  apply tryCatch_returns, dispatch_returns.
Qed.

(** An algorithm name other than the four heuristics leaves the choice to
    the size of the problem. *)
Lemma dispatch_unforced requested orders options w :
  requested ∉ [RouteOptimizer.PRIORITY_BASED; RouteOptimizer.NEAREST_NEIGHBOR;
               RouteOptimizer.GENETIC_ALGORITHM; RouteOptimizer.OR_TOOLS_VRP] ->
  RouteOptimizer.dispatch
    (RouteOptimizer.selectOptimalAlgorithm (Z.of_nat (length orders)) requested)
    orders options w
  = bySize orders options w.
Proof.
  intros Hr. rewrite !not_elem_of_cons in Hr. destruct Hr as (H1 & H2 & H3 & H4 & _).
  unfold RouteOptimizer.selectOptimalAlgorithm, bySize.
  destruct (_ && _).
  - unfold RouteOptimizer.dispatch.
    rewrite !decide_False by done. apply hybrid_bySize.
  - destruct (Z.of_nat (length orders) <=? 3); [done |].
    destruct (Z.of_nat (length orders) <=? 10); [done |].
    destruct (Z.of_nat (length orders) <=? 25); [done |].
    apply orTools_is_genetic.
Qed.

(* ===================================================================== *)
(** * Algorithm selection *)
(* ===================================================================== *)

(** C2.  Without a forced algorithm the selector is a function of the
    order count alone: 2-3 orders give the priority heuristic, 4-10 the
    priority-weighted nearest neighbour, 11-25 the multi-start one (so 2,
    7 and 15 orders select these three); above 25 the selector names
    OR-Tools, whose routine is the multi-start one, so that every count
    from 11 on runs the same routine; and each of the four heuristic names
    requested by the caller is selected whatever the count. *)
Theorem algorithm_selection (n : Z) (requested : string) (orders : list Order)
    (options : Options.t) (w : World) :
  (2 <= n <= 3 ->
   RouteOptimizer.selectOptimalAlgorithm n RouteOptimizer.HYBRID
   = RouteOptimizer.PRIORITY_BASED)
  /\ (4 <= n <= 10 ->
      RouteOptimizer.selectOptimalAlgorithm n RouteOptimizer.HYBRID
      = RouteOptimizer.NEAREST_NEIGHBOR)
  /\ (11 <= n <= 25 ->
      RouteOptimizer.selectOptimalAlgorithm n RouteOptimizer.HYBRID
      = RouteOptimizer.GENETIC_ALGORITHM)
  /\ (25 < n ->
      RouteOptimizer.selectOptimalAlgorithm n RouteOptimizer.HYBRID
      = RouteOptimizer.OR_TOOLS_VRP)
  /\ (RouteOptimizer.selectOptimalAlgorithm 2 RouteOptimizer.HYBRID,
      RouteOptimizer.selectOptimalAlgorithm 7 RouteOptimizer.HYBRID,
      RouteOptimizer.selectOptimalAlgorithm 15 RouteOptimizer.HYBRID)
     = (RouteOptimizer.PRIORITY_BASED, RouteOptimizer.NEAREST_NEIGHBOR,
        RouteOptimizer.GENETIC_ALGORITHM)
  /\ RouteOptimizer.orToolsVrpOptimization orders options w
     = RouteOptimizer.geneticAlgorithmOptimization orders options w
  /\ (default RouteOptimizer.HYBRID (Options.algorithm options) = RouteOptimizer.HYBRID ->
      (2 <= length orders <= 3)%nat ->
      RouteOptimizer.optimizeRoute orders options w
      = RouteOptimizer.priorityBasedOptimization orders options w)
  /\ (default RouteOptimizer.HYBRID (Options.algorithm options) = RouteOptimizer.HYBRID ->
      (4 <= length orders <= 10)%nat ->
      RouteOptimizer.optimizeRoute orders options w
      = RouteOptimizer.nearestNeighborOptimization orders options w)
  /\ (default RouteOptimizer.HYBRID (Options.algorithm options) = RouteOptimizer.HYBRID ->
      (11 <= length orders)%nat ->
      RouteOptimizer.optimizeRoute orders options w
      = RouteOptimizer.geneticAlgorithmOptimization orders options w)
  /\ (requested ∈ [RouteOptimizer.PRIORITY_BASED; RouteOptimizer.NEAREST_NEIGHBOR;
                   RouteOptimizer.GENETIC_ALGORITHM; RouteOptimizer.OR_TOOLS_VRP] ->
      RouteOptimizer.selectOptimalAlgorithm n requested = requested)
  /\ (Options.algorithm options = Some requested ->
      requested ∈ [RouteOptimizer.PRIORITY_BASED; RouteOptimizer.NEAREST_NEIGHBOR;
                   RouteOptimizer.GENETIC_ALGORITHM; RouteOptimizer.OR_TOOLS_VRP] ->
      (2 <= length orders)%nat ->
      RouteOptimizer.optimizeRoute orders options w
      = RouteOptimizer.dispatch requested orders options w
      /\ RouteOptimizer.dispatch RouteOptimizer.PRIORITY_BASED orders options
         = RouteOptimizer.priorityBasedOptimization orders options
      /\ RouteOptimizer.dispatch RouteOptimizer.NEAREST_NEIGHBOR orders options
         = RouteOptimizer.nearestNeighborOptimization orders options
      /\ RouteOptimizer.dispatch RouteOptimizer.GENETIC_ALGORITHM orders options
         = RouteOptimizer.geneticAlgorithmOptimization orders options
      /\ RouteOptimizer.dispatch RouteOptimizer.OR_TOOLS_VRP orders options
         = RouteOptimizer.orToolsVrpOptimization orders options).
Proof.
  assert (Hsel : forall m,
            RouteOptimizer.selectOptimalAlgorithm m RouteOptimizer.HYBRID
            = if m <=? 3 then RouteOptimizer.PRIORITY_BASED
              else if m <=? 10 then RouteOptimizer.NEAREST_NEIGHBOR
              else if m <=? 25 then RouteOptimizer.GENETIC_ALGORITHM
              else RouteOptimizer.OR_TOOLS_VRP) by reflexivity.
  assert (Hunforced :
            default RouteOptimizer.HYBRID (Options.algorithm options) = RouteOptimizer.HYBRID ->
            (2 <= length orders)%nat ->
            RouteOptimizer.optimizeRoute orders options w = bySize orders options w).
  { intros Ha Hn. rewrite optimizeRoute_dispatch, Ha by done.
    apply dispatch_unforced. rewrite !not_elem_of_cons.
    split_and!; [discriminate .. | apply not_elem_of_nil]. }
  assert (Hforced :
            requested ∈ [RouteOptimizer.PRIORITY_BASED; RouteOptimizer.NEAREST_NEIGHBOR;
                         RouteOptimizer.GENETIC_ALGORITHM; RouteOptimizer.OR_TOOLS_VRP] ->
            RouteOptimizer.selectOptimalAlgorithm n requested = requested).
  { rewrite !elem_of_cons. intros [-> | [-> | [-> | [-> | H]]]]; try done.
    by apply elem_of_nil in H. }
  split_and!.
  - intros ?. rewrite Hsel. case_leb; (done || lia).
  - intros ?. rewrite Hsel. case_leb; (done || lia).
  - intros ?. rewrite Hsel. case_leb; (done || lia).
  - intros ?. rewrite Hsel. case_leb; (done || lia).
  - reflexivity.
  - apply orTools_is_genetic.
  - intros Ha Hn. rewrite Hunforced by (done || lia). unfold bySize.
    case_leb; (done || lia).
  - intros Ha Hn. rewrite Hunforced by (done || lia). unfold bySize.
    case_leb; (done || lia).
  - intros Ha Hn. rewrite Hunforced by (done || lia). unfold bySize.
    case_leb; (done || lia).
  - exact Hforced.
  - intros Ha Hr Hn. split_and!; try reflexivity.
    rewrite optimizeRoute_dispatch, Ha by done. simpl default.
    clear Hforced. revert Hr. rewrite !elem_of_cons.
    intros [-> | [-> | [-> | [-> | H]]]]; try done.
    by apply elem_of_nil in H.
Qed.

(** Two orders with the genetic heuristic requested: the multi-start
    routine runs, not the priority one. *)
Lemma algorithm_selection_witness :
  RouteOptimizer.selectOptimalAlgorithm 2 RouteOptimizer.HYBRID
  = RouteOptimizer.PRIORITY_BASED
  /\ RouteOptimizer.selectOptimalAlgorithm 2 RouteOptimizer.GENETIC_ALGORITHM
     = RouteOptimizer.GENETIC_ALGORITHM
  /\ RouteOptimizer.optimizeRoute [orderA; orderB]
       {| Options.algorithm := Some RouteOptimizer.GENETIC_ALGORITHM;
          Options.includeTraffic := None; Options.vehicleCapacity := None;
          Options.priorityWeight := None; Options.distanceWeight := None;
          Options.useCoordinates := None |} (offline [])
     = RouteOptimizer.geneticAlgorithmOptimization [orderA; orderB]
         {| Options.algorithm := Some RouteOptimizer.GENETIC_ALGORITHM;
            Options.includeTraffic := None; Options.vehicleCapacity := None;
            Options.priorityWeight := None; Options.distanceWeight := None;
            Options.useCoordinates := None |} (offline []).
Proof.
  pose proof (algorithm_selection 2 RouteOptimizer.GENETIC_ALGORITHM [orderA; orderB]
                {| Options.algorithm := Some RouteOptimizer.GENETIC_ALGORITHM;
                   Options.includeTraffic := None; Options.vehicleCapacity := None;
                   Options.priorityWeight := None; Options.distanceWeight := None;
                   Options.useCoordinates := None |} (offline []))
    as (H1 & _ & _ & _ & _ & _ & _ & _ & _ & H10 & H11).
  split; [apply H1; lia |].
  split; [apply H10; rewrite !elem_of_cons; auto |].
  destruct H11 as (E & _ & _ & Eg & _).
  - reflexivity.
  - rewrite !elem_of_cons; auto.
  - simpl. lia.
  - rewrite E. by rewrite Eg.
Defined.

(* ===================================================================== *)
(** * The priority-weighted nearest neighbour *)
(* ===================================================================== *)

Section Splice.
Context {A : Type} `{EqDecision A}.

Lemma indexOf_lookup (x : A) l :
  x ∈ l -> exists i, Js.indexOf x l = Some i /\ l !! i = Some x.
Proof.
  induction l as [|y l IH]; intros Hx; [by apply elem_of_nil in Hx |].
  simpl. destruct (decide (y = x)) as [-> | Hne]; [by exists 0%nat |].
  apply elem_of_cons in Hx as [-> | Hx]; [done |].
  destruct (IH Hx) as (i & -> & Hi). by exists (S i).
Qed.

Lemma spliceIndexOf_perm (x : A) l : x ∈ l -> l ≡ₚ x :: Js.spliceIndexOf x l.
Proof.
  intros Hx. destruct (indexOf_lookup x l Hx) as (i & Hi & Hl).
  unfold Js.spliceIndexOf. rewrite Hi. by apply delete_Permutation.
Qed.

Lemma spliceIndexOf_head (x : A) l : Js.spliceIndexOf x (x :: l) = l.
Proof. unfold Js.spliceIndexOf. simpl. by rewrite decide_True. Qed.
End Splice.

Lemma ltb_false_le x y : Js.ltb x y = false -> (y <= x)%Q.
Proof.
  unfold Js.ltb. intros H. apply Qle_bool_iff.
  by destruct (Qle_bool y x).
Qed.

Lemma ltb_true_le x y : Js.ltb x y = true -> (x <= y)%Q.
Proof.
  unfold Js.ltb. intros H. apply Qlt_le_weak, Qnot_le_lt.
  rewrite <- Qle_bool_iff. by destruct (Qle_bool y x).
Qed.

Lemma better_bestAmong pw dw distances current seen best candidate :
  bestAmong pw dw distances current seen best ->
  bestAmong pw dw distances current (seen ++ [candidate])
    (RouteOptimizer.better pw dw distances current best candidate).
Proof.
  unfold RouteOptimizer.better, bestAmong.
  destruct (RouteOptimizer.findEdge distances (id current) (id candidate))
    as [info |] eqn:Einfo.
  - destruct best as [[next s] |].
    + intros (Hin & e & He & Hs & Hmin).
      destruct (Js.ltb _ s) eqn:Hlt.
      * split; [set_solver |]. exists info. split_and!; try done.
        intros c e' Hc Hc'. apply elem_of_app in Hc as [Hc | Hc].
        -- eapply Qle_trans; [by apply ltb_true_le | by eapply Hmin].
        -- apply list_elem_of_singleton in Hc as ->.
           rewrite Einfo in Hc'. injection Hc' as <-. apply Qle_refl.
      * split; [set_solver |]. exists e. split_and!; try done.
        intros c e' Hc Hc'. apply elem_of_app in Hc as [Hc | Hc].
        -- by eapply Hmin.
        -- apply list_elem_of_singleton in Hc as ->.
           rewrite Einfo in Hc'. injection Hc' as <-. by apply ltb_false_le.
    + intros Hnone. split; [set_solver |]. exists info. split_and!; try done.
      intros c e' Hc Hc'. apply elem_of_app in Hc as [Hc | Hc].
      * by rewrite (Hnone c Hc) in Hc'.
      * apply list_elem_of_singleton in Hc as ->.
        rewrite Einfo in Hc'. injection Hc' as <-. apply Qle_refl.
  - destruct best as [[next s] |].
    + intros (Hin & e & He & Hs & Hmin).
      split; [set_solver |]. exists e. split_and!; try done.
      intros c e' Hc Hc'. apply elem_of_app in Hc as [Hc | Hc].
      * by eapply Hmin.
      * apply list_elem_of_singleton in Hc as ->. by rewrite Einfo in Hc'.
    + intros Hnone c Hc. apply elem_of_app in Hc as [Hc | Hc]; [by apply Hnone |].
      by apply list_elem_of_singleton in Hc as ->.
Qed.

Lemma foldl_better_bestAmong pw dw distances current candidates seen best :
  bestAmong pw dw distances current seen best ->
  bestAmong pw dw distances current (seen ++ candidates)
    (foldl (RouteOptimizer.better pw dw distances current) best candidates).
Proof.
  revert seen best. induction candidates as [|c l IH]; intros seen best H; simpl.
  - by rewrite app_nil_r.
  - rewrite (assoc_L (++) seen [c] l : seen ++ c :: l = (seen ++ [c]) ++ l).
    by apply IH, better_bestAmong.
Qed.

(** The candidate loop picks a candidate of least score among those with
    distance data, and nothing only when none has. *)
Lemma bestNext_spec pw dw distances current unvisited :
  bestAmong pw dw distances current unvisited
    (RouteOptimizer.bestNext pw dw distances current unvisited).
Proof.
  apply (foldl_better_bestAmong pw dw distances current unvisited [] None).
  intros c Hc. by apply elem_of_nil in Hc.
Qed.

Lemma byPriority_le a b :
  RouteOptimizer.byPriority a b <= 0
  <-> priorityValues (priority b) <= priorityValues (priority a).
Proof. unfold RouteOptimizer.byPriority. lia. Qed.

Lemma byPriority_total a b :
  RouteOptimizer.byPriority a b <= 0 \/ RouteOptimizer.byPriority b a <= 0.
Proof. rewrite !byPriority_le. lia. Qed.

Lemma byPriority_trans a b c :
  RouteOptimizer.byPriority a b <= 0 -> RouteOptimizer.byPriority b c <= 0 ->
  RouteOptimizer.byPriority a c <= 0.
Proof. rewrite !byPriority_le. lia. Qed.

(** The head of an array sorted by priority has the highest priority. *)
Lemma sorted_head_highest orders first rest :
  Js.sort RouteOptimizer.byPriority orders = first :: rest ->
  forall o, o ∈ orders -> priorityValues (priority o) <= priorityValues (priority first).
Proof.
  intros Es o Ho.
  pose proof (sort_sorted RouteOptimizer.byPriority byPriority_total byPriority_trans orders)
    as Hs.
  rewrite Es in Hs. apply StronglySorted_inv in Hs as [_ Hall].
  rewrite <- (sort_perm RouteOptimizer.byPriority orders), Es in Ho.
  apply elem_of_cons in Ho as [-> | Ho]; [lia |].
  rewrite Forall_forall in Hall. by apply byPriority_le, Hall.
Qed.

Lemma weightedLoop_unfold turns pw dw distances current u us :
  RouteOptimizer.weightedLoop (S turns) pw dw distances current (u :: us)
  = match RouteOptimizer.bestNext pw dw distances current (u :: us) with
    | Some (next, _) =>
        next :: RouteOptimizer.weightedLoop turns pw dw distances next
                  (Js.spliceIndexOf next (u :: us))
    | None =>
        match Js.sort RouteOptimizer.byPriority (u :: us) with
        | nextByPriority :: tl =>
            nextByPriority ::
              RouteOptimizer.weightedLoop turns pw dw distances nextByPriority
                (Js.spliceIndexOf nextByPriority
                   (Js.sort RouteOptimizer.byPriority (u :: us)))
        | [] => []
        end
    end.
Proof. reflexivity. Qed.

(** The loop visits every unvisited order once, each step by the rule. *)
Lemma weightedLoop_greedy pw dw distances turns :
  forall unvisited current,
    length unvisited = turns ->
    RouteOptimizer.weightedLoop turns pw dw distances current unvisited ≡ₚ unvisited
    /\ greedy pw dw distances current
         (RouteOptimizer.weightedLoop turns pw dw distances current unvisited).
Proof.
  induction turns as [|turns IH]; intros [|u us] current Hlen; try discriminate Hlen.
  { by split. }
  rewrite weightedLoop_unfold.
  pose proof (bestNext_spec pw dw distances current (u :: us)) as Hb.
  destruct (RouteOptimizer.bestNext pw dw distances current (u :: us)) as [[next s] |].
  - destruct Hb as (Hin & e & He & -> & Hmin).
    pose proof (spliceIndexOf_perm next (u :: us) Hin) as Hp.
    destruct (IH (Js.spliceIndexOf next (u :: us)) next) as (Hp' & Hg).
    { apply Permutation_length in Hp. simpl in Hp, Hlen. lia. }
    assert (Hall : next :: RouteOptimizer.weightedLoop turns pw dw distances next
                             (Js.spliceIndexOf next (u :: us)) ≡ₚ u :: us)
      by (by rewrite Hp' , <- Hp).
    split; [done |]. split; [| done].
    split; [by apply elem_of_cons; left |]. left. exists e. split; [done |].
    intros c e' Hc. rewrite Hall in Hc. by apply Hmin.
  - destruct (Js.sort RouteOptimizer.byPriority (u :: us)) as [|nb tl] eqn:Es.
    { by apply sort_nil_inv in Es. }
    rewrite spliceIndexOf_head.
    pose proof (sort_perm RouteOptimizer.byPriority (u :: us)) as Hp. rewrite Es in Hp.
    destruct (IH tl nb) as (Hp' & Hg).
    { apply Permutation_length in Hp. simpl in Hp, Hlen. lia. }
    assert (Hall : nb :: RouteOptimizer.weightedLoop turns pw dw distances nb tl ≡ₚ u :: us)
      by (by rewrite Hp').
    split; [done |]. split; [| done].
    split; [by apply elem_of_cons; left |]. right. split.
    + intros c Hc. rewrite Hall in Hc. by apply Hb.
    + intros c Hc. rewrite Hall in Hc. by eapply sorted_head_highest.
Qed.

Lemma map_Some_inj {A} (l1 l2 : list A) : map Some l1 = map Some l2 -> l1 = l2.
Proof.
  revert l2. induction l1 as [|x l1 IH]; intros [|y l2] E; try discriminate E; [done |].
  injection E as -> E. f_equal. by apply IH.
Qed.

(** The route of [nearestNeighborWithPriority]. *)
Lemma nearestNeighbor_route orders distances options :
  orders <> [] ->
  exists first rest,
    RouteOptimizer.nearestNeighborWithPriority orders distances options
    = map Some (first :: rest)
    /\ first :: rest ≡ₚ orders
    /\ (forall o, o ∈ orders -> priorityValues (priority o) <= priorityValues (priority first))
    /\ greedy (RouteOptimizer.priorityWeightOf options) (RouteOptimizer.distanceWeightOf options)
         distances first rest.
Proof.
  intros Hne. unfold RouteOptimizer.nearestNeighborWithPriority.
  destruct (Js.sort RouteOptimizer.byPriority orders) as [|first tl] eqn:Es.
  { by apply sort_nil_inv in Es. }
  rewrite spliceIndexOf_head.
  destruct (weightedLoop_greedy (RouteOptimizer.priorityWeightOf options)
              (RouteOptimizer.distanceWeightOf options) distances (length tl) tl first eq_refl)
    as (Hp & Hg).
  eexists first, _. split; [reflexivity |]. split_and!; try done.
  - by rewrite Hp, <- Es, sort_perm.
  - by eapply sorted_head_highest.
Qed.

Lemma nearestNeighbor_empty distances options :
  RouteOptimizer.nearestNeighborWithPriority [] distances options = [None].
Proof. reflexivity. Qed.

(** Every consecutive pair of a greedy route obeys the rule, the
    candidates of the step being the rest of the route. *)
Lemma greedy_step pw dw distances pre :
  forall first rest current next post,
    greedy pw dw distances first rest ->
    first :: rest = pre ++ current :: next :: post ->
    stepRule pw dw distances current (next :: post) next.
Proof.
  induction pre as [|p pre IH]; intros first rest current next post Hg E.
  - injection E as -> ->. exact (proj1 Hg).
  - injection E as -> ->.
    destruct pre as [|q pre].
    + exact (IH current (next :: post) current next post (proj2 Hg) eq_refl).
    + exact (IH q (pre ++ current :: next :: post) current next post (proj2 Hg) eq_refl).
Qed.



(** C5.  For every list of orders and every list of distances, empty and
    partial ones included, [nearestNeighborWithPriority] returns (it is a
    total function and raises nothing) a sequence holding each order as
    often as the input does; on an empty input that sequence is the lone
    [undefined] of the empty array's head.  Wherever no candidate has
    distance data from the current order, the order appended next has the
    highest priority among the candidates. *)
Theorem weighted_nearest_neighbor_complete (orders : list Order)
    (distances : list DistanceEdge) (options : Options.t) :
  (exists route,
     route ≡ₚ orders
     /\ RouteOptimizer.nearestNeighborWithPriority orders distances options
        = match orders with
          | [] => [None]
          | _ => map Some route
          end)
  /\ forall pre current next post,
       RouteOptimizer.nearestNeighborWithPriority orders distances options
       = map Some (pre ++ current :: next :: post) ->
       (forall c, c ∈ next :: post ->
                  RouteOptimizer.findEdge distances (id current) (id c) = None) ->
       forall c, c ∈ next :: post ->
                 priorityValues (priority c) <= priorityValues (priority next).
Proof.
  destruct orders as [|o orders].
  - split; [by exists [] |].
    intros pre current next post Hroute. rewrite nearestNeighbor_empty in Hroute.
    by destruct pre as [|? [|? ?]].
  - destruct (nearestNeighbor_route (o :: orders) distances options)
      as (first & rest & E & Hp & Hmax & Hg); [done |].
    split; [by exists (first :: rest) |].
    intros pre current next post Hroute Hnone.
    rewrite E in Hroute. apply map_Some_inj in Hroute.
    destruct (greedy_step _ _ _ _ _ _ _ _ _ Hg Hroute) as [Hin [(e & He & _) | [_ Hhigh]]].
    + by rewrite (Hnone next Hin) in He.
    + exact Hhigh.
Qed.

(** Without any distance data the orders A, B, C come out by priority. *)
Lemma weighted_nearest_neighbor_complete_witness :
  RouteOptimizer.nearestNeighborWithPriority [orderA; orderB; orderC] [] Options.empty
  = map Some ([] ++ orderB :: orderC :: [orderA])
  /\ (forall c, c ∈ orderC :: [orderA] ->
                RouteOptimizer.findEdge [] (id orderB) (id c) = None)
  /\ forall c, c ∈ orderC :: [orderA] ->
               priorityValues (priority c) <= priorityValues (priority orderC).
Proof.
  assert (Hroute : RouteOptimizer.nearestNeighborWithPriority [orderA; orderB; orderC] []
                     Options.empty
                   = map Some ([] ++ orderB :: orderC :: [orderA]))
    by reflexivity.
  assert (Hnone : forall c, c ∈ orderC :: [orderA] ->
                            RouteOptimizer.findEdge [] (id orderB) (id c) = None)
    by reflexivity.
  split; [exact Hroute |]. split; [exact Hnone |].
  exact (proj2 (weighted_nearest_neighbor_complete [orderA; orderB; orderC] [] Options.empty)
           [] orderB orderC [orderA] Hroute Hnone).
Defined.

(* ===================================================================== *)
(** * The multi-start nearest neighbour *)
(* ===================================================================== *)

(** The cost of a route is the sum of its edges. *)
Lemma calculateRouteDistance_sum route distances :
  RouteOptimizer.calculateRouteDistance route distances
  = sumZ (map (fun '(a, b) => edgeSeconds distances a b) (consecutive route)).
Proof.
  induction route as [|a [|b rest] IH]; [done | done |].
  change (RouteOptimizer.calculateRouteDistance (a :: b :: rest) distances)
    with (edgeSeconds distances a b
          + RouteOptimizer.calculateRouteDistance (b :: rest) distances).
  by rewrite IH.
Qed.

(** The first of the attempts sorted by cost is a cheapest one. *)
Lemma selectBest_least attempts :
  attempts <> [] ->
  exists best,
    RouteOptimizer.selectBest attempts = Some best
    /\ best ∈ attempts
    /\ forall a, a ∈ attempts -> RouteOptimizer.distance best <= RouteOptimizer.distance a.
Proof.
  intros Hne. unfold RouteOptimizer.selectBest.
  set (cmp := fun a b => RouteOptimizer.distance a - RouteOptimizer.distance b).
  pose proof (sort_perm cmp attempts) as Hp.
  assert (Hs : StronglySorted (fun a b => cmp a b <= 0) (Js.sort cmp attempts)).
  { apply sort_sorted; unfold cmp; intros; lia. }
  destruct (Js.sort cmp attempts) as [|best tl] eqn:Es.
  { by apply sort_nil_inv in Es. }
  exists best. split; [done |]. split.
  - rewrite <- Hp. by apply elem_of_cons; left.
  - intros a Ha. rewrite <- Hp in Ha.
    apply StronglySorted_inv in Hs as [_ Hall]. rewrite Forall_forall in Hall.
    apply elem_of_cons in Ha as [-> | Ha]; [lia |].
    specialize (Hall a Ha). unfold cmp in Hall. lia.
Qed.




(* ===================================================================== *)
(** * The geocode cache *)
(* ===================================================================== *)

(** A cached address is answered from its row: no provider call, no
    change of the world. *)
Lemma geocode_hit address w row :
  addressGeoCache w !! Geocoder.createAddressHash address = Some row ->
  Geocoder.geocodeAddress address w
  = (Returned {| latitude := Db.latitude row; longitude := Db.longitude row;
                 formattedAddress := Db.formattedAddress row; isValid := Db.isValid row;
                 isGeocoded := Db.isGeocoded row; error := None |}, w).
Proof.
  intros E. unfold Geocoder.geocodeAddress, Geocoder.getCachedCoordinates, tryCatch, bind,
    getWorld.
  cbv beta zeta. by rewrite E.
Qed.





(* ===================================================================== *)
(** * Idempotent optimisation *)
(* ===================================================================== *)

Lemma getDriverPickedUpOrders_spec driver w :
  RouteService.getDriverPickedUpOrders driver w
  = (Returned {| RouteService.ordersSuccess := true;
                 RouteService.ordersData := pickedUpOrders driver w;
                 RouteService.count := Z.of_nat (length (pickedUpOrders driver w)) |}, w).
Proof. reflexivity. Qed.

(** Without picked-up orders the answer is the failure, whatever the row
    of the driver says. *)
Lemma optimize_without_orders driver options w :
  pickedUpOrders driver w = [] ->
  RouteService.optimizeRoute driver options w
  = (Returned {| RouteService.Response.success := false;
                 RouteService.Response.message := "No picked up orders found for driver";
                 RouteService.Response.messageAr := "لا توجد طلبات محملة للسائق";
                 RouteService.Response.data := None |}, w).
Proof.
  intros E. unfold RouteService.optimizeRoute, tryCatch.
  unfold bind at 1. rewrite getDriverPickedUpOrders_spec, E. reflexivity.
Qed.

(** The answer for a driver marked optimised, with orders on board and no
    forced recalculation: the saved state, and an unchanged world. *)
Lemma optimize_from_cache driver options w row :
  routeOptimization w !! driver = Some row ->
  Db.routeOptimized row = true ->
  pickedUpOrders driver w <> [] ->
  unforced options ->
  RouteService.optimizeRoute driver options w
  = (Returned (RouteService.fromCacheResponse driver
                 (Z.of_nat (length (pickedUpOrders driver w))) row), w).
Proof.
  intros Hrow Hopt Hne Hun. unfold RouteService.optimizeRoute, tryCatch.
  unfold bind at 1. rewrite getDriverPickedUpOrders_spec.
  cbn [RouteService.count RouteService.ordersData].
  destruct (Z.eqb_spec (Z.of_nat (length (pickedUpOrders driver w))) 0) as [E | _].
  { destruct (pickedUpOrders driver w); [done | simpl in E; lia]. }
  unfold bind, getWorld. rewrite Hun, Hrow, Hopt. reflexivity.
Qed.

(** C1, as amended.  For a driver with at least one picked-up order whose
    saved state has [routeOptimized], a call of [optimizeRoute] that does
    not force a recalculation returns the saved state with [fromCache]
    true and leaves the world as it was: the trace gains no event, so no
    heuristic ran and no provider was called.  A call before it of the same
    kind, and any such call in a world with the same row and the same
    picked-up orders, returns the same response. *)
Theorem optimize_twice_from_cache (driver : string)
    (first second : RouteService.Request.t) (w : World) (row : Db.RouteOptimizationRow) :
  routeOptimization w !! driver = Some row ->
  Db.routeOptimized row = true ->
  pickedUpOrders driver w <> [] ->
  unforced first ->
  unforced second ->
  exists response data,
    RouteService.optimizeRoute driver second
      (after (RouteService.optimizeRoute driver first) w) = (Returned response, w)
    /\ RouteService.optimizeRoute driver first w = (Returned response, w)
    /\ RouteService.Response.success response = true
    /\ RouteService.Response.data response = Some data
    /\ RouteService.Data.fromCache data = Some true
    /\ (RouteService.Data.optimizedAt data, RouteService.Data.estimatedDuration data,
        RouteService.Data.estimatedDistance data)
       = (Db.optimizedAt row, Db.estimatedDuration row, Db.estimatedDistance row)
    /\ RouteService.Data.totalOrders data = Z.of_nat (length (pickedUpOrders driver w))
    /\ trace (after (RouteService.optimizeRoute driver second) w) = trace w
    /\ forall options w',
         routeOptimization w' !! driver = Some row ->
         pickedUpOrders driver w' = pickedUpOrders driver w ->
         unforced options ->
         RouteService.optimizeRoute driver options w' = (Returned response, w').
Proof.
  intros Hrow Hopt Hne H1 H2.
  pose proof (optimize_from_cache driver first w row Hrow Hopt Hne H1) as E1.
  pose proof (optimize_from_cache driver second w row Hrow Hopt Hne H2) as E2.
  eexists _, _. unfold after. rewrite E1. cbn [snd]. rewrite E2. cbn [snd].
  split_and!; try reflexivity.
  intros options w' Hrow' Horders Hun.
  rewrite (optimize_from_cache driver options w' row Hrow' Hopt) by (done || by rewrite Horders).
  by rewrite Horders.
Qed.

(** The driver of [busy]: three orders on board, a saved state. *)
Lemma optimize_twice_from_cache_witness :
  routeOptimization busy !! "driver-1"%string = Some savedRow
  /\ Db.routeOptimized savedRow = true
  /\ pickedUpOrders "driver-1" busy <> []
  /\ unforced defaults
  /\ exists response data,
       RouteService.optimizeRoute "driver-1" defaults busy = (Returned response, busy)
       /\ RouteService.Response.data response = Some data
       /\ RouteService.Data.fromCache data = Some true.
Proof.
  assert (H1 : routeOptimization busy !! "driver-1"%string = Some savedRow)
    by (vm_compute; reflexivity).
  assert (H3 : pickedUpOrders "driver-1" busy <> []) by (vm_compute; discriminate).
  split; [exact H1 |]. split; [reflexivity |]. split; [exact H3 |]. split; [reflexivity |].
  destruct (optimize_twice_from_cache "driver-1" defaults defaults busy savedRow
              H1 eq_refl H3 eq_refl eq_refl)
    as (response & data & _ & E & _ & Hd & Hc & _).
  exists response, data. split; [exact E |]. split; [exact Hd | exact Hc].
Defined.

(** C1 as stated fails for a driver without picked-up orders: the saved
    state says [routeOptimized], yet both calls answer the failure, which
    has no data and so no [fromCache]. *)
Lemma optimize_without_orders_is_not_from_cache :
  routeOptimization idle !! "driver-1"%string = Some savedRow
  /\ Db.routeOptimized savedRow = true
  /\ exists response,
       RouteService.optimizeRoute "driver-1" defaults idle = (Returned response, idle)
       /\ RouteService.optimizeRoute "driver-1" defaults
            (after (RouteService.optimizeRoute "driver-1" defaults) idle)
          = (Returned response, idle)
       /\ RouteService.Response.success response = false
       /\ RouteService.Response.data response = None.
Proof.
  split; [vm_compute; reflexivity |]. split; [reflexivity |].
  assert (E : pickedUpOrders "driver-1" idle = []) by (vm_compute; reflexivity).
  eexists. unfold after.
  rewrite (optimize_without_orders "driver-1" defaults idle E). cbn [snd].
  rewrite (optimize_without_orders "driver-1" defaults idle E).
  by split_and!.
Qed.

(** Two calls in the city, where nothing is saved yet: the first runs the
    nearest neighbour (one heuristic, four geocoding requests, one matrix
    request) and saves its figures; the second returns them from the saved
    state, with another message and without the sequence, and adds no
    event. *)
Example optimize_city_twice :
  let call := RouteService.optimizeRoute "driver-1" defaults in
  let once := after call city in
  let twice := after call once in
  (RouteService.Response.message <$> outcome call city,
   RouteService.Response.message <$> outcome call once)
  = (Some "Route optimized successfully"%string,
     Some "Route already optimized (use forceRecalculate=true to recalculate)"%string)
  /\ ((fun r => RouteService.Data.estimatedDuration <$> RouteService.Response.data r)
        <$> outcome call city,
      (fun r => RouteService.Data.estimatedDuration <$> RouteService.Response.data r)
        <$> outcome call once)
     = (Some (Some (Some "1h 5m"%string)), Some (Some (Some "1h 5m"%string)))
  /\ (fun r => RouteService.Data.fromCache <$> RouteService.Response.data r)
       <$> outcome call once
     = Some (Some (Some true))
  /\ (length (trace once), length (filter (fun e => isFetch e = true) (trace once)))
     = (6%nat, 5%nat)
  /\ length (trace twice) = 6%nat.
Proof. cbv zeta. repeat split; reflexivity. Qed.

(* ===================================================================== *)
(** * The totals a result reports *)
(* ===================================================================== *)

Lemma sumTotals_indices distanceMatrix :
  forall ps qs acc,
    map DistanceMatrix.index ps = map DistanceMatrix.index qs ->
    DistanceMatrix.sumTotals ps distanceMatrix acc
    = DistanceMatrix.sumTotals qs distanceMatrix acc.
Proof.
  induction ps as [|p ps IH]; intros qs acc E.
  - by destruct qs.
  - destruct qs as [|q qs]; [discriminate E |].
    injection E as Ei E.
    destruct ps as [|p' ps], qs as [|q' qs]; try discriminate E; [done |].
    injection E as Ei' E.
    change (DistanceMatrix.sumTotals (p :: p' :: ps) distanceMatrix acc)
      with (let '(totalDistance, totalDuration, totalDurationInTraffic) := acc in
            DistanceMatrix.sumTotals (p' :: ps) distanceMatrix
              match DistanceMatrix.findByIndex distanceMatrix (DistanceMatrix.index p)
                      (DistanceMatrix.index p') with
              | Some distanceInfo =>
                  (totalDistance + distanceMeters distanceInfo,
                   totalDuration + durationSeconds distanceInfo,
                   totalDurationInTraffic + durationInTrafficSeconds distanceInfo)
              | None => acc
              end).
    change (DistanceMatrix.sumTotals (q :: q' :: qs) distanceMatrix acc)
      with (let '(totalDistance, totalDuration, totalDurationInTraffic) := acc in
            DistanceMatrix.sumTotals (q' :: qs) distanceMatrix
              match DistanceMatrix.findByIndex distanceMatrix (DistanceMatrix.index q)
                      (DistanceMatrix.index q') with
              | Some distanceInfo =>
                  (totalDistance + distanceMeters distanceInfo,
                   totalDuration + durationSeconds distanceInfo,
                   totalDurationInTraffic + durationInTrafficSeconds distanceInfo)
              | None => acc
              end).
    destruct acc as [[a b] c]. rewrite Ei, Ei'.
    apply IH. simpl. by rewrite Ei', E.
Qed.

Lemma index_imap (f : nat -> Order -> DistanceMatrix.RoutePoint) (g : nat -> nat) l :
  (forall i o, DistanceMatrix.index (f i o) = g i) ->
  map DistanceMatrix.index (imap f l) = map g (seq 0 (length l)).
Proof.
  revert f g. induction l as [|o l IH]; intros f g Hf; simpl; [done |].
  rewrite Hf. f_equal.
  rewrite (IH (f ∘ S) (g ∘ S)) by (intros; apply Hf).
  by rewrite <- seq_shift, map_map.
Qed.

(** The totals [formatOptimizationResult] takes from [calculateRouteTotals]
    depend on the number of orders only: each route point carries its
    position in the route as [index], and the edges are looked up by
    their positions in the matrix. *)
Lemma reported_totals_ignore_sequence (route route' : list Order)
    (distanceMatrix : list DistanceEdge) :
  length route = length route' ->
  DistanceMatrix.calculateRouteTotals (imap RouteOptimizer.routePoint route) distanceMatrix
  = DistanceMatrix.calculateRouteTotals (imap RouteOptimizer.routePoint route') distanceMatrix.
Proof.
  intros Hlen. unfold DistanceMatrix.calculateRouteTotals.
  rewrite (sumTotals_indices distanceMatrix (imap RouteOptimizer.routePoint route)
             (imap RouteOptimizer.routePoint route')); [done |].
  rewrite !(index_imap _ (fun i => i)) by done. by rewrite Hlen.
Qed.

(** C9 at the four stops of the city.  The priority-weighted nearest
    neighbour is selected and emits o1, o3, o2, o4, whose consecutive
    edges take 300 + 600 + 300 = 1200 seconds of traffic-aware travel, 20
    minutes; the result reports "1h 5m", the 900 + 600 + 2400 seconds of
    the matrix edges 0-1, 1-2, 2-3, and the service passes the figure on. *)
Lemma four_stops_reported_duration :
  (fun result =>
     (Result.algorithm result,
      map id (ordersOf (Result.optimizedSequence result)),
      Result.realDistanceCalculated result,
      Result.estimatedDuration result,
      sequenceSeconds result,
      DistanceMatrix.formatDuration (sequenceSeconds result)))
    <$> outcome (RouteOptimizer.optimizeRoute fourStops Options.empty) city
  = Some ("nearest_neighbor"%string, ["o1"; "o3"; "o2"; "o4"]%string, Some true,
          "1h 5m"%string, 1200, "20m"%string)
  /\ (fun response =>
        RouteService.Data.estimatedDuration <$> RouteService.Response.data response)
       <$> outcome (RouteService.optimizeRoute "driver-1" defaults) city
     = Some (Some (Some "1h 5m"%string)).
Proof.
  split; reflexivity.
Qed.

(* ===================================================================== *)
(** * Geocoding the orders *)
(* ===================================================================== *)

Section Inversion.
Context {A B : Type}.

Lemma bind_returned (m : M A) (k : A -> M B) w b w' :
  (x <- m ;; k x) w = (Returned b, w') ->
  exists a w1, m w = (Returned a, w1) /\ k a w1 = (Returned b, w').
Proof.
  unfold bind. destruct (m w) as [[a | e] w1]; intros E; [by exists a, w1 | discriminate].
Qed.

Lemma bind_thrown (m : M A) (k : A -> M B) w e w' :
  (x <- m ;; k x) w = (Thrown e, w') ->
  m w = (Thrown e, w') \/ exists a w1, m w = (Returned a, w1) /\ k a w1 = (Thrown e, w').
Proof.
  unfold bind. destruct (m w) as [[a | e1] w1]; intros E; [right; by exists a, w1 |].
  left. by injection E as -> ->.
Qed.

Lemma tryCatch_returned (m : M A) (handler : JsError -> M A) w a w' :
  tryCatch m handler w = (Returned a, w') ->
  m w = (Returned a, w')
  \/ exists e w1, m w = (Thrown e, w1) /\ handler e w1 = (Returned a, w').
Proof.
  unfold tryCatch. destruct (m w) as [[a1 | e] w1]; intros E; [by left | right; by exists e, w1].
Qed.
End Inversion.

Lemma forget_withCoordinates o c : forget (RouteOptimizer.withCoordinates o c) = forget o.
Proof. reflexivity. Qed.

Lemma geocodeOrder_spec o w :
  exists o' w',
    RouteOptimizer.geocodeOrder o w = (Returned o', w')
    /\ forget o' = forget o
    /\ (is_Some (coordinates o) -> o' = o /\ w' = w)
    /\ (coordinates o = None ->
        forall c, coordinates o' = Some c -> isValid c = true).
Proof.
  unfold RouteOptimizer.geocodeOrder. destruct (coordinates o) as [c0 |] eqn:E.
  - exists o, w. unfold tryCatch, ret. split; [done |]. split; [done |].
    split; [done | discriminate].
  - unfold tryCatch, bind.
    destruct (Geocoder.geocodeAddress (deliveryAddress o) w) as [[c | e] w1].
    + eexists _, _. split; [reflexivity |]. split; [done |].
      split; [by intros [? ?] |]. intros _ c'. simpl.
      destruct (isValid c) eqn:Ev; [by intros [= <-] | discriminate].
    + eexists _, _. split; [reflexivity |]. split; [done |].
      split; [by intros [? ?] | intros _ c'; discriminate].
Qed.

Lemma geocodeOrders_spec orders w :
  exists geocoded w',
    RouteOptimizer.geocodeOrders orders w = (Returned geocoded, w')
    /\ Forall2 geocodedFrom orders geocoded.
Proof.
  unfold RouteOptimizer.geocodeOrders. revert w.
  induction orders as [|o orders IH]; intros w.
  - exists [], w. by split; [| constructor].
  - destruct (geocodeOrder_spec o w) as (o' & w1 & E1 & Hf & Hs & Hv).
    destruct (IH w1) as (geocoded & w2 & E2 & Hall).
    exists (o' :: geocoded), w2. split.
    + cbn [forEachM]. unfold bind at 1. rewrite E1. unfold bind at 1. by rewrite E2.
    + constructor; [| done]. split; [done |]. split; [| done].
      intros H. by destruct (Hs H).
Qed.

Lemma geocodedFrom_forget orders geocoded :
  Forall2 geocodedFrom orders geocoded -> map forget geocoded = map forget orders.
Proof.
  induction 1 as [|o o' l l' (Hf & _) _ IH]; [done |]. simpl. by rewrite Hf, IH.
Qed.

(** X1.  [geocodeOrders] raises nothing, whatever the geocoder does: it
    returns one order for each order given, in the same order, equal to it
    in everything but [coordinates].  An order that has coordinates is
    returned as it is; coordinates that are added are valid ones; and when
    every order has coordinates nothing is looked up and the world is
    unchanged. *)
Theorem geocoding_orders_raises_nothing (orders : list Order) (w : World) :
  exists geocoded w',
    RouteOptimizer.geocodeOrders orders w = (Returned geocoded, w')
    /\ Forall2
         (fun o o' =>
            forget o' = forget o
            /\ (is_Some (coordinates o) -> o' = o)
            /\ (coordinates o = None ->
                forall c, coordinates o' = Some c -> isValid c = true))
         orders geocoded
    /\ (Forall (fun o => is_Some (coordinates o)) orders -> geocoded = orders /\ w' = w).
Proof.
  destruct (geocodeOrders_spec orders w) as (geocoded & w' & E & Hall).
  exists geocoded, w'. split; [done |]. split; [exact Hall |].
  intros Hsome. revert w geocoded w' E Hall.
  induction Hsome as [|o orders Ho _ IH]; intros w geocoded w' E Hall.
  - by injection E as <- <-.
  - unfold RouteOptimizer.geocodeOrders in *. cbn [forEachM] in E.
    apply bind_returned in E as (o' & w1 & E1 & E).
    apply bind_returned in E as (rest & w2 & E2 & E). injection E as <- <-.
    destruct (geocodeOrder_spec o w) as (o'' & w1' & E1' & _ & Hsame & _).
    rewrite E1' in E1. injection E1 as -> ->. destruct (Hsame Ho) as (-> & ->).
    apply Forall2_cons_1 in Hall as (_ & Hall).
    destruct (IH _ _ _ E2 Hall) as (-> & ->). done.
Qed.

Lemma forget_priority o : priority (forget o) = priority o.
Proof. reflexivity. Qed.

Lemma forget_id o : id (forget o) = id o.
Proof. reflexivity. Qed.

(* ===================================================================== *)
(** * The simple nearest neighbour *)
(* ===================================================================== *)

Lemma nearer_nearestAmong distances current seen best candidate :
  nearestAmong distances current seen best ->
  nearestAmong distances current (seen ++ [candidate])
    (RouteOptimizer.nearer distances current best candidate).
Proof.
  unfold RouteOptimizer.nearer, nearestAmong.
  destruct (RouteOptimizer.findEdge distances (id current) (id candidate))
    as [info |] eqn:Einfo.
  - destruct best as [[next s] |].
    + intros (Hin & e & He & Hs & Hmin).
      destruct (Z.ltb_spec (durationInTrafficSeconds info) s) as [Hlt | Hge].
      * split; [set_solver |]. exists info. split_and!; try done.
        intros c e' Hc Hc'. apply elem_of_app in Hc as [Hc | Hc].
        -- pose proof (Hmin c e' Hc Hc'). lia.
        -- apply list_elem_of_singleton in Hc as ->.
           rewrite Einfo in Hc'. injection Hc' as <-. lia.
      * split; [set_solver |]. exists e. split_and!; try done.
        intros c e' Hc Hc'. apply elem_of_app in Hc as [Hc | Hc].
        -- by eapply Hmin.
        -- apply list_elem_of_singleton in Hc as ->.
           rewrite Einfo in Hc'. by injection Hc' as <-.
    + intros Hnone. split; [set_solver |]. exists info. split_and!; try done.
      intros c e' Hc Hc'. apply elem_of_app in Hc as [Hc | Hc].
      * by rewrite (Hnone c Hc) in Hc'.
      * apply list_elem_of_singleton in Hc as ->.
        rewrite Einfo in Hc'. injection Hc' as <-. lia.
  - destruct best as [[next s] |].
    + intros (Hin & e & He & Hs & Hmin).
      split; [set_solver |]. exists e. split_and!; try done.
      intros c e' Hc Hc'. apply elem_of_app in Hc as [Hc | Hc].
      * by eapply Hmin.
      * apply list_elem_of_singleton in Hc as ->. by rewrite Einfo in Hc'.
    + intros Hnone c Hc. apply elem_of_app in Hc as [Hc | Hc]; [by apply Hnone |].
      by apply list_elem_of_singleton in Hc as ->.
Qed.

Lemma foldl_nearer_nearestAmong distances current candidates seen best :
  nearestAmong distances current seen best ->
  nearestAmong distances current (seen ++ candidates)
    (foldl (RouteOptimizer.nearer distances current) best candidates).
Proof.
  revert seen best. induction candidates as [|c l IH]; intros seen best H; simpl.
  - by rewrite app_nil_r.
  - rewrite (assoc_L (++) seen [c] l : seen ++ c :: l = (seen ++ [c]) ++ l).
    by apply IH, nearer_nearestAmong.
Qed.

Lemma simpleLoop_unfold turns distances current u us :
  RouteOptimizer.simpleLoop (S turns) distances current (u :: us)
  = match foldl (RouteOptimizer.nearer distances current) None (u :: us) with
    | Some (nearest, _) =>
        nearest :: RouteOptimizer.simpleLoop turns distances nearest
                     (Js.spliceIndexOf nearest (u :: us))
    | None => u :: RouteOptimizer.simpleLoop turns distances u us
    end.
Proof. reflexivity. Qed.

Lemma simpleLoop_nearestFirst distances turns :
  forall unvisited current,
    length unvisited = turns ->
    RouteOptimizer.simpleLoop turns distances current unvisited ≡ₚ unvisited
    /\ nearestFirst distances current
         (RouteOptimizer.simpleLoop turns distances current unvisited).
Proof.
  induction turns as [|turns IH]; intros [|u us] current Hlen; try discriminate Hlen.
  { by split. }
  rewrite simpleLoop_unfold.
  pose proof (foldl_nearer_nearestAmong distances current (u :: us) [] None) as Hb.
  rewrite app_nil_l in Hb.
  specialize (Hb (fun c Hc => False_ind _ (proj1 (elem_of_nil c) Hc))).
  destruct (foldl (RouteOptimizer.nearer distances current) None (u :: us)) as [[next s] |].
  - destruct Hb as (Hin & e & He & -> & Hmin).
    pose proof (spliceIndexOf_perm next (u :: us) Hin) as Hp.
    destruct (IH (Js.spliceIndexOf next (u :: us)) next) as (Hp' & Hg).
    { apply Permutation_length in Hp. simpl in Hp, Hlen. lia. }
    assert (Hall : next :: RouteOptimizer.simpleLoop turns distances next
                             (Js.spliceIndexOf next (u :: us)) ≡ₚ u :: us)
      by (by rewrite Hp' , <- Hp).
    split; [done |]. split; [| done].
    split; [by apply elem_of_cons; left |].
    intros c e' Hc He'. rewrite Hall in Hc. exists e. split; [done |]. by eapply Hmin.
  - destruct (IH us u) as (Hp' & Hg).
    { simpl in Hlen. lia. }
    assert (Hall : u :: RouteOptimizer.simpleLoop turns distances u us ≡ₚ u :: us)
      by (by rewrite Hp').
    split; [done |]. split; [| done].
    split; [by apply elem_of_cons; left |].
    intros c e' Hc He'. rewrite Hall in Hc. by rewrite (Hb c Hc) in He'.
Qed.

Lemma nearestFirst_step distances pre :
  forall first rest current next post,
    nearestFirst distances first rest ->
    first :: rest = pre ++ current :: next :: post ->
    nearestRule distances current (next :: post) next.
Proof.
  induction pre as [|p pre IH]; intros first rest current next post Hg E.
  - injection E as -> ->. exact (proj1 Hg).
  - injection E as -> ->.
    destruct pre as [|q pre].
    + exact (IH current (next :: post) current next post (proj2 Hg) eq_refl).
    + exact (IH q (pre ++ current :: next :: post) current next post (proj2 Hg) eq_refl).
Qed.

Lemma simpleLoop_no_data current unvisited :
  RouteOptimizer.simpleLoop (length unvisited) [] current unvisited = unvisited.
Proof.
  revert current. induction unvisited as [|u us IH]; intros current; [done |].
  cbn [length]. rewrite simpleLoop_unfold.
  assert (E : foldl (RouteOptimizer.nearer [] current) None (u :: us) = None).
  { generalize (u :: us). intros l. induction l as [|c l IHl]; [done | exact IHl]. }
  rewrite E. by rewrite IH.
Qed.

(** X2.  The route of [simpleNearestNeighbor] starts at the first order of
    the array and is a permutation of it.  At each step, if a remaining
    order has distance data from the current one, the order visited next
    has distance data and the least traffic-aware duration among them.
    Without any distance data the orders keep their order. *)
Theorem simple_nearest_neighbor_route (first : Order) (others : list Order)
    (distances : list DistanceEdge) :
  exists rest,
    RouteOptimizer.simpleNearestNeighbor (first :: others) distances
    = map Some (first :: rest)
    /\ rest ≡ₚ others
    /\ (forall pre current next post c e',
          first :: rest = pre ++ current :: next :: post ->
          c ∈ next :: post ->
          RouteOptimizer.findEdge distances (id current) (id c) = Some e' ->
          exists e,
            RouteOptimizer.findEdge distances (id current) (id next) = Some e
            /\ durationInTrafficSeconds e <= durationInTrafficSeconds e')
    /\ (distances = [] -> rest = others).
Proof.
  destruct (simpleLoop_nearestFirst distances (length others) others first eq_refl)
    as (Hp & Hg).
  eexists. split; [reflexivity |]. split; [done |]. split.
  - intros pre current next post c e' E Hc He'.
    exact (proj2 (nearestFirst_step _ _ _ _ _ _ _ Hg E) c e' Hc He').
  - intros ->. apply simpleLoop_no_data.
Qed.

Lemma definedOrders_map_Some l :
  RouteOptimizer.definedOrders (map Some l) = l.
Proof. induction l as [|x l IH]; [done |]. simpl. by rewrite IH. Qed.

Lemma simpleNearestNeighbor_perm orders distances :
  orders <> [] ->
  RouteOptimizer.definedOrders (RouteOptimizer.simpleNearestNeighbor orders distances)
  ≡ₚ orders.
Proof.
  destruct orders as [|first others]; [done |]. intros _.
  destruct (simpleLoop_nearestFirst distances (length others) others first eq_refl)
    as (Hp & _).
  unfold RouteOptimizer.simpleNearestNeighbor.
  rewrite definedOrders_map_Some. by rewrite Hp.
Qed.

Lemma forEachM_spec {A B} (f : A -> M B) (R : A -> B -> Prop) l :
  (forall x w, exists y w', f x w = (Returned y, w') /\ R x y) ->
  forall w, exists ys w', forEachM f l w = (Returned ys, w') /\ Forall2 R l ys.
Proof.
  intros Hf. induction l as [|x l IH]; intros w.
  - exists [], w. by split; [| constructor].
  - destruct (Hf x w) as (y & w1 & E1 & Hy). destruct (IH w1) as (ys & w2 & E2 & Hys).
    exists (y :: ys), w2. split; [| by constructor].
    cbn [forEachM]. unfold bind at 1. rewrite E1. unfold bind at 1. by rewrite E2.
Qed.

Lemma nearestNeighborForGroup_spec orders options w :
  exists route w',
    RouteOptimizer.nearestNeighborForGroup orders options w = (Returned route, w')
    /\ route ≡ₚ orders
    /\ ((length (RouteOptimizer.deliveryPointsOf orders) < 2)%nat -> route = orders /\ w' = w)
    /\ (forall e w1,
          DistanceMatrix.calculateDeliveryDistances (RouteOptimizer.deliveryPointsOf orders) w
          = (Thrown e, w1) ->
          route = orders).
Proof.
  unfold RouteOptimizer.nearestNeighborForGroup.
  destruct (Nat.leb_spec (length orders) 1) as [Hle | Hgt].
  { exists orders, w. by split_and!. }
  unfold tryCatch.
  destruct (Nat.ltb_spec (length (RouteOptimizer.deliveryPointsOf orders)) 2) as [Hlt | Hge].
  { exists orders, w. by split_and!. }
  unfold bind.
  destruct (DistanceMatrix.calculateDeliveryDistances (RouteOptimizer.deliveryPointsOf orders) w)
    as [[data | e] w1].
  - eexists _, _. split; [reflexivity |]. split_and!.
    + apply simpleNearestNeighbor_perm. intros ->. simpl in Hgt. lia.
    + intros ?. lia.
    + intros ? ?. discriminate.
  - eexists _, _. split; [reflexivity |]. split_and!; [done | intros ?; lia | done].
Qed.

Lemma deliveryPoints_nonempty orders :
  (2 <= length (RouteOptimizer.deliveryPointsOf orders))%nat -> orders <> [].
Proof. intros H ->. simpl in H. lia. Qed.

(** X3.  [nearestNeighborForGroup] raises nothing and returns a
    permutation of the group.  The group comes back as it is, without a
    request, when fewer than two of its orders have coordinates, and as it
    is when the distance request fails; when the request succeeds the
    route is that of [simpleNearestNeighbor] over the distances returned,
    which starts at the first order of the group. *)
Theorem group_route_is_a_permutation (orders : list Order) (options : Options.t)
    (w : World) :
  exists route w',
    RouteOptimizer.nearestNeighborForGroup orders options w = (Returned route, w')
    /\ route ≡ₚ orders
    /\ ((length (RouteOptimizer.deliveryPointsOf orders) < 2)%nat ->
        route = orders /\ w' = w)
    /\ (forall e w1,
          DistanceMatrix.calculateDeliveryDistances (RouteOptimizer.deliveryPointsOf orders) w
          = (Thrown e, w1) ->
          route = orders)
    /\ (forall data w1,
          (2 <= length (RouteOptimizer.deliveryPointsOf orders))%nat ->
          DistanceMatrix.calculateDeliveryDistances (RouteOptimizer.deliveryPointsOf orders) w
          = (Returned data, w1) ->
          map Some route = RouteOptimizer.simpleNearestNeighbor orders (distances data)
          /\ head route = head orders).
Proof.
  destruct (nearestNeighborForGroup_spec orders options w)
    as (route & w' & E & Hp & Hfew & Hfail).
  exists route, w'. split_and!; try done.
  intros data w1 Hlen Hdata.
  unfold RouteOptimizer.nearestNeighborForGroup in E.
  assert (Hne : orders <> []) by (by apply deliveryPoints_nonempty).
  assert (Hpoints : (length (RouteOptimizer.deliveryPointsOf orders) <= length orders)%nat).
  { unfold RouteOptimizer.deliveryPointsOf. clear.
    induction orders as [|o orders IH]; [done |]. cbn [omap list_omap length].
    destruct (RouteOptimizer.deliveryPointOf o); cbn [length]; lia. }
  destruct (Nat.leb_spec (length orders) 1) as [Hle | _]; [lia |].
  unfold tryCatch in E.
  destruct (Nat.ltb_spec (length (RouteOptimizer.deliveryPointsOf orders)) 2); [lia |].
  unfold bind in E. rewrite Hdata in E. injection E as <- <-.
  destruct orders as [|first others]; [done |].
  unfold RouteOptimizer.simpleNearestNeighbor. by rewrite definedOrders_map_Some.
Qed.

(* ===================================================================== *)
(** * The priority groups *)
(* ===================================================================== *)

Lemma addToGroup_concat groups o :
  concat (map snd (RouteOptimizer.addToGroup groups o)) ≡ₚ o :: concat (map snd groups).
Proof.
  induction groups as [|[p members] groups IH]; simpl; [done |].
  destruct (decide (p = priority o)); simpl.
  - rewrite <- (assoc_L (++)). simpl.
    by rewrite <- Permutation_middle.
  - rewrite IH. by rewrite <- Permutation_middle.
Qed.

Lemma groups_concat orders :
  forall groups,
    concat (map snd (foldl RouteOptimizer.addToGroup groups orders))
    ≡ₚ concat (map snd groups) ++ orders.
Proof.
  induction orders as [|o orders IH]; intros groups; simpl; [by rewrite app_nil_r |].
  rewrite IH, addToGroup_concat. by rewrite <- Permutation_middle.
Qed.

Lemma addToGroup_keys groups o :
  map fst (RouteOptimizer.addToGroup groups o)
  = if decide (priority o ∈ map fst groups) then map fst groups
    else map fst groups ++ [priority o].
Proof.
  induction groups as [|[p members] groups IH].
  - rewrite decide_False; [done | apply not_elem_of_nil].
  - cbn [RouteOptimizer.addToGroup map fst].
    destruct (decide (p = priority o)) as [-> | Hne].
    + rewrite decide_True; [done | by apply elem_of_cons; left].
    + cbn [map fst]. rewrite IH.
      destruct (decide (priority o ∈ map fst groups)) as [Hin | Hnin].
      * rewrite decide_True; [done | by apply elem_of_cons; right].
      * rewrite decide_False; [done |].
        intros H. apply elem_of_cons in H as [H | H]; [by rewrite H in Hne | done].
Qed.

Lemma filter_snoc {A} (P : A -> Prop) `{!forall x, Decision (P x)} l x :
  filter P (l ++ [x]) = filter P l ++ (if decide (P x) then [x] else []).
Proof.
  rewrite filter_app. reflexivity.
Qed.

Lemma filter_none {A} (P : A -> Prop) `{!forall x, Decision (P x)} l :
  (forall x, x ∈ l -> ~ P x) -> filter P l = [].
Proof.
  induction l as [|x l IH]; intros Hno; [done |].
  rewrite filter_cons_False by (apply Hno; by apply elem_of_cons; left).
  apply IH. intros y Hy. apply Hno. by apply elem_of_cons; right.
Qed.

Lemma addToGroup_groupOf seen groups o :
  (forall o', o' ∈ seen -> priority o' = priority o -> priority o ∈ map fst groups) ->
  NoDup (map fst groups) ->
  Forall (groupOf seen) groups ->
  Forall (groupOf (seen ++ [o])) (RouteOptimizer.addToGroup groups o).
Proof.
  induction groups as [|[p members] groups IH]; intros Hseen Hnd Hg; simpl.
  - constructor; [| constructor]. split; [| done]. simpl.
    rewrite filter_snoc. destruct (decide _) as [_ | H]; [| done].
    rewrite filter_none; [done |]. intros o' Ho' Hp.
    specialize (Hseen o' Ho' Hp). by apply elem_of_nil in Hseen.
  - apply Forall_cons in Hg as ((Hm & Hne) & Hg). simpl in Hm, Hne.
    apply NoDup_cons in Hnd as (Hp & Hnd).
    destruct (decide (p = priority o)) as [-> | Hneq].
    + constructor.
      * split; simpl; [| by destruct members].
        rewrite filter_snoc, <- Hm. by destruct (decide _).
      * apply Forall_forall. intros [q ms] Hin.
        pose proof (proj1 (Forall_forall _ _) Hg _ Hin) as (Hq & Hqne). simpl in Hq, Hqne.
        split; simpl; [| done].
        rewrite filter_snoc, <- Hq. destruct (decide _) as [E |]; [| by rewrite app_nil_r].
        exfalso. apply Hp. rewrite E. apply list_elem_of_fmap. by exists (q, ms).
    + constructor.
      * split; simpl; [| done].
        rewrite filter_snoc, <- Hm. destruct (decide _) as [E |]; [| by rewrite app_nil_r].
        by rewrite E in Hneq.
      * apply IH; [| done | done].
        intros o' Ho' E. specialize (Hseen o' Ho' E).
        simpl in Hseen. apply elem_of_cons in Hseen as [H | H]; [by rewrite H in Hneq | done].
Qed.

Lemma addToGroup_NoDup groups o :
  NoDup (map fst groups) -> NoDup (map fst (RouteOptimizer.addToGroup groups o)).
Proof.
  intros Hnd. rewrite addToGroup_keys. destruct (decide _) as [| Hnin]; [done |].
  apply NoDup_app. split_and!; [done | | apply NoDup_singleton].
  intros p Hp Hp'. by apply list_elem_of_singleton in Hp' as ->.
Qed.

Lemma addToGroup_complete seen groups o :
  (forall o', o' ∈ seen -> priority o' ∈ map fst groups) ->
  forall o', o' ∈ seen ++ [o] -> priority o' ∈ map fst (RouteOptimizer.addToGroup groups o).
Proof.
  intros Hall o' Ho'. rewrite addToGroup_keys. apply elem_of_app in Ho' as [Ho' | Ho'].
  - specialize (Hall o' Ho'). destruct (decide _); [done |]. apply elem_of_app. by left.
  - apply list_elem_of_singleton in Ho' as ->. destruct (decide _); [done |].
    apply elem_of_app. right. by apply list_elem_of_singleton.
Qed.

Lemma groups_grouped orders :
  forall seen groups,
    NoDup (map fst groups) ->
    (forall o, o ∈ seen -> priority o ∈ map fst groups) ->
    Forall (groupOf seen) groups ->
    NoDup (map fst (foldl RouteOptimizer.addToGroup groups orders))
    /\ (forall o, o ∈ seen ++ orders ->
                  priority o ∈ map fst (foldl RouteOptimizer.addToGroup groups orders))
    /\ Forall (groupOf (seen ++ orders)) (foldl RouteOptimizer.addToGroup groups orders).
Proof.
  induction orders as [|o orders IH]; intros seen groups Hnd Hall Hg; simpl.
  - by rewrite app_nil_r.
  - rewrite (assoc_L (++) seen [o] orders : seen ++ o :: orders = (seen ++ [o]) ++ orders).
    apply IH.
    + by apply addToGroup_NoDup.
    + by apply addToGroup_complete.
    + apply addToGroup_groupOf; [| done | done]. intros o' Ho' E.
      rewrite <- E. by apply Hall.
Qed.

Lemma groupOrdersByPriority_spec orders :
  concat (map snd (RouteOptimizer.groupOrdersByPriority orders)) ≡ₚ orders
  /\ NoDup (map fst (RouteOptimizer.groupOrdersByPriority orders))
  /\ (forall o, o ∈ orders ->
                priority o ∈ map fst (RouteOptimizer.groupOrdersByPriority orders))
  /\ (forall p members,
        (p, members) ∈ RouteOptimizer.groupOrdersByPriority orders ->
        members <> [] /\ members = filter (fun o => priority o = p) orders).
Proof.
  unfold RouteOptimizer.groupOrdersByPriority.
  destruct (groups_grouped orders [] []) as (Hnd & Hall & Hg);
    [constructor | by intros o Ho; apply elem_of_nil in Ho | constructor |].
  split_and!; [by rewrite groups_concat | done | done |].
  intros p members Hin.
  destruct (proj1 (Forall_forall _ _) Hg _ Hin) as (Hm & Hne). by split.
Qed.

(* ===================================================================== *)
(** * Priority before distance *)
(* ===================================================================== *)

Lemma priorityValues_inj p q : priorityValues p = priorityValues q -> p = q.
Proof. by destruct p, q. Qed.

Lemma StronglySorted_app {A} (R : A -> A -> Prop) l1 l2 :
  StronglySorted R l1 -> StronglySorted R l2 ->
  (forall x y, x ∈ l1 -> y ∈ l2 -> R x y) ->
  StronglySorted R (l1 ++ l2).
Proof.
  intros H1 H2 H. induction H1 as [|x l1 Hs IH Hx]; [done |]. simpl.
  constructor.
  - apply IH. intros a b Ha Hb. apply H; [by apply elem_of_cons; right | done].
  - apply Forall_app. split; [done |]. apply Forall_forall. intros y Hy.
    apply H; [by apply elem_of_cons; left | done].
Qed.

(** On orders sorted by rank the keys of the groups descend. *)
Lemma groups_keys_descend orders :
  forall groups,
    StronglySorted (fun p q => priorityValues q < priorityValues p) (map fst groups) ->
    Forall (fun o => Forall (fun k => priorityValues (priority o) <= priorityValues k)
                       (map fst groups)) orders ->
    StronglySorted rankOrder orders ->
    StronglySorted (fun p q => priorityValues q < priorityValues p)
      (map fst (foldl RouteOptimizer.addToGroup groups orders)).
Proof.
  induction orders as [|o orders IH]; intros groups Hk Hle Hs; simpl; [done |].
  apply Forall_cons in Hle as (Ho & Hle).
  apply StronglySorted_inv in Hs as (Hs & Hhead).
  apply IH; [| | done].
  - rewrite addToGroup_keys. destruct (decide _) as [| Hnin]; [done |].
    apply StronglySorted_app; [done | repeat constructor |].
    intros p q Hp Hq. apply list_elem_of_singleton in Hq as ->.
    pose proof (proj1 (Forall_forall _ _) Ho p Hp) as Hle'. cbv beta in Hle'.
    destruct (decide (priorityValues (priority o) = priorityValues p)) as [E |]; [| lia].
    apply priorityValues_inj in E. by rewrite E in Hnin.
  - rewrite addToGroup_keys.
    apply Forall_forall. intros o' Ho'.
    pose proof (proj1 (Forall_forall _ _) Hle o' Ho') as Hkeys.
    destruct (decide _); [done |]. apply Forall_app. split; [done |].
    constructor; [| constructor].
    exact (proj1 (Forall_forall _ _) Hhead o' Ho').
Qed.

(** X4.  [groupOrdersByPriority] partitions the orders: the groups
    together are a permutation of the orders, no two groups have the same
    priority, every priority that occurs has its group, no group is empty,
    and a group holds the orders of its priority in the order they had.
    On orders sorted by priority rank, highest first, the groups come in
    strictly descending rank. *)
Theorem priority_groups_partition (orders : list Order) :
  let groups := RouteOptimizer.groupOrdersByPriority orders in
  concat (map snd groups) ≡ₚ orders
  /\ NoDup (map fst groups)
  /\ (forall o, o ∈ orders -> priority o ∈ map fst groups)
  /\ (forall p members,
        (p, members) ∈ groups ->
        members <> [] /\ members = filter (fun o => priority o = p) orders)
  /\ (StronglySorted
        (fun a b => priorityValues (priority b) <= priorityValues (priority a)) orders ->
      StronglySorted (fun p q => priorityValues q < priorityValues p) (map fst groups)).
Proof.
  cbv zeta. destruct (groupOrdersByPriority_spec orders) as (H1 & H2 & H3 & H4).
  split_and!; try done. intros Hs.
  apply groups_keys_descend; [constructor | | done].
  apply Forall_forall. intros o _. constructor.
Qed.

Lemma concat_keys (groups : list (Priority * list Order)) (routes : list (list Order)) :
  Forall2 (fun g route => forall o, o ∈ route -> priority o = fst g) groups routes ->
  forall o, o ∈ concat routes -> priority o ∈ map fst groups.
Proof.
  induction 1 as [|g route groups routes Hg Hall IH]; intros o Ho; simpl in *.
  - by apply elem_of_nil in Ho.
  - apply elem_of_app in Ho as [Ho | Ho].
    + apply elem_of_cons. left. by apply Hg.
    + apply elem_of_cons. right. by apply IH.
Qed.

Lemma concat_rankOrder (groups : list (Priority * list Order)) (routes : list (list Order)) :
  Forall2 (fun g route => forall o, o ∈ route -> priority o = fst g) groups routes ->
  StronglySorted (fun p q => priorityValues q < priorityValues p) (map fst groups) ->
  StronglySorted rankOrder (concat routes).
Proof.
  induction 1 as [|g route groups routes Hg Hall IH]; intros Hk; simpl; [constructor |].
  apply StronglySorted_inv in Hk as (Hk & Hhead).
  apply StronglySorted_app.
  - clear -Hg. induction route as [|o route IHr]; [constructor |].
    constructor.
    + apply IHr. intros o' Ho'. apply Hg. by apply elem_of_cons; right.
    + apply Forall_forall. intros o' Ho'. unfold rankOrder.
      rewrite (Hg o) by (by apply elem_of_cons; left).
      rewrite (Hg o') by (by apply elem_of_cons; right). lia.
  - by apply IH.
  - intros a b Ha Hb. unfold rankOrder. rewrite (Hg a Ha).
    pose proof (concat_keys _ _ Hall b Hb) as Hin.
    pose proof (proj1 (Forall_forall _ _) Hhead _ Hin) as Hlt. cbv beta in Hlt. lia.
Qed.

Lemma concat_perm (lists routes : list (list Order)) :
  Forall2 (fun l route => route ≡ₚ l) lists routes -> concat routes ≡ₚ concat lists.
Proof.
  induction 1 as [|l route lists routes Hp _ IH]; [done |]. simpl. by rewrite Hp, IH.
Qed.

Lemma rankOrder_map l :
  StronglySorted rankOrder l
  <-> StronglySorted (fun p q => priorityValues q <= priorityValues p) (map priority l).
Proof.
  induction l as [|o l IH]; simpl; [split; constructor |]. split.
  - intros H. apply StronglySorted_inv in H as (Hs & Hh). constructor; [by apply IH |].
    apply Forall_forall. intros q Hq. apply list_elem_of_fmap in Hq as (x & -> & Hx).
    exact (proj1 (Forall_forall _ _) Hh x Hx).
  - intros H. apply StronglySorted_inv in H as (Hs & Hh). constructor; [by apply IH |].
    apply Forall_forall. intros x Hx.
    apply (proj1 (Forall_forall _ _) Hh (priority x)).
    apply list_elem_of_fmap. by exists x.
Qed.

Lemma forget_rankOrder l l' :
  map forget l' = map forget l -> StronglySorted rankOrder l -> StronglySorted rankOrder l'.
Proof.
  intros E H. apply rankOrder_map. apply rankOrder_map in H.
  assert (Ep : forall k : list Order, map priority k = map priority (map forget k)).
  { intros k. rewrite map_map. by apply map_ext. }
  by rewrite (Ep l'), E, <- Ep.
Qed.

(** The routes of the groups, group by group. *)
Lemma optimizedGroups_spec options groups w :
  exists routes w',
    forEachM
      (fun '(_, groupOrders) =>
         if (length groupOrders <=? 1)%nat then ret groupOrders
         else RouteOptimizer.nearestNeighborForGroup groupOrders options)
      groups w
    = (Returned routes, w')
    /\ Forall2 (fun (g : Priority * list Order) route => route ≡ₚ snd g) groups routes.
Proof.
  apply forEachM_spec. intros [p groupOrders] w0.
  destruct (Nat.leb_spec (length groupOrders) 1).
  - by exists groupOrders, w0.
  - destruct (nearestNeighborForGroup_spec groupOrders options w0) as (route & w1 & E & Hp & _).
    by exists route, w1.
Qed.

Lemma priorityWithDistance_spec orders options w :
  exists result w',
    RouteOptimizer.priorityWithDistanceOptimization orders options w = (Returned result, w')
    /\ map forget (ordersOf (Result.optimizedSequence result)) ≡ₚ map forget orders
    /\ (StronglySorted rankOrder orders ->
        StronglySorted rankOrder (ordersOf (Result.optimizedSequence result)))
    /\ Result.algorithm result = "PRIORITY_WITH_DISTANCE"%string
    /\ Result.estimatedDuration result
       = Js.numberToString (Z.of_nat (length orders) * 15) +:+ " minutes"
    /\ Result.estimatedDistance result
       = Js.numberToString (Z.of_nat (length orders) * 5) +:+ " km"
    /\ Result.realDistanceCalculated result = None
    /\ Result.totalOrders result = Z.of_nat (length orders)
    /\ Result.optimizedSequence result
       = imap RouteOptimizer.sequenced (ordersOf (Result.optimizedSequence result)).
Proof.
  unfold RouteOptimizer.priorityWithDistanceOptimization.
  unfold bind at 1.
  change (emit (Ran "priorityWithDistanceOptimization") w)
    with (Returned tt, after (emit (Ran "priorityWithDistanceOptimization")) w).
  cbv beta iota.
  set (w0 := after _ w).
  destruct (geocodeOrders_spec orders w0) as (geocoded & w1 & Egeo & Hgeo).
  unfold bind at 1. rewrite Egeo.
  destruct (optimizedGroups_spec options (RouteOptimizer.groupOrdersByPriority geocoded) w1)
    as (routes & w2 & Eroutes & Hroutes).
  unfold bind at 1. cbv zeta. rewrite Eroutes.
  destruct (format_nominal (concat routes)
              (RouteOptimizer.metadataOf "PRIORITY_WITH_DISTANCE"
                 (Options.truthy (Options.includeTraffic options)) "15-25%" None None) w2 eq_refl)
    as (result & Eformat & Hseq & Hdist & Hdur & Halg & Hreal & Htotal).
  exists result, w2. rewrite Eformat.
  destruct (groupOrdersByPriority_spec geocoded) as (Hconcat & Hnd & Hcomplete & Hmembers).
  assert (Hperm : concat routes ≡ₚ geocoded).
  { rewrite <- Hconcat. apply concat_perm. apply Forall2_fmap_l.
    eapply Forall2_impl; [exact Hroutes |]. by intros [p g] route. }
  assert (Hlen : length (concat routes) = length orders).
  { rewrite (Permutation_length Hperm). by apply Forall2_length in Hgeo. }
  rewrite Hseq, ordersOf_sequenced.
  split; [done |]. split_and!.
  - by rewrite Hperm, (geocodedFrom_forget _ _ Hgeo).
  - intros Hs.
    assert (Hs' : StronglySorted rankOrder geocoded)
      by (eapply forget_rankOrder; [exact (geocodedFrom_forget _ _ Hgeo) | done]).
    apply (concat_rankOrder (RouteOptimizer.groupOrdersByPriority geocoded)).
    + apply Forall2_same_length_lookup. split; [by eapply Forall2_length |].
      intros i [p g] route Hi Hi' o Ho.
      pose proof (Forall2_lookup_lr _ _ _ _ _ _ Hroutes Hi Hi') as Hp. simpl in Hp.
      rewrite Hp in Ho.
      destruct (Hmembers p g (list_elem_of_lookup_2 _ _ _ Hi)) as (_ & Hg).
      rewrite Hg in Ho. by apply list_elem_of_filter in Ho as (Ho & _).
    + apply groups_keys_descend; [constructor | | done].
      apply Forall_forall. intros o _. constructor.
  - by rewrite Halg.
  - by rewrite Hdur, Hlen.
  - by rewrite Hdist, Hlen.
  - done.
  - by rewrite Htotal, Hlen.
  - done.
Qed.

Lemma before_rankOrder a b : before a b -> rankOrder a b.
Proof. unfold before, rankOrder. lia. Qed.

Lemma sort_rankOrder orders :
  StronglySorted rankOrder (Js.sort RouteOptimizer.byPriorityThenAge orders).
Proof.
  eapply StronglySorted_impl; [| apply (sort_sorted RouteOptimizer.byPriorityThenAge)].
  - intros a b H. by apply before_rankOrder, byPriorityThenAge_before.
  - apply byPriorityThenAge_total.
  - apply byPriorityThenAge_trans.
Qed.

Lemma emit_run e w : emit e w = (Returned tt, after (emit e) w).
Proof. reflexivity. Qed.

(** X5.  With [includeTraffic] or [useCoordinates] set,
    [priorityBasedOptimization] takes the priority-with-distance route and
    raises nothing.  Its sequence holds every order once (coordinates
    apart) and never puts an order before one of higher priority: distance
    reorders within a priority only.  The figures it reports are the
    nominal 15 minutes and 5 km an order, and [realDistanceCalculated] is
    absent, though the distance provider may have been asked. *)
Theorem priority_dominates_distance (orders : list Order) (options : Options.t) (w : World) :
  Options.truthy (Options.includeTraffic options)
  || Options.truthy (Options.useCoordinates options) = true ->
  exists result w',
    RouteOptimizer.priorityBasedOptimization orders options w = (Returned result, w')
    /\ Result.algorithm result = "PRIORITY_WITH_DISTANCE"%string
    /\ map forget (ordersOf (Result.optimizedSequence result)) ≡ₚ map forget orders
    /\ StronglySorted
         (fun a b => priorityValues (priority b) <= priorityValues (priority a))
         (ordersOf (Result.optimizedSequence result))
    /\ (Result.estimatedDuration result, Result.estimatedDistance result,
        Result.realDistanceCalculated result)
       = (Js.numberToString (Z.of_nat (length orders) * 15) +:+ " minutes",
          Js.numberToString (Z.of_nat (length orders) * 5) +:+ " km", None).
Proof.
  intros Hopt. unfold RouteOptimizer.priorityBasedOptimization.
  unfold bind. rewrite emit_run. cbv beta iota zeta. rewrite Hopt.
  rewrite tryCatch_returns by apply priorityWithDistance_returns.
  destruct (priorityWithDistance_spec (Js.sort RouteOptimizer.byPriorityThenAge orders)
              options (after (emit (Ran "priorityBasedOptimization")) w))
    as (result & w' & E & Hperm & Hsorted & Halg & Hdur & Hdist & Hreal & _).
  exists result, w'. split; [done |]. split; [done |].
  pose proof (sort_perm RouteOptimizer.byPriorityThenAge orders) as Hp.
  split_and!.
  - by rewrite Hperm, Hp.
  - apply Hsorted, sort_rankOrder.
  - by rewrite Hdur, Hdist, Hreal, (Permutation_length Hp).
Qed.

Lemma priority_dominates_distance_witness :
  Options.truthy (Options.includeTraffic trafficAware)
  || Options.truthy (Options.useCoordinates trafficAware) = true
  /\ exists result w',
       RouteOptimizer.priorityBasedOptimization fourStops trafficAware city
       = (Returned result, w')
       /\ Result.algorithm result = "PRIORITY_WITH_DISTANCE"%string.
Proof.
  split; [reflexivity |].
  destruct (priority_dominates_distance fourStops trafficAware city eq_refl)
    as (result & w' & E & Halg & _).
  exists result, w'. by split.
Defined.

(* ===================================================================== *)
(** * Every order once *)
(* ===================================================================== *)

Lemma format_sequences optimizedOrders metadata w result w' orders :
  RouteOptimizer.formatOptimizationResult optimizedOrders metadata w = (Returned result, w') ->
  map forget optimizedOrders ≡ₚ map forget orders ->
  sequences orders result.
Proof.
  intros E Hp.
  assert (Hlen : length optimizedOrders = length orders).
  { apply Permutation_length in Hp. by rewrite !length_map in Hp. }
  unfold RouteOptimizer.formatOptimizationResult, bind, newDate in E.
  destruct (Metadata.distanceData metadata); injection E as <- <-;
    unfold sequences; cbn [Result.optimizedSequence Result.totalOrders Result.success];
    rewrite ordersOf_sequenced, Hlen; by split_and!.
Qed.

Lemma priorityWithDistance_sequences orders options w result w' :
  RouteOptimizer.priorityWithDistanceOptimization orders options w = (Returned result, w') ->
  sequences orders result.
Proof.
  unfold RouteOptimizer.priorityWithDistanceOptimization. intros H.
  apply bind_returned in H as ([] & w0 & _ & H).
  apply bind_returned in H as (geocoded & w1 & Egeo & H).
  apply bind_returned in H as (routes & w2 & Eroutes & H).
  destruct (geocodeOrders_spec orders w0) as (geocoded' & w1' & Egeo' & Hgeo).
  rewrite Egeo' in Egeo. injection Egeo as -> ->.
  destruct (optimizedGroups_spec options (RouteOptimizer.groupOrdersByPriority geocoded) w1)
    as (routes' & w2' & Eroutes' & Hroutes).
  rewrite Eroutes' in Eroutes. injection Eroutes as -> ->.
  eapply format_sequences; [exact H |].
  destruct (groupOrdersByPriority_spec geocoded) as (Hconcat & _).
  rewrite <- (geocodedFrom_forget _ _ Hgeo). apply Permutation_map.
  rewrite <- Hconcat. apply concat_perm. apply Forall2_fmap_l.
  eapply Forall2_impl; [exact Hroutes |]. by intros [p g] route.
Qed.

Lemma priorityBased_sequences orders options w result w' :
  RouteOptimizer.priorityBasedOptimization orders options w = (Returned result, w') ->
  sequences orders result.
Proof.
  unfold RouteOptimizer.priorityBasedOptimization. intros H.
  apply bind_returned in H as ([] & w0 & _ & H).
  apply tryCatch_returned in H as [H | (e & w1 & _ & H)]; [| discriminate H].
  cbv zeta in H.
  pose proof (sort_perm RouteOptimizer.byPriorityThenAge orders) as Hp.
  destruct (_ || _).
  - apply priorityWithDistance_sequences in H. destruct H as (H1 & H2 & H3 & H4).
    split_and!; [by rewrite H1, Hp | done | by rewrite H3, (Permutation_length Hp) | done].
  - eapply format_sequences; [exact H |]. by rewrite Hp.
Qed.

Lemma nearestNeighborWithPriority_perm orders distances options :
  orders <> [] ->
  RouteOptimizer.definedOrders
    (RouteOptimizer.nearestNeighborWithPriority orders distances options)
  ≡ₚ orders.
Proof.
  intros Hne.
  destruct (nearestNeighbor_route orders distances options Hne) as (first & rest & E & Hp & _).
  by rewrite E, definedOrders_map_Some.
Qed.

Lemma nearestNeighbor_sequences orders options w result w' :
  RouteOptimizer.nearestNeighborOptimization orders options w = (Returned result, w') ->
  sequences orders result.
Proof.
  unfold RouteOptimizer.nearestNeighborOptimization. intros H.
  apply bind_returned in H as ([] & w0 & _ & H).
  apply tryCatch_returned in H as [H | (e & w1 & _ & H)];
    [| by eapply priorityBased_sequences].
  apply bind_returned in H as (geocoded & w1 & Egeo & H).
  destruct (geocodeOrders_spec orders w0) as (geocoded' & w1' & Egeo' & Hgeo).
  rewrite Egeo' in Egeo. injection Egeo as -> ->.
  cbv zeta in H.
  destruct (Nat.ltb_spec (length (RouteOptimizer.deliveryPointsOf geocoded)) 2) as [| Hge];
    [by eapply priorityBased_sequences |].
  apply bind_returned in H as (data & w2 & _ & H).
  eapply format_sequences; [exact H |].
  rewrite <- (geocodedFrom_forget _ _ Hgeo). apply Permutation_map.
  apply nearestNeighborWithPriority_perm. by apply deliveryPoints_nonempty.
Qed.

Lemma genetic_sequences orders options w result w' :
  RouteOptimizer.geneticAlgorithmOptimization orders options w = (Returned result, w') ->
  sequences orders result.
Proof.
  unfold RouteOptimizer.geneticAlgorithmOptimization. intros H.
  apply bind_returned in H as ([] & w0 & _ & H).
  apply tryCatch_returned in H as [H | (e & w1 & _ & H)];
    [| by eapply nearestNeighbor_sequences].
  apply bind_returned in H as (geocoded & w1 & Egeo & H).
  destruct (geocodeOrders_spec orders w0) as (geocoded' & w1' & Egeo' & Hgeo).
  rewrite Egeo' in Egeo. injection Egeo as -> ->.
  cbv zeta in H.
  destruct (Nat.ltb_spec (length (RouteOptimizer.deliveryPointsOf geocoded)) 2) as [| Hge];
    [by eapply priorityBased_sequences |].
  apply bind_returned in H as (data & w2 & _ & H).
  destruct (selectBest_least
              (map (RouteOptimizer.attempt geocoded (distances data))
                 RouteOptimizer.parameterSets))
    as (best & Ebest & Hin & _); [done |].
  rewrite Ebest in H.
  eapply format_sequences; [exact H |].
  rewrite <- (geocodedFrom_forget _ _ Hgeo). apply Permutation_map.
  apply list_elem_of_fmap in Hin as (weights & -> & _).
  apply nearestNeighborWithPriority_perm. by apply deliveryPoints_nonempty.
Qed.

Lemma dispatch_sequences selected orders options w result w' :
  RouteOptimizer.dispatch selected orders options w = (Returned result, w') ->
  sequences orders result.
Proof.
  unfold RouteOptimizer.dispatch.
  repeat destruct (decide _);
    [apply priorityBased_sequences | apply nearestNeighbor_sequences
    | apply genetic_sequences | |].
  - rewrite orTools_is_genetic. apply genetic_sequences.
  - rewrite hybrid_bySize. unfold bySize.
    repeat destruct (_ <=? _);
      [apply priorityBased_sequences | apply nearestNeighbor_sequences
      | apply genetic_sequences].
Qed.

Lemma optimizeRoute_sequences orders options w result w' :
  RouteOptimizer.optimizeRoute orders options w = (Returned result, w') ->
  sequences orders result.
Proof.
  unfold RouteOptimizer.optimizeRoute. intros H.
  apply tryCatch_returned in H as [H | (e & w1 & _ & H)]; [| discriminate H].
  cbv zeta in H. destruct orders as [|o [|o' orders]]; [discriminate H | |].
  - eapply format_sequences; [exact H | done].
  - by eapply dispatch_sequences.
Qed.

Lemma optimizeRoute_returns orders options w :
  orders <> [] ->
  exists result w', RouteOptimizer.optimizeRoute orders options w = (Returned result, w').
Proof.
  intros Hne. destruct orders as [|o [|o' orders]]; [done | |].
  - destruct (single_order_result o options w) as (result & E & _). by exists result, w.
  - rewrite optimizeRoute_dispatch by (simpl; lia). apply dispatch_returns.
Qed.

(** X6.  [RouteOptimizer.optimizeRoute] raises exactly when it is given no
    order, and then with the message "Failed to optimize route: No orders
    provided for optimization" and an unchanged world.  For one order or
    more, whatever the algorithm requested and whatever the providers
    answer, it returns a successful result whose sequence holds every
    order exactly once (coordinates apart; in particular the ids are a
    permutation of the ids given), numbered 1, 2, ... in sequence, with
    the nominal delivery time of 15 minutes a position, and
    [totalOrders] is the number of orders. *)
Theorem optimizer_keeps_every_order (orders : list Order) (options : Options.t) (w : World) :
  (orders = [] ->
   RouteOptimizer.optimizeRoute orders options w
   = (Thrown (Error "Failed to optimize route: No orders provided for optimization"), w))
  /\ (orders <> [] ->
      exists result w',
        RouteOptimizer.optimizeRoute orders options w = (Returned result, w')
        /\ Result.success result = true
        /\ Result.totalOrders result = Z.of_nat (length orders)
        /\ map forget (ordersOf (Result.optimizedSequence result)) ≡ₚ map forget orders
        /\ map id (ordersOf (Result.optimizedSequence result)) ≡ₚ map id orders
        /\ forall i stop,
             Result.optimizedSequence result !! i = Some stop ->
             sequenceNumber stop = Z.of_nat i + 1
             /\ estimatedDeliveryTime stop
                = Js.numberToString ((Z.of_nat i + 1) * 15) +:+ " minutes").
Proof.
  split; [by intros -> |]. intros Hne.
  destruct (optimizeRoute_returns orders options w Hne) as (result & w' & E).
  exists result, w'. split; [done |].
  destruct (optimizeRoute_sequences _ _ _ _ _ E) as (Hp & Hseq & Htotal & Hsuccess).
  split_and!; try done.
  - assert (Eid : forall l : list Order, map id l = map id (map forget l)).
    { intros l. rewrite map_map. by apply map_ext. }
    by rewrite (Eid (ordersOf _)), Hp, <- Eid.
  - intros i stop Hi. rewrite Hseq in Hi.
    apply list_lookup_imap_Some in Hi as (o & _ & ->). by split.
Qed.

(** X7.  An algorithm name that is none of the four heuristic names, such
    as the "HYBRID" in capitals that the service passes by default, is no
    error: for two orders or more the optimizer selects by size, the
    priority sort up to 3 orders, the nearest neighbour up to 10, the
    genetic routine beyond. *)
Theorem unknown_algorithm_selects_by_size (requested : string) (orders : list Order)
    (options : Options.t) (w : World) :
  Options.algorithm options = Some requested ->
  requested ∉ [RouteOptimizer.PRIORITY_BASED; RouteOptimizer.NEAREST_NEIGHBOR;
               RouteOptimizer.GENETIC_ALGORITHM; RouteOptimizer.OR_TOOLS_VRP] ->
  (2 <= length orders)%nat ->
  RouteOptimizer.optimizeRoute orders options w
  = if (length orders <=? 3)%nat
    then RouteOptimizer.priorityBasedOptimization orders options w
    else if (length orders <=? 10)%nat
         then RouteOptimizer.nearestNeighborOptimization orders options w
         else RouteOptimizer.geneticAlgorithmOptimization orders options w.
Proof.
  intros Halg Hreq Hlen.
  rewrite optimizeRoute_dispatch by done. rewrite Halg. cbn [default].
  rewrite dispatch_unforced by done. unfold bySize.
  destruct (Nat.leb_spec (length orders) 3), (Z.leb_spec (Z.of_nat (length orders)) 3);
    try lia; [done |].
  destruct (Nat.leb_spec (length orders) 10), (Z.leb_spec (Z.of_nat (length orders)) 10);
    try lia; done.
Qed.

Lemma unknown_algorithm_selects_by_size_witness :
  Options.algorithm capitals = Some "HYBRID"%string
  /\ ("HYBRID"%string ∉ [RouteOptimizer.PRIORITY_BASED; RouteOptimizer.NEAREST_NEIGHBOR;
                         RouteOptimizer.GENETIC_ALGORITHM; RouteOptimizer.OR_TOOLS_VRP])
  /\ (2 <= length fourStops)%nat
  /\ RouteOptimizer.optimizeRoute fourStops capitals city
     = RouteOptimizer.nearestNeighborOptimization fourStops capitals city.
Proof.
  assert (H : "HYBRID"%string ∉ [RouteOptimizer.PRIORITY_BASED; RouteOptimizer.NEAREST_NEIGHBOR;
                                 RouteOptimizer.GENETIC_ALGORITHM; RouteOptimizer.OR_TOOLS_VRP]).
  { rewrite !not_elem_of_cons. split_and!; try discriminate. apply not_elem_of_nil. }
  assert (Hlen : (2 <= length fourStops)%nat) by (simpl; lia).
  split; [reflexivity |]. split; [exact H |]. split; [exact Hlen |].
  exact (unknown_algorithm_selects_by_size "HYBRID" fourStops capitals city eq_refl H Hlen).
Defined.

(* ===================================================================== *)
(** * What a computation leaves alone *)
(* ===================================================================== *)

Lemma extends_refl w : extends w w.
Proof. split_and!; try done. exists []. by rewrite app_nil_r. Qed.

Lemma extends_trans w1 w2 w3 : extends w1 w2 -> extends w2 w3 -> extends w1 w3.
Proof.
  intros (H1 & H2 & H3 & H4 & H5 & H6 & ev & H7) (K1 & K2 & K3 & K4 & K5 & K6 & ev' & K7).
  split_and!; try congruence.
  - by etrans.
  - exists (ev ++ ev'). by rewrite K7, H7, (assoc_L (++)).
Qed.

Lemma keeps_ret {A} (a : A) : keeps (ret a).
Proof. intros w. apply extends_refl. Qed.

Lemma keeps_throw {A} (e : JsError) : keeps (throw (A := A) e).
Proof. intros w. apply extends_refl. Qed.

Lemma keeps_bind {A B} (m : M A) (k : A -> M B) :
  keeps m -> (forall a, keeps (k a)) -> keeps (x <- m ;; k x).
Proof.
  intros Hm Hk w. specialize (Hm w). unfold after, bind in *.
  destruct (m w) as [[a | e] w1]; [| done].
  eapply extends_trans; [exact Hm | exact (Hk a w1)].
Qed.

Lemma keeps_tryCatch {A} (m : M A) (handler : JsError -> M A) :
  keeps m -> (forall e, keeps (handler e)) -> keeps (tryCatch m handler).
Proof.
  intros Hm Hh w. specialize (Hm w). unfold after, tryCatch in *.
  destruct (m w) as [[a | e] w1]; [done |].
  eapply extends_trans; [exact Hm | exact (Hh e w1)].
Qed.

Lemma keeps_forEachM {A B} (f : A -> M B) l : (forall x, keeps (f x)) -> keeps (forEachM f l).
Proof.
  intros Hf. induction l as [|x l IH]; [apply keeps_ret |].
  cbn [forEachM]. apply keeps_bind; [apply Hf | intros y].
  apply keeps_bind; [apply IH | intros ys; apply keeps_ret].
Qed.

Lemma keeps_forEachIndexed {A B} (f : nat -> A -> M B) l :
  (forall i x, keeps (f i x)) -> forall i, keeps (DistanceMatrix.forEachIndexed f i l).
Proof.
  intros Hf. induction l as [|x l IH]; intros i; [apply keeps_ret |].
  cbn [DistanceMatrix.forEachIndexed]. apply keeps_bind; [apply Hf | intros y].
  apply keeps_bind; [apply IH | intros ys; apply keeps_ret].
Qed.

Lemma keeps_emit e : keeps (emit e).
Proof.
  intros w. split_and!; try done. by exists [e].
Qed.

Lemma keeps_newDate : keeps newDate.
Proof. intros w. apply extends_refl. Qed.

Lemma keeps_getWorld : keeps getWorld.
Proof. intros w. apply extends_refl. Qed.

Lemma keeps_geocodeAddress address : keeps (Geocoder.geocodeAddress address).
Proof.
  intros w. unfold after.
  destruct (addressGeoCache w !! Geocoder.createAddressHash address) as [row |] eqn:E.
  { rewrite (geocode_hit _ _ _ E). apply extends_refl. }
  unfold Geocoder.geocodeAddress, Geocoder.getCachedCoordinates, Geocoder.cacheCoordinates.
  set (h := Geocoder.createAddressHash address) in *.
  set (a := Geocoder.extractAreaFromAddress address).
  set (g := Geocoder.extractGovernorateFromAddress address).
  unfold tryCatch, bind, getWorld, emit, newDate, setAddressGeoCache, ret, throw.
  cbv beta iota zeta. rewrite E. cbv beta iota zeta. cbn [geocodingApi].
  destruct (geocodingApi w address) as [| st results].
  { split_and!; try done. by eexists [_]. }
  destruct (if decide (st = "OK"%string) then head results else None) as [r |];
    cbv beta iota zeta; world_projections; rewrite E; cbn [snd]; world_projections;
    (split_and!; try done; [by apply insert_subseteq | by eexists [_]]).
Qed.

Create HintDb keeps.

Ltac keeps_step :=
  first
    [ apply keeps_ret | apply keeps_throw | apply keeps_emit | apply keeps_newDate
    | apply keeps_getWorld | apply keeps_geocodeAddress
    | solve [auto with keeps]
    | apply keeps_forEachM; intros ?
    | apply keeps_forEachIndexed; intros ? ?
    | apply keeps_bind; [| intros ?]
    | apply keeps_tryCatch; [| intros ?]
    | match goal with
      | |- keeps (if ?b then _ else _) => destruct b
      | |- keeps (match ?x with _ => _ end) => destruct x
      | |- keeps (let '(_, _) := ?x in _) => destruct x
      end ].

Lemma keeps_geocodeOrders orders : keeps (RouteOptimizer.geocodeOrders orders).
Proof.
  unfold RouteOptimizer.geocodeOrders, RouteOptimizer.geocodeOrder. repeat keeps_step.
Qed.
#[local] Hint Resolve keeps_geocodeOrders : keeps.

Lemma keeps_calculateDeliveryDistances points :
  keeps (DistanceMatrix.calculateDeliveryDistances points).
Proof.
  unfold DistanceMatrix.calculateDeliveryDistances, DistanceMatrix.calculateDistanceMatrix,
    DistanceMatrix.processDistanceMatrixResponse, DistanceMatrix.formatForRouteOptimization,
    DistanceMatrix.processElement, DistanceMatrix.formatElement.
  repeat keeps_step.
Qed.
#[local] Hint Resolve keeps_calculateDeliveryDistances : keeps.

Lemma keeps_format optimizedOrders metadata :
  keeps (RouteOptimizer.formatOptimizationResult optimizedOrders metadata).
Proof. unfold RouteOptimizer.formatOptimizationResult. repeat keeps_step. Qed.
#[local] Hint Resolve keeps_format : keeps.

Lemma keeps_nearestNeighborForGroup orders options :
  keeps (RouteOptimizer.nearestNeighborForGroup orders options).
Proof. unfold RouteOptimizer.nearestNeighborForGroup. repeat keeps_step. Qed.
#[local] Hint Resolve keeps_nearestNeighborForGroup : keeps.

Lemma keeps_priorityWithDistance orders options :
  keeps (RouteOptimizer.priorityWithDistanceOptimization orders options).
Proof. unfold RouteOptimizer.priorityWithDistanceOptimization. repeat keeps_step. Qed.
#[local] Hint Resolve keeps_priorityWithDistance : keeps.

Lemma keeps_priorityBased orders options :
  keeps (RouteOptimizer.priorityBasedOptimization orders options).
Proof. unfold RouteOptimizer.priorityBasedOptimization. repeat keeps_step. Qed.
#[local] Hint Resolve keeps_priorityBased : keeps.

Lemma keeps_nearestNeighbor orders options :
  keeps (RouteOptimizer.nearestNeighborOptimization orders options).
Proof. unfold RouteOptimizer.nearestNeighborOptimization. repeat keeps_step. Qed.
#[local] Hint Resolve keeps_nearestNeighbor : keeps.

Lemma keeps_genetic orders options :
  keeps (RouteOptimizer.geneticAlgorithmOptimization orders options).
Proof. unfold RouteOptimizer.geneticAlgorithmOptimization. repeat keeps_step. Qed.
#[local] Hint Resolve keeps_genetic : keeps.

Lemma keeps_optimizeRoute orders options :
  keeps (RouteOptimizer.optimizeRoute orders options).
Proof.
  unfold RouteOptimizer.optimizeRoute, RouteOptimizer.dispatch,
    RouteOptimizer.createSingleOrderRoute, RouteOptimizer.orToolsVrpOptimization,
    RouteOptimizer.hybridOptimization.
  repeat keeps_step.
Qed.

(** X8.  [RouteOptimizer.optimizeRoute] writes nothing but new rows of the
    geocode cache: whether it returns or raises, the order table, the
    saved optimisation states and the clock are as before, every row the
    cache had is still there unchanged, and the trace has only grown. *)
Theorem optimizer_only_adds (orders : list Order) (options : Options.t) (w : World) :
  let w' := after (RouteOptimizer.optimizeRoute orders options) w in
  orderTable w' = orderTable w
  /\ routeOptimization w' = routeOptimization w
  /\ clock w' = clock w
  /\ (forall key row, addressGeoCache w !! key = Some row ->
                      addressGeoCache w' !! key = Some row)
  /\ exists events, trace w' = trace w ++ events.
Proof.
  destruct (keeps_optimizeRoute orders options w) as (H1 & H2 & _ & _ & H5 & H6 & H7).
  cbv zeta. split_and!; try done.
  intros key row Hrow. by eapply lookup_weaken.
Qed.

(* ===================================================================== *)
(** * Recalculation *)
(* ===================================================================== *)

Lemma basic_sequences orders :
  sequences orders (RouteService.applyBasicOptimizationAlgorithm orders).
Proof.
  pose proof (sort_perm RouteOptimizer.byPriorityThenAge orders) as Hp.
  unfold sequences, RouteService.applyBasicOptimizationAlgorithm.
  cbn [Result.optimizedSequence Result.totalOrders Result.success].
  rewrite ordersOf_sequenced. split_and!; try done.
  - by rewrite Hp.
  - by rewrite (Permutation_length Hp).
Qed.

Lemma optimization_stage orders (maps : bool) (count : Z) options w :
  exists result w1,
    (if maps && (1 <? count) then
       tryCatch (RouteOptimizer.optimizeRoute orders options)
         (fun _ =>
            emit (Ran "applyBasicOptimizationAlgorithm") ;;;
            ret (RouteService.applyBasicOptimizationAlgorithm orders))
     else
       emit (Ran "applyBasicOptimizationAlgorithm") ;;;
       ret (RouteService.applyBasicOptimizationAlgorithm orders)) w
    = (Returned result, w1)
    /\ extends w w1
    /\ sequences orders result.
Proof.
  assert (Hbasic : forall w0,
            extends w w0 ->
            exists result w1,
              (emit (Ran "applyBasicOptimizationAlgorithm") ;;;
               ret (RouteService.applyBasicOptimizationAlgorithm orders)) w0
              = (Returned result, w1)
              /\ extends w w1 /\ sequences orders result).
  { intros w0 Hw0. eexists _, _. split; [reflexivity |]. split; [| apply basic_sequences].
    eapply extends_trans; [exact Hw0 |]. apply (keeps_emit _ w0). }
  destruct (maps && (1 <? count)); [| apply Hbasic, extends_refl].
  unfold tryCatch.
  pose proof (keeps_optimizeRoute orders options w) as Hk. unfold after in Hk.
  destruct (RouteOptimizer.optimizeRoute orders options w) as [[result | e] w1] eqn:E.
  - exists result, w1. split; [done |]. split; [done |]. by eapply optimizeRoute_sequences.
  - by apply Hbasic.
Qed.

Lemma stringOr_truthy s fallback :
  fallback <> EmptyString -> RouteService.stringOr s fallback <> EmptyString.
Proof.
  intros Hf. unfold RouteService.stringOr, RouteOptimizer.truthyString.
  destruct (bool_decide_reflect (s = EmptyString)); simpl; [done | done].
Qed.

Lemma recalculate_spec driver ordersResult force traffic maps algorithm w :
  RouteService.count ordersResult = Z.of_nat (length (RouteService.ordersData ordersResult)) ->
  exists response data row w',
    RouteService.recalculate driver ordersResult force traffic maps algorithm w
    = (Returned response, w')
    /\ RouteService.Response.success response = true
    /\ RouteService.Response.message response = "Route optimized successfully"%string
    /\ RouteService.Response.data response = Some data
    /\ RouteService.Data.fromCache data = None
    /\ RouteService.Data.routeOptimized data = true
    /\ RouteService.Data.totalOrders data = RouteService.count ordersResult
    /\ (exists sequence,
          RouteService.Data.optimizedSequence data = Some sequence
          /\ map forget (ordersOf sequence) ≡ₚ map forget (RouteService.ordersData ordersResult))
    /\ routeOptimization w' = <[driver := row]> (routeOptimization w)
    /\ Db.routeOptimized row = true
    /\ (Db.optimizedAt row, Db.estimatedDuration row, Db.estimatedDistance row)
       = (RouteService.Data.optimizedAt data, RouteService.Data.estimatedDuration data,
          RouteService.Data.estimatedDistance data)
    /\ RouteService.Data.optimizedAt data = Some (clock w)
    /\ (exists duration distance,
          RouteService.Data.estimatedDuration data = Some duration
          /\ RouteService.Data.estimatedDistance data = Some distance
          /\ duration <> EmptyString /\ distance <> EmptyString)
    /\ orderTable w' = orderTable w
    /\ (forall key row, addressGeoCache w !! key = Some row ->
                        addressGeoCache w' !! key = Some row)
    /\ exists events, trace w' = trace w ++ events.
Proof.
  intros Hcount. unfold RouteService.recalculate.
  match goal with
  | |- context [RouteOptimizer.optimizeRoute _ ?o] =>
      destruct (optimization_stage (RouteService.ordersData ordersResult) maps
                  (RouteService.count ordersResult) o w)
        as (result & w1 & E & Hext & Hseq)
  end.
  unfold bind at 1. rewrite E.
  destruct Hext as (H1 & H2 & _ & _ & H5 & H6 & H7).
  destruct Hseq as (Hp & _ & Htotal & _).
  unfold bind, newDate, getWorld, setRouteOptimization, ret. cbv beta iota zeta.
  eexists _, _, _, _. split; [reflexivity |].
  split; [reflexivity |]. split; [reflexivity |]. split; [reflexivity |].
  cbn [RouteService.Response.success RouteService.Response.message
       RouteService.Response.data RouteService.Data.fromCache
       RouteService.Data.routeOptimized RouteService.Data.totalOrders
       RouteService.Data.optimizedSequence RouteService.Data.optimizedAt
       RouteService.Data.estimatedDuration RouteService.Data.estimatedDistance
       Db.routeOptimized Db.optimizedAt Db.estimatedDuration Db.estimatedDistance
       routeOptimization orderTable addressGeoCache trace].
  split_and!; try done.
  - rewrite Htotal, <- Hcount. by destruct (_ =? _) eqn:Ez; [apply Z.eqb_eq in Ez |].
  - by eexists.
  - by rewrite H2.
  - reflexivity.
  - reflexivity.
  - by rewrite H5.
  - do 2 eexists. split; [reflexivity |]. split; [reflexivity |].
    split; apply stringOr_truthy; by destruct (Js.numberToString _).
  - intros key row Hrow. by eapply lookup_weaken.
Qed.

Lemma pickedUpOrders_orderTable driver w w' :
  orderTable w' = orderTable w -> pickedUpOrders driver w' = pickedUpOrders driver w.
Proof. unfold pickedUpOrders. by intros ->. Qed.

Lemma optimize_miss driver options w :
  pickedUpOrders driver w <> [] ->
  recalculates driver options w ->
  RouteService.optimizeRoute driver options w
  = RouteService.recalculate driver
      {| RouteService.ordersSuccess := true;
         RouteService.ordersData := pickedUpOrders driver w;
         RouteService.count := Z.of_nat (length (pickedUpOrders driver w)) |}
      (default false (RouteService.Request.forceRecalculate options))
      (default false (RouteService.Request.includeTraffic options))
      (default true (RouteService.Request.useGoogleMaps options))
      (default "HYBRID"%string (RouteService.Request.algorithm options)) w.
Proof.
  intros Hne Hre.
  set (ordersResult := {| RouteService.ordersSuccess := true;
                          RouteService.ordersData := pickedUpOrders driver w;
                          RouteService.count := Z.of_nat (length (pickedUpOrders driver w)) |}).
  destruct (recalculate_spec driver ordersResult
              (default false (RouteService.Request.forceRecalculate options))
              (default false (RouteService.Request.includeTraffic options))
              (default true (RouteService.Request.useGoogleMaps options))
              (default "HYBRID"%string (RouteService.Request.algorithm options)) w eq_refl)
    as (response & data & row & w' & E & _).
  unfold RouteService.optimizeRoute.
  match goal with
  | |- tryCatch ?body _ _ = ?recalculation =>
      assert (Hbody : body w = recalculation)
  end.
  { unfold bind at 1. rewrite getDriverPickedUpOrders_spec. fold ordersResult.
    cbv zeta.
    change (RouteService.count ordersResult)
      with (Z.of_nat (length (pickedUpOrders driver w))).
    destruct (Z.eqb_spec (Z.of_nat (length (pickedUpOrders driver w))) 0) as [Ez | _].
    { destruct (pickedUpOrders driver w); [done | simpl in Ez; lia]. }
    unfold bind at 1, getWorld.
    destruct Hre as [Hforce | Hrow].
    - by rewrite Hforce.
    - destruct (default false (RouteService.Request.forceRecalculate options)); [done |].
      destruct (routeOptimization w !! driver) as [existing |]; [| done].
      simpl in Hrow. by rewrite Hrow. }
  unfold tryCatch. rewrite Hbody. by rewrite E.
Qed.

(** What a call that recalculates answers and saves. *)
Lemma optimize_miss_spec driver options w :
  pickedUpOrders driver w <> [] ->
  recalculates driver options w ->
  exists response data row w',
    RouteService.optimizeRoute driver options w = (Returned response, w')
    /\ RouteService.Response.success response = true
    /\ RouteService.Response.message response = "Route optimized successfully"%string
    /\ RouteService.Response.data response = Some data
    /\ RouteService.Data.fromCache data = None
    /\ RouteService.Data.totalOrders data = Z.of_nat (length (pickedUpOrders driver w))
    /\ (exists sequence,
          RouteService.Data.optimizedSequence data = Some sequence
          /\ map forget (ordersOf sequence) ≡ₚ map forget (pickedUpOrders driver w))
    /\ routeOptimization w' = <[driver := row]> (routeOptimization w)
    /\ orderTable w' = orderTable w
    /\ Db.routeOptimized row = true
    /\ (Db.optimizedAt row, Db.estimatedDuration row, Db.estimatedDistance row)
       = (RouteService.Data.optimizedAt data, RouteService.Data.estimatedDuration data,
          RouteService.Data.estimatedDistance data)
    /\ RouteService.Data.optimizedAt data = Some (clock w)
    /\ (exists duration distance,
          RouteService.Data.estimatedDuration data = Some duration
          /\ RouteService.Data.estimatedDistance data = Some distance
          /\ duration <> EmptyString /\ distance <> EmptyString).
Proof.
  intros Hne Hre. rewrite (optimize_miss driver options w Hne Hre).
  destruct (recalculate_spec driver
              {| RouteService.ordersSuccess := true;
                 RouteService.ordersData := pickedUpOrders driver w;
                 RouteService.count := Z.of_nat (length (pickedUpOrders driver w)) |}
              (default false (RouteService.Request.forceRecalculate options))
              (default false (RouteService.Request.includeTraffic options))
              (default true (RouteService.Request.useGoogleMaps options))
              (default "HYBRID"%string (RouteService.Request.algorithm options)) w eq_refl)
    as (response & data & row & w' & E & Hs & Hm & Hd & Hc & _ & Ht & Hseq & Hrow & Hopt
        & Hfig & Hat & Htruthy & Horders & _).
  exists response, data, row, w'. by split_and!.
Qed.

(** X9.  A call of the service's [optimizeRoute] that recalculates (it is
    forced, or the driver has no saved state, or the saved state is not
    marked optimised), for a driver with a picked-up order, raises nothing
    and answers success without [fromCache]; the sequence it returns holds
    each picked-up order once and [totalOrders] is their number.  It
    saves for the driver, and for no one else, a row marked optimised with
    the [optimizedAt], [estimatedDuration] and [estimatedDistance] of the
    answer, [optimizedAt] being the time of the call, and leaves the order
    table alone.  So every unforced call that follows is answered from
    that row. *)
Theorem recalculation_is_saved (driver : string) (options : RouteService.Request.t)
    (w : World) :
  pickedUpOrders driver w <> [] ->
  recalculates driver options w ->
  exists response data row w',
    RouteService.optimizeRoute driver options w = (Returned response, w')
    /\ RouteService.Response.success response = true
    /\ RouteService.Response.data response = Some data
    /\ RouteService.Data.fromCache data = None
    /\ RouteService.Data.totalOrders data = Z.of_nat (length (pickedUpOrders driver w))
    /\ (exists sequence,
          RouteService.Data.optimizedSequence data = Some sequence
          /\ map forget (ordersOf sequence) ≡ₚ map forget (pickedUpOrders driver w))
    /\ routeOptimization w' = <[driver := row]> (routeOptimization w)
    /\ orderTable w' = orderTable w
    /\ Db.routeOptimized row = true
    /\ (Db.optimizedAt row, Db.estimatedDuration row, Db.estimatedDistance row)
       = (RouteService.Data.optimizedAt data, RouteService.Data.estimatedDuration data,
          RouteService.Data.estimatedDistance data)
    /\ RouteService.Data.optimizedAt data = Some (clock w)
    /\ forall second,
         unforced second ->
         RouteService.optimizeRoute driver second w'
         = (Returned (RouteService.fromCacheResponse driver
                        (Z.of_nat (length (pickedUpOrders driver w))) row), w').
Proof.
  intros Hne Hre.
  destruct (optimize_miss_spec driver options w Hne Hre)
    as (response & data & row & w' & E & Hs & _ & Hd & Hc & Ht & Hseq & Hrow & Horders & Hopt
        & Hfig & Hat & _).
  exists response, data, row, w'. split_and!; try done.
  intros second Hun.
  rewrite <- (pickedUpOrders_orderTable driver w w' Horders).
  apply optimize_from_cache; [| done | | done].
  - rewrite Hrow. apply lookup_insert_eq.
  - by rewrite (pickedUpOrders_orderTable driver w w' Horders).
Qed.

Lemma recalculation_is_saved_witness :
  pickedUpOrders "driver-1" city <> []
  /\ recalculates "driver-1" defaults city
  /\ exists response data row w',
       RouteService.optimizeRoute "driver-1" defaults city = (Returned response, w')
       /\ RouteService.Response.data response = Some data
       /\ routeOptimization w' !! "driver-1"%string = Some row
       /\ Db.estimatedDuration row = RouteService.Data.estimatedDuration data.
Proof.
  assert (H1 : pickedUpOrders "driver-1" city <> []) by (vm_compute; discriminate).
  assert (H2 : recalculates "driver-1" defaults city) by (right; reflexivity).
  split; [exact H1 |]. split; [exact H2 |].
  destruct (recalculation_is_saved "driver-1" defaults city H1 H2)
    as (response & data & row & w' & E & _ & Hd & _ & _ & _ & Hrow & _ & _ & Hfig & _).
  exists response, data, row, w'. split; [exact E |]. split; [exact Hd |]. split.
  - rewrite Hrow. apply lookup_insert_eq.
  - by injection Hfig.
Defined.

(** X10.  The service's [optimizeRoute] raises nothing, whatever the
    providers do.  It answers success exactly when the driver has a
    picked-up order; the failure answer has no data and changes nothing.
    The order table is never written, nor the saved state of any other
    driver. *)
Theorem optimize_never_raises (driver : string) (options : RouteService.Request.t)
    (w : World) :
  exists response w',
    RouteService.optimizeRoute driver options w = (Returned response, w')
    /\ (RouteService.Response.success response = true <-> pickedUpOrders driver w <> [])
    /\ (RouteService.Response.success response = false ->
        RouteService.Response.data response = None /\ w' = w)
    /\ orderTable w' = orderTable w
    /\ forall other, other <> driver ->
                     routeOptimization w' !! other = routeOptimization w !! other.
Proof.
  destruct (decide (pickedUpOrders driver w = [])) as [Hnil | Hne].
  { rewrite (optimize_without_orders driver options w Hnil).
    eexists _, _. split; [reflexivity |]. simpl. by split_and!. }
  assert (Hmiss : recalculates driver options w ->
            exists response w',
              RouteService.optimizeRoute driver options w = (Returned response, w')
              /\ (RouteService.Response.success response = true
                  <-> pickedUpOrders driver w <> [])
              /\ (RouteService.Response.success response = false ->
                  RouteService.Response.data response = None /\ w' = w)
              /\ orderTable w' = orderTable w
              /\ forall other, other <> driver ->
                               routeOptimization w' !! other = routeOptimization w !! other).
  { intros Hre.
    destruct (optimize_miss_spec driver options w Hne Hre)
      as (response & data & row & w' & E & Hs & _ & _ & _ & _ & _ & Hrow & Horders & _).
    exists response, w'. split; [done |]. rewrite Hs. split_and!; try done.
    intros other Hother. rewrite Hrow. by apply lookup_insert_ne. }
  destruct (default false (RouteService.Request.forceRecalculate options)) eqn:Hforce.
  { apply Hmiss. by left. }
  destruct (routeOptimization w !! driver) as [existing |] eqn:Hexisting.
  - destruct (Db.routeOptimized existing) eqn:Hopt.
    + rewrite (optimize_from_cache driver options w existing Hexisting Hopt Hne Hforce).
      eexists _, _. split; [reflexivity |]. simpl. by split_and!.
    + apply Hmiss. right. by rewrite Hexisting.
  - apply Hmiss. right. by rewrite Hexisting.
Qed.

Lemma getCurrentRoute_spec driver w :
  RouteService.getCurrentRoute driver w
  = (Returned
       {| RouteService.currentSuccess := true;
          RouteService.currentMessage := "Current route retrieved";
          RouteService.currentMessageAr := "تم استرجاع المسار الحالي";
          RouteService.currentData :=
            {| RouteService.Current.driverId := driver;
               RouteService.Current.routeOptimized :=
                 from_option Db.routeOptimized false (routeOptimization w !! driver);
               RouteService.Current.totalOrders := Z.of_nat (length (pickedUpOrders driver w));
               RouteService.Current.orders := pickedUpOrders driver w;
               RouteService.Current.optimizedAt :=
                 routeOptimization w !! driver ≫= Db.optimizedAt;
               RouteService.Current.estimatedDuration :=
                 RouteService.stringOrNull
                   (routeOptimization w !! driver ≫= Db.estimatedDuration);
               RouteService.Current.estimatedDistance :=
                 RouteService.stringOrNull
                   (routeOptimization w !! driver ≫= Db.estimatedDistance);
               RouteService.Current.optimizationData :=
                 routeOptimization w !! driver ≫= Db.optimizationData |} |}, w).
Proof. reflexivity. Qed.

Lemma stringOrNull_truthy s :
  s <> EmptyString -> RouteService.stringOrNull (Some s) = Some s.
Proof.
  intros Hs. unfold RouteService.stringOrNull, RouteOptimizer.truthyString. simpl.
  by rewrite bool_decide_eq_false_2.
Qed.

Lemma clear_state driver w :
  routeOptimization (after (RouteService.clearRouteOptimization driver) w)
  = delete driver (routeOptimization w)
  /\ orderTable (after (RouteService.clearRouteOptimization driver) w) = orderTable w
  /\ addressGeoCache (after (RouteService.clearRouteOptimization driver) w) = addressGeoCache w
  /\ trace (after (RouteService.clearRouteOptimization driver) w) = trace w
  /\ clock (after (RouteService.clearRouteOptimization driver) w) = clock w.
Proof.
  unfold after.
  destruct (routeOptimization w !! driver) as [row |] eqn:E.
  - unfold RouteService.clearRouteOptimization, RouteService.deleteRouteOptimization,
      tryCatch, bind, getWorld. rewrite E. by split_and!.
  - rewrite (clear_absent driver w E). cbn [snd]. split_and!; try done.
    by rewrite delete_id.
Qed.

(** X11.  After [clearRouteOptimization], [getCurrentRoute] reports the
    driver as not optimised, with [null] for [optimizedAt],
    [estimatedDuration], [estimatedDistance] and [optimizationData], and
    the same picked-up orders; and the next [optimizeRoute] of a driver
    with a picked-up order, forced or not, recalculates: "Route optimized
    successfully", no [fromCache], [optimizedAt] the time of the call, a
    new row marked optimised, the rows of the other drivers untouched. *)
Theorem clear_forces_recalculation (driver : string) (options : RouteService.Request.t)
    (w : World) :
  pickedUpOrders driver w <> [] ->
  let w0 := after (RouteService.clearRouteOptimization driver) w in
  (exists current,
     RouteService.getCurrentRoute driver w0 = (Returned current, w0)
     /\ RouteService.Current.routeOptimized (RouteService.currentData current) = false
     /\ (RouteService.Current.optimizedAt (RouteService.currentData current),
         RouteService.Current.estimatedDuration (RouteService.currentData current),
         RouteService.Current.estimatedDistance (RouteService.currentData current),
         RouteService.Current.optimizationData (RouteService.currentData current))
        = (None, None, None, None)
     /\ RouteService.Current.orders (RouteService.currentData current)
        = pickedUpOrders driver w)
  /\ exists response data row w',
       RouteService.optimizeRoute driver options w0 = (Returned response, w')
       /\ RouteService.Response.message response = "Route optimized successfully"%string
       /\ RouteService.Response.data response = Some data
       /\ RouteService.Data.fromCache data = None
       /\ RouteService.Data.optimizedAt data = Some (clock w)
       /\ routeOptimization w' !! driver = Some row
       /\ Db.routeOptimized row = true
       /\ forall other, other <> driver ->
                        routeOptimization w' !! other = routeOptimization w !! other.
Proof.
  intros Hne. cbv zeta.
  destruct (clear_state driver w) as (Hrows & Horders & _ & _ & Hclock).
  set (w0 := after (RouteService.clearRouteOptimization driver) w) in *.
  split.
  { eexists. rewrite getCurrentRoute_spec. split; [reflexivity |].
    cbn [RouteService.currentData RouteService.Current.routeOptimized
         RouteService.Current.optimizedAt RouteService.Current.estimatedDuration
         RouteService.Current.estimatedDistance RouteService.Current.totalOrders
         RouteService.Current.orders RouteService.Current.optimizationData].
    rewrite Hrows, lookup_delete_eq, (pickedUpOrders_orderTable driver w w0 Horders).
    by split_and!. }
  assert (Hne0 : pickedUpOrders driver w0 <> [])
    by (by rewrite (pickedUpOrders_orderTable driver w w0 Horders)).
  assert (Hre : recalculates driver options w0).
  { right. by rewrite Hrows, lookup_delete_eq. }
  destruct (optimize_miss_spec driver options w0 Hne0 Hre)
    as (response & data & row & w' & E & _ & Hm & Hd & Hc & _ & _ & Hrow & _ & Hopt & _
        & Hat & _).
  exists response, data, row, w'. split_and!; try done.
  - by rewrite Hat, Hclock.
  - rewrite Hrow. apply lookup_insert_eq.
  - intros other Hother. rewrite Hrow, Hrows.
    by rewrite lookup_insert_ne, lookup_delete_ne.
Qed.

Lemma clear_forces_recalculation_witness :
  pickedUpOrders "driver-1" busy <> []
  /\ routeOptimization busy !! "driver-1"%string = Some savedRow
  /\ exists response data,
       fst (RouteService.optimizeRoute "driver-1" defaults
              (after (RouteService.clearRouteOptimization "driver-1") busy))
       = Returned response
       /\ RouteService.Response.data response = Some data
       /\ RouteService.Data.fromCache data = None.
Proof.
  assert (H1 : pickedUpOrders "driver-1" busy <> []) by (vm_compute; discriminate).
  split; [exact H1 |]. split; [vm_compute; reflexivity |].
  destruct (clear_forces_recalculation "driver-1" defaults busy H1)
    as (_ & response & data & row & w' & E & _ & Hd & Hc & _).
  exists response, data. rewrite E. by split_and!.
Defined.

(** X12.  After an [optimizeRoute] that recalculates, [getCurrentRoute]
    shows what that call answered: [routeOptimized] true, the same
    [optimizedAt], [estimatedDuration] and [estimatedDistance], the same
    [totalOrders], and the picked-up orders of the driver.  It changes
    nothing. *)
Theorem current_route_shows_saved_figures (driver : string)
    (options : RouteService.Request.t) (w : World) :
  pickedUpOrders driver w <> [] ->
  recalculates driver options w ->
  exists response data current w',
    RouteService.optimizeRoute driver options w = (Returned response, w')
    /\ RouteService.Response.data response = Some data
    /\ RouteService.getCurrentRoute driver w' = (Returned current, w')
    /\ RouteService.Current.routeOptimized (RouteService.currentData current) = true
    /\ (RouteService.Current.optimizedAt (RouteService.currentData current),
        RouteService.Current.estimatedDuration (RouteService.currentData current),
        RouteService.Current.estimatedDistance (RouteService.currentData current))
       = (RouteService.Data.optimizedAt data, RouteService.Data.estimatedDuration data,
          RouteService.Data.estimatedDistance data)
    /\ RouteService.Current.totalOrders (RouteService.currentData current)
       = RouteService.Data.totalOrders data
    /\ RouteService.Current.orders (RouteService.currentData current)
       = pickedUpOrders driver w.
Proof.
  intros Hne Hre.
  destruct (optimize_miss_spec driver options w Hne Hre)
    as (response & data & row & w' & E & _ & _ & Hd & _ & Ht & _ & Hrow & Horders & Hopt
        & Hfig & _ & duration & distance & Hdur & Hdist & Hdur' & Hdist').
  eexists response, data, _, w'. split; [done |]. split; [done |].
  rewrite getCurrentRoute_spec. split; [reflexivity |].
  cbn [RouteService.currentData RouteService.Current.routeOptimized
       RouteService.Current.optimizedAt RouteService.Current.estimatedDuration
       RouteService.Current.estimatedDistance RouteService.Current.totalOrders
       RouteService.Current.orders].
  rewrite Hrow, lookup_insert_eq. cbn [from_option mbind option_bind].
  rewrite (pickedUpOrders_orderTable driver w w' Horders), Ht.
  injection Hfig as Hat Hd1 Hd2. rewrite Hd1, Hd2, Hat, Hdur, Hdist.
  rewrite !stringOrNull_truthy by done. by split_and!.
Qed.

Lemma current_route_shows_saved_figures_witness :
  pickedUpOrders "driver-1" city <> []
  /\ recalculates "driver-1" defaults city
  /\ exists response data current w',
       RouteService.optimizeRoute "driver-1" defaults city = (Returned response, w')
       /\ RouteService.Response.data response = Some data
       /\ RouteService.getCurrentRoute "driver-1" w' = (Returned current, w')
       /\ RouteService.Current.estimatedDuration (RouteService.currentData current)
          = RouteService.Data.estimatedDuration data.
Proof.
  assert (H1 : pickedUpOrders "driver-1" city <> []) by (vm_compute; discriminate).
  assert (H2 : recalculates "driver-1" defaults city) by (right; reflexivity).
  split; [exact H1 |]. split; [exact H2 |].
  destruct (current_route_shows_saved_figures "driver-1" defaults city H1 H2)
    as (response & data & current & w' & E & Hd & Ec & _ & Hfig & _).
  exists response, data, current, w'. split; [exact E |]. split; [exact Hd |].
  split; [exact Ec |]. by injection Hfig.
Defined.

(* ===================================================================== *)
(** * The basic algorithm *)
(* ===================================================================== *)

Lemma sort_sorted_id {A} (cmp : A -> A -> Z) l :
  StronglySorted (fun a b => cmp a b <= 0) l -> Js.sort cmp l = l.
Proof.
  induction 1 as [|x l Hs IH Hx]; [done |].
  unfold Js.sort in *. cbn [foldr]. rewrite IH.
  destruct l as [|y l]; [done |]. cbn [Js.sortInsert].
  apply Forall_cons in Hx as (Hxy & _).
  by destruct (Z.leb_spec (cmp x y) 0); [| lia].
Qed.

Lemma orderBy_byPriorityThenAge a b :
  RouteService.orderBy a b = RouteOptimizer.byPriorityThenAge a b.
Proof.
  unfold RouteService.orderBy, RouteOptimizer.byPriorityThenAge.
  destruct (decide (priority a = priority b)) as [E | Hne].
  - rewrite E. by destruct (decide _).
  - destruct (decide _) as [| E]; [done |].
    exfalso. apply Hne, priorityValues_inj.
    destruct (decide (priorityValues (priority a) = priorityValues (priority b))); [done |].
    by exfalso.
Qed.

Lemma pickedUpOrders_sorted driver w :
  StronglySorted (fun a b => RouteOptimizer.byPriorityThenAge a b <= 0)
    (pickedUpOrders driver w).
Proof.
  unfold pickedUpOrders.
  eapply StronglySorted_impl; [| apply (sort_sorted RouteService.orderBy)].
  - intros a b H. by rewrite <- orderBy_byPriorityThenAge.
  - intros a b. rewrite !orderBy_byPriorityThenAge. apply byPriorityThenAge_total.
  - intros a b c. rewrite !orderBy_byPriorityThenAge. apply byPriorityThenAge_trans.
Qed.

Lemma basic_sort_id driver w :
  Js.sort RouteOptimizer.byPriorityThenAge (pickedUpOrders driver w)
  = pickedUpOrders driver w.
Proof. apply sort_sorted_id, pickedUpOrders_sorted. Qed.

(** X13.  The basic algorithm never reorders what the database returned:
    [getDriverPickedUpOrders] lists the orders by priority, highest first,
    then oldest first, and the stable sort of
    [applyBasicOptimizationAlgorithm] by the same key leaves that list as
    it is, numbered 1, 2, ... *)
Theorem basic_algorithm_keeps_database_order (driver : string) (w : World) :
  let result := RouteService.applyBasicOptimizationAlgorithm (pickedUpOrders driver w) in
  ordersOf (Result.optimizedSequence result) = pickedUpOrders driver w
  /\ Result.optimizedSequence result
     = imap RouteOptimizer.sequenced (pickedUpOrders driver w)
  /\ StronglySorted before (pickedUpOrders driver w).
Proof.
  cbv zeta. unfold RouteService.applyBasicOptimizationAlgorithm.
  cbn [Result.optimizedSequence].
  rewrite basic_sort_id.
  split; [apply ordersOf_sequenced |]. split; [done |].
  eapply StronglySorted_impl; [| apply pickedUpOrders_sorted].
  intros a b. apply byPriorityThenAge_before.
Qed.

(** X14.  With [useGoogleMaps] false, or for a driver with exactly one
    picked-up order, a recalculation never reaches the optimizer: the only
    event is the basic algorithm (no geocoding and no distance request,
    the geocode cache unchanged), the sequence is the picked-up orders in
    database order, the method is "PRIORITY_BASED", [realDistanceCalculated]
    is false and the figures are the nominal 15 minutes and 5 km an
    order. *)
Theorem basic_path_calls_no_provider (driver : string) (options : RouteService.Request.t)
    (w : World) :
  pickedUpOrders driver w <> [] ->
  recalculates driver options w ->
  RouteService.Request.useGoogleMaps options = Some false
  \/ length (pickedUpOrders driver w) = 1%nat ->
  exists response data w',
    RouteService.optimizeRoute driver options w = (Returned response, w')
    /\ RouteService.Response.data response = Some data
    /\ trace w' = trace w ++ [Ran "applyBasicOptimizationAlgorithm"]
    /\ addressGeoCache w' = addressGeoCache w
    /\ RouteService.Data.optimizedSequence data
       = Some (imap RouteOptimizer.sequenced (pickedUpOrders driver w))
    /\ RouteService.Data.optimizationMethod data = Some "PRIORITY_BASED"%string
    /\ RouteService.Data.realDistanceCalculated data = Some false
    /\ RouteService.Data.estimatedDuration data
       = Some (Js.numberToString (Z.of_nat (length (pickedUpOrders driver w)) * 15)
               +:+ " minutes")
    /\ RouteService.Data.estimatedDistance data
       = Some (Js.numberToString (Z.of_nat (length (pickedUpOrders driver w)) * 5)
               +:+ " km").
Proof.
  intros Hne Hre Hbasic. rewrite (optimize_miss driver options w Hne Hre).
  unfold RouteService.recalculate.
  cbn [RouteService.count RouteService.ordersData].
  assert (Hguard : default true (RouteService.Request.useGoogleMaps options)
                   && (1 <? Z.of_nat (length (pickedUpOrders driver w))) = false).
  { destruct Hbasic as [-> | ->]; [done |]. apply andb_false_r. }
  rewrite Hguard.
  unfold RouteService.applyBasicOptimizationAlgorithm. rewrite basic_sort_id.
  unfold bind, emit, newDate, getWorld, setRouteOptimization, ret. cbv beta iota zeta.
  eexists _, _, _. split; [reflexivity |]. split; [reflexivity |].
  cbn [trace addressGeoCache RouteService.Data.optimizedSequence
       RouteService.Data.optimizationMethod RouteService.Data.realDistanceCalculated
       RouteService.Data.estimatedDuration RouteService.Data.estimatedDistance
       Result.optimizedSequence Result.algorithm Result.realDistanceCalculated
       Result.estimatedDuration Result.estimatedDistance Result.totalOrders].
  assert (Hz : (Z.of_nat (length (pickedUpOrders driver w)) =? 0) = false).
  { apply Z.eqb_neq. destruct (pickedUpOrders driver w); [done | simpl; lia]. }
  rewrite Hz.
  split_and!; try done.
  - unfold RouteService.stringOr, RouteOptimizer.truthyString.
    by destruct (Js.numberToString _).
  - unfold RouteService.stringOr, RouteOptimizer.truthyString.
    by destruct (Js.numberToString _).
Qed.

Lemma basic_path_calls_no_provider_witness :
  pickedUpOrders "driver-1" busy <> []
  /\ recalculates "driver-1" withoutMaps busy
  /\ (RouteService.Request.useGoogleMaps withoutMaps = Some false
      \/ length (pickedUpOrders "driver-1" busy) = 1%nat)
  /\ exists response data w',
       RouteService.optimizeRoute "driver-1" withoutMaps busy = (Returned response, w')
       /\ RouteService.Response.data response = Some data
       /\ trace w' = trace busy ++ [Ran "applyBasicOptimizationAlgorithm"].
Proof.
  assert (H1 : pickedUpOrders "driver-1" busy <> []) by (vm_compute; discriminate).
  assert (H2 : recalculates "driver-1" withoutMaps busy) by (left; reflexivity).
  assert (H3 : RouteService.Request.useGoogleMaps withoutMaps = Some false
               \/ length (pickedUpOrders "driver-1" busy) = 1%nat) by (left; reflexivity).
  split; [exact H1 |]. split; [exact H2 |]. split; [exact H3 |].
  destruct (basic_path_calls_no_provider "driver-1" withoutMaps busy H1 H2 H3)
    as (response & data & w' & E & Hd & Ht & _).
  exists response, data, w'. by split_and!.
Defined.

(* ===================================================================== *)
(** * The provider out of reach *)
(* ===================================================================== *)

(** X15.  When the geocoding provider cannot be reached for an address
    that is not cached, [geocodeAddress] raises "Failed to geocode
    address: " followed by the address, after one request, and caches
    nothing: the next call for the address sends a request again (unlike
    a "no result" answer, which is cached). *)
Theorem unreachable_provider_is_not_cached (address : string) (w : World) :
  addressGeoCache w !! Geocoder.createAddressHash address = None ->
  geocodingApi w address = GeocodeUnreachable ->
  exists w' w'',
    Geocoder.geocodeAddress address w
    = (Thrown (Error ("Failed to geocode address: " +:+ address)), w')
    /\ addressGeoCache w' = addressGeoCache w
    /\ trace w' = trace w ++ [GeocodeFetch address]
    /\ Geocoder.geocodeAddress address w'
       = (Thrown (Error ("Failed to geocode address: " +:+ address)), w'')
    /\ trace w'' = trace w ++ [GeocodeFetch address; GeocodeFetch address].
Proof.
  intros Hmiss Hdown.
  assert (Hrun : forall w0,
            addressGeoCache w0 !! Geocoder.createAddressHash address = None ->
            geocodingApi w0 address = GeocodeUnreachable ->
            Geocoder.geocodeAddress address w0
            = (Thrown (Error ("Failed to geocode address: " +:+ address)),
               after (emit (GeocodeFetch address)) w0)).
  { intros w0 Hm Hd.
    unfold Geocoder.geocodeAddress, Geocoder.getCachedCoordinates, tryCatch, bind, getWorld,
      emit, throw, ret, after.
    cbv beta iota zeta. rewrite Hm. cbv beta iota zeta. cbn [geocodingApi snd]. by rewrite Hd. }
  eexists _, _. split; [by apply Hrun |]. split; [done |]. split; [done |].
  split; [by apply Hrun |]. cbn [trace after emit snd]. by rewrite <- (assoc_L (++)).
Qed.

Lemma unreachable_provider_is_not_cached_witness :
  addressGeoCache (offline []) !! Geocoder.createAddressHash "Atlantis" = None
  /\ geocodingApi (offline []) "Atlantis" = GeocodeUnreachable
  /\ exists w',
       Geocoder.geocodeAddress "Atlantis" (offline [])
       = (Thrown (Error "Failed to geocode address: Atlantis"), w')
       /\ addressGeoCache w' = ∅.
Proof.
  assert (H1 : addressGeoCache (offline []) !! Geocoder.createAddressHash "Atlantis" = None)
    by reflexivity.
  assert (H2 : geocodingApi (offline []) "Atlantis" = GeocodeUnreachable) by reflexivity.
  split; [exact H1 |]. split; [exact H2 |].
  destruct (unreachable_provider_is_not_cached "Atlantis" (offline []) H1 H2)
    as (w' & w'' & E & Hc & _).
  exists w'. split; [exact E | exact Hc].
Defined.

(* ===================================================================== *)
(** * Writing and reading the cache *)
(* ===================================================================== *)




(* ===================================================================== *)
(** * The rows of the cache *)
(* ===================================================================== *)

(** X17.  [geocodeAddress] keeps the cache consistent: if every row sits
    under its own [addressHash], which is the key of its
    [originalAddress], has [isGeocoded] equal to [isValid], and has a
    latitude, a longitude and a [geocodedAt] exactly when it is valid, then
    the same holds afterwards.  The coordinates it then returns have a
    latitude and a longitude when valid, and neither when not. *)
Theorem geocoder_keeps_cache_consistent (address : string) (w : World) :
  consistentCache w ->
  consistentCache (after (Geocoder.geocodeAddress address) w)
  /\ forall coordinates w',
       Geocoder.geocodeAddress address w = (Returned coordinates, w') ->
       isGeocoded coordinates = isValid coordinates
       /\ (isValid coordinates = true ->
           is_Some (latitude coordinates) /\ is_Some (longitude coordinates))
       /\ (isValid coordinates = false ->
           latitude coordinates = None /\ longitude coordinates = None).
Proof.
  intros Hcons. unfold after.
  destruct (addressGeoCache w !! Geocoder.createAddressHash address) as [row |] eqn:E.
  { rewrite (geocode_hit _ _ _ E). split; [done |].
    intros coordinates w' [= <- <-]. simpl.
    destruct (Hcons _ _ E) as (_ & _ & Hg & Hv & Hi).
    split; [done |]. split; [intros H; by destruct (Hv H) as (? & ? & _) |].
    intros H; by destruct (Hi H) as (? & ? & _). }
  unfold Geocoder.geocodeAddress, Geocoder.getCachedCoordinates, Geocoder.cacheCoordinates.
  set (h := Geocoder.createAddressHash address) in *.
  set (a := Geocoder.extractAreaFromAddress address).
  set (g := Geocoder.extractGovernorateFromAddress address).
  unfold tryCatch, bind, getWorld, emit, newDate, setAddressGeoCache, ret, throw.
  cbv beta iota zeta. rewrite E. cbv beta iota zeta. cbn [geocodingApi].
  destruct (geocodingApi w address) as [| st results].
  { split; [done | discriminate]. }
  destruct (if decide (st = "OK"%string) then head results else None) as [r |];
    cbv beta iota zeta; world_projections; rewrite E; cbn [snd]; world_projections.
  - split.
    + intros key row Hrow. cbn [addressGeoCache] in Hrow.
      destruct (decide (key = h)) as [-> | Hne].
      * rewrite lookup_insert_eq in Hrow. injection Hrow as <-.
        split_and!; try done; try discriminate; try (intros _; by split_and!; eexists).
      * rewrite lookup_insert_ne in Hrow by done. by apply Hcons.
    + intros coordinates w' [= <- <-]. simpl.
      split_and!; try done; try discriminate; try (intros _; by split; eexists).
  - split.
    + intros key row Hrow. cbn [addressGeoCache] in Hrow.
      destruct (decide (key = h)) as [-> | Hne].
      * rewrite lookup_insert_eq in Hrow. injection Hrow as <-.
        split_and!; try done; try discriminate.
      * rewrite lookup_insert_ne in Hrow by done. by apply Hcons.
    + intros coordinates w' [= <- <-]. simpl. split_and!; try done; try discriminate.
Qed.

Lemma geocoder_keeps_cache_consistent_witness :
  consistentCache nowhere
  /\ consistentCache (after (Geocoder.geocodeAddress "Atlantis") nowhere).
Proof.
  assert (H : consistentCache nowhere).
  { intros key row Hrow. cbn [nowhere addressGeoCache] in Hrow.
    by rewrite lookup_empty in Hrow. }
  split; [exact H |].
  exact (proj1 (geocoder_keeps_cache_consistent "Atlantis" nowhere H)).
Defined.

(* ===================================================================== *)
(** * Batches of addresses *)
(* ===================================================================== *)





Lemma delay_run ms w :
  Geocoder.delay ms w
  = (Returned tt,
     {| orderTable := orderTable w; routeOptimization := routeOptimization w;
        addressGeoCache := addressGeoCache w; geocodingApi := geocodingApi w;
        distanceMatrixApi := distanceMatrixApi w; clock := clock w + ms;
        trace := trace w |}).
Proof. reflexivity. Qed.

Lemma bind_run {A B} (m : M A) (k : A -> M B) w a w1 :
  m w = (Returned a, w1) -> (x <- m ;; k x) w = k a w1.
Proof. unfold bind. by intros ->. Qed.

Lemma bind_run_thrown {A B} (m : M A) (k : A -> M B) w e w1 :
  m w = (Thrown e, w1) -> (x <- m ;; k x) w = (Thrown e, w1).
Proof. unfold bind. by intros ->. Qed.

(** X19.  [geocodeAddresses] has no handler: a batch whose first
    uncached address cannot be resolved because the provider is out of
    reach raises the error of that address, "Failed to geocode address:
    ...", the results of the cached addresses before it are lost, and the
    addresses after it are not looked at: one request was sent, the cache
    is unchanged, and 100 ms passed for each address before the failing
    one. *)
Theorem batch_stops_at_first_failure (cached : list string) (failing : string)
    (rest : list string) (w : World) :
  Forall (fun a => is_Some (addressGeoCache w !! Geocoder.createAddressHash a)) cached ->
  addressGeoCache w !! Geocoder.createAddressHash failing = None ->
  geocodingApi w failing = GeocodeUnreachable ->
  exists w',
    Geocoder.geocodeAddresses (cached ++ failing :: rest) w
    = (Thrown (Error ("Failed to geocode address: " +:+ failing)), w')
    /\ addressGeoCache w' = addressGeoCache w
    /\ trace w' = trace w ++ [GeocodeFetch failing]
    /\ clock w' = clock w + 100 * Z.of_nat (length cached).
Proof.
  unfold Geocoder.geocodeAddresses. revert w.
  induction cached as [|a cached IH]; intros w Hcached Hmiss Hdown.
  - assert (E : Geocoder.geocodeAddress failing w
                = (Thrown (Error ("Failed to geocode address: " +:+ failing)),
                   after (emit (GeocodeFetch failing)) w)).
    { unfold Geocoder.geocodeAddress, Geocoder.getCachedCoordinates, tryCatch, bind, getWorld,
        emit, throw, ret, after.
      cbv beta iota zeta. rewrite Hmiss. cbv beta iota zeta. cbn [geocodingApi snd].
      by rewrite Hdown. }
    eexists. cbn [app forEachM].
    rewrite (bind_run_thrown _ _ _ _ _ (bind_run_thrown _ _ _ _ _ E)).
    split; [reflexivity |]. cbn [after emit snd addressGeoCache trace clock length].
    split_and!; try done. lia.
  - apply Forall_cons in Hcached as ([row Hrow] & Hcached).
    set (w1 := {| orderTable := orderTable w; routeOptimization := routeOptimization w;
                  addressGeoCache := addressGeoCache w; geocodingApi := geocodingApi w;
                  distanceMatrixApi := distanceMatrixApi w; clock := clock w + 100;
                  trace := trace w |}).
    destruct (IH w1 Hcached Hmiss Hdown) as (w' & E & Hcache & Htrace & Hclock).
    exists w'. cbn [app forEachM].
    erewrite (bind_run _ _ w _ w1); cycle 1.
    { rewrite (bind_run _ _ _ _ _ (geocode_hit _ _ _ Hrow)).
      rewrite (bind_run _ _ _ _ _ (delay_run 100 w)). reflexivity. }
    rewrite (bind_run_thrown _ _ _ _ _ E).
    split; [reflexivity |]. split; [done |]. split; [done |].
    rewrite Hclock. cbn [w1 clock length]. lia.
Qed.

Lemma batch_stops_at_first_failure_witness :
  Forall (fun a => is_Some (addressGeoCache (offline []) !! Geocoder.createAddressHash a)) []
  /\ addressGeoCache (offline []) !! Geocoder.createAddressHash "Atlantis" = None
  /\ geocodingApi (offline []) "Atlantis" = GeocodeUnreachable
  /\ exists w',
       Geocoder.geocodeAddresses ([] ++ "Atlantis"%string :: [nileStreet]) (offline [])
       = (Thrown (Error "Failed to geocode address: Atlantis"), w').
Proof.
  assert (H1 : Forall (fun a => is_Some (addressGeoCache (offline [])
                                           !! Geocoder.createAddressHash a)) [])
    by constructor.
  assert (H2 : addressGeoCache (offline []) !! Geocoder.createAddressHash "Atlantis" = None)
    by reflexivity.
  assert (H3 : geocodingApi (offline []) "Atlantis" = GeocodeUnreachable) by reflexivity.
  split; [exact H1 |]. split; [exact H2 |]. split; [exact H3 |].
  destruct (batch_stops_at_first_failure [] "Atlantis" [nileStreet] (offline []) H1 H2 H3)
    as (w' & E & _).
  by exists w'.
Defined.

(* ===================================================================== *)
(** * Strings and their characters *)
(* ===================================================================== *)

Lemma bytes_ofBytes bs :
  Forall (fun b => 0 <= b < 256) bs -> Js.bytes (Js.ofBytes bs) = bs.
Proof.
  intros H. unfold Js.bytes, Js.ofBytes.
  rewrite list_ascii_of_string_of_list_ascii, map_map.
  induction H as [|b bs Hb _ IH]; [done |]. cbn [map]. rewrite IH. f_equal.
  rewrite N_ascii_embedding by lia. lia.
Qed.

Lemma isScalar_spec c :
  Js.isScalar c = true <-> 0 <= c < 0xD800 \/ 0xE000 <= c < 0x110000.
Proof. unfold Js.isScalar. lia. Qed.

Lemma utf8_bytes c :
  Js.isScalar c = true -> Forall (fun b => 0 <= b < 256) (Js.utf8 c).
Proof.
  rewrite isScalar_spec. intros Hc. unfold Js.utf8.
  repeat case_match; repeat constructor; Z.div_mod_to_equations; lia.
Qed.

Lemma decodeFirst_utf8 c rest :
  Js.isScalar c = true ->
  Js.decodeFirst (Js.utf8 c ++ rest) = Some (c, length (Js.utf8 c)).
Proof.
  intros Hs. pose proof (proj1 (isScalar_spec c) Hs) as Hc. unfold Js.utf8.
  destruct (Z.ltb_spec c 0x80).
  { cbn [app Js.decodeFirst length].
    replace ((0 <=? c) && (c <? 0x80)) with true by lia. reflexivity. }
  destruct (Z.ltb_spec c 0x800).
  { cbn [app Js.decodeFirst length].
    set (b0 := 0xC0 + c / 64). set (b1 := 0x80 + c mod 64).
    assert (Hb0 : 0xC2 <= b0 < 0xE0) by (unfold b0; Z.div_mod_to_equations; lia).
    assert (Hb1 : 0x80 <= b1 < 0xC0) by (unfold b1; Z.div_mod_to_equations; lia).
    assert (E : (b0 - 0xC0) * 64 + (b1 - 0x80) = c)
      by (unfold b0, b1; Z.div_mod_to_equations; lia).
    replace ((0 <=? b0) && (b0 <? 0x80)) with false by lia.
    replace ((0xC0 <=? b0) && (b0 <? 0xE0)) with true by lia.
    cbv zeta. rewrite E. unfold Js.isContinuation.
    replace ((0x80 <=? b1) && (b1 <? 0xC0) && (0x80 <=? c)) with true by lia.
    reflexivity. }
  destruct (Z.ltb_spec c 0x10000).
  { cbn [app Js.decodeFirst length].
    set (b0 := 0xE0 + c / 4096). set (b1 := 0x80 + (c / 64) mod 64).
    set (b2 := 0x80 + c mod 64).
    assert (Hb0 : 0xE0 <= b0 < 0xF0) by (unfold b0; Z.div_mod_to_equations; lia).
    assert (Hb1 : 0x80 <= b1 < 0xC0) by (unfold b1; Z.div_mod_to_equations; lia).
    assert (Hb2 : 0x80 <= b2 < 0xC0) by (unfold b2; Z.div_mod_to_equations; lia).
    assert (E : (b0 - 0xE0) * 4096 + (b1 - 0x80) * 64 + (b2 - 0x80) = c)
      by (unfold b0, b1, b2; Z.div_mod_to_equations; lia).
    replace ((0 <=? b0) && (b0 <? 0x80)) with false by lia.
    replace ((0xC0 <=? b0) && (b0 <? 0xE0)) with false by lia.
    replace ((0xE0 <=? b0) && (b0 <? 0xF0)) with true by lia.
    cbv zeta. rewrite E, Hs. unfold Js.isContinuation.
    replace ((0x80 <=? b1) && (b1 <? 0xC0) && ((0x80 <=? b2) && (b2 <? 0xC0))
             && (0x800 <=? c) && true) with true by lia.
    reflexivity. }
  cbn [app Js.decodeFirst length].
  set (b0 := 0xF0 + c / 262144). set (b1 := 0x80 + (c / 4096) mod 64).
  set (b2 := 0x80 + (c / 64) mod 64). set (b3 := 0x80 + c mod 64).
  assert (Hb0 : 0xF0 <= b0 < 0xF8) by (unfold b0; Z.div_mod_to_equations; lia).
  assert (Hb1 : 0x80 <= b1 < 0xC0) by (unfold b1; Z.div_mod_to_equations; lia).
  assert (Hb2 : 0x80 <= b2 < 0xC0) by (unfold b2; Z.div_mod_to_equations; lia).
  assert (Hb3 : 0x80 <= b3 < 0xC0) by (unfold b3; Z.div_mod_to_equations; lia).
  assert (E : (b0 - 0xF0) * 262144 + (b1 - 0x80) * 4096 + (b2 - 0x80) * 64 + (b3 - 0x80) = c)
    by (unfold b0, b1, b2, b3; Z.div_mod_to_equations; lia).
  replace ((0 <=? b0) && (b0 <? 0x80)) with false by lia.
  replace ((0xC0 <=? b0) && (b0 <? 0xE0)) with false by lia.
  replace ((0xE0 <=? b0) && (b0 <? 0xF0)) with false by lia.
  replace ((0xF0 <=? b0) && (b0 <? 0xF8)) with true by lia.
  cbv zeta. rewrite E, Hs. unfold Js.isContinuation.
  replace ((0x80 <=? b1) && (b1 <? 0xC0) && ((0x80 <=? b2) && (b2 <? 0xC0))
           && ((0x80 <=? b3) && (b3 <? 0xC0)) && (0x10000 <=? c) && true) with true by lia.
  reflexivity.
Qed.

Lemma codePointsFrom_skip pre rest :
  Js.codePointsFrom (length pre) (pre ++ rest) = Js.codePointsFrom 0 rest.
Proof. induction pre as [|b pre IH]; [done |]. exact IH. Qed.

Lemma utf8_cons c : exists b tl, Js.utf8 c = b :: tl.
Proof. unfold Js.utf8. repeat case_match; by eexists _, _. Qed.

Lemma codePointsFrom_utf8 c rest :
  Js.isScalar c = true ->
  Js.codePointsFrom 0 (Js.utf8 c ++ rest) = c :: Js.codePointsFrom 0 rest.
Proof.
  intros Hs. pose proof (decodeFirst_utf8 c rest Hs) as Hd.
  destruct (utf8_cons c) as (b & tl & E). rewrite E in Hd |- *.
  cbn [app Js.codePointsFrom]. cbn [app] in Hd. rewrite Hd.
  cbn [length Nat.pred]. by rewrite codePointsFrom_skip.
Qed.

(** Reading the characters of an encoded text gives the text. *)
Lemma codePoints_fromCodePoints cs :
  Forall (fun c => Js.isScalar c = true) cs ->
  Js.codePoints (Js.fromCodePoints cs) = cs.
Proof.
  intros H. unfold Js.codePoints, Js.fromCodePoints.
  rewrite bytes_ofBytes.
  - induction H as [|c cs Hc _ IH]; [done |].
    cbn [flat_map]. by rewrite codePointsFrom_utf8, IH.
  - induction H as [|c cs Hc _ IH]; [done |].
    cbn [flat_map]. apply Forall_app. split; [by apply utf8_bytes | done].
Qed.

Lemma decodeFirst_scalar bs c n :
  Js.decodeFirst bs = Some (c, n) -> Js.isScalar c = true.
Proof.
  unfold Js.decodeFirst. destruct bs as [|b0 rest]; [done |].
  repeat case_match; try done; intros [= <- _]; unfold Js.isScalar, Js.isContinuation in *; lia.
Qed.

Lemma codePointsFrom_scalar bs :
  forall skip, Forall (fun c => Js.isScalar c = true) (Js.codePointsFrom skip bs).
Proof.
  induction bs as [|b bs IH]; intros skip; [constructor |].
  cbn [Js.codePointsFrom]. destruct skip; [| apply IH].
  destruct (Js.decodeFirst (b :: bs)) as [[c n] |] eqn:E.
  - constructor; [by eapply decodeFirst_scalar | apply IH].
  - constructor; [reflexivity | apply IH].
Qed.

Lemma codePoints_scalar s : Forall (fun c => Js.isScalar c = true) (Js.codePoints s).
Proof. apply codePointsFrom_scalar. Qed.

(* ===================================================================== *)
(** * Lower case and white space *)
(* ===================================================================== *)

Lemma lowerMappings_ok :
  forallb (fun '(_, _, step, _) => 0 <? step) Js.lowerMappings = true
  /\ forallb lowerCheck (mapped Js.lowerMappings) = true.
Proof. split; vm_compute; reflexivity. Qed.

(** A character the table changes is one of those it lists. *)
Lemma simpleLower_mapped mappings c :
  forallb (fun '(_, _, step, _) => 0 <? step) mappings = true ->
  Js.simpleLower mappings c <> c -> c ∈ mapped mappings.
Proof.
  induction mappings as [|[[[lo hi] step] delta] rest IH]; intros Hsteps; [done |].
  cbn [forallb] in Hsteps. apply andb_prop in Hsteps as [Hstep Hsteps].
  cbn [Js.simpleLower mapped flat_map]. intros Hc.
  apply elem_of_app.
  destruct (c <? lo) eqn:E1; [done |].
  destruct ((c <=? hi) && ((c - lo) mod step =? 0)) eqn:E2; [left | right; by apply IH].
  apply list_elem_of_fmap. exists (Z.to_nat ((c - lo) / step)).
  assert (Hs : 0 < step) by lia.
  assert (Hlo : lo <= c <= hi) by lia.
  assert (Hm : (c - lo) mod step = 0) by lia.
  pose proof (Z.div_mod (c - lo) step ltac:(lia)) as Hd. rewrite Hm in Hd.
  assert (Hq : 0 <= (c - lo) / step) by (apply Z.div_pos; lia).
  split; [rewrite Z2Nat.id by done; lia |].
  apply elem_of_seq. split; [lia |].
  assert ((c - lo) / step <= (hi - lo) / step) by (apply Z.div_le_mono; lia).
  lia.
Qed.

(** The lower case of a character that is none of the two capitals with
    a rule of their own. *)
Lemma simpleLower_lower c :
  c <> 0x3A3 -> c <> 0x130 ->
  isLower (Js.simpleLower Js.lowerMappings c) = true
  /\ (Js.isScalar c = true -> Js.isScalar (Js.simpleLower Js.lowerMappings c) = true)
  /\ (Js.isWhiteSpace c = false ->
      Js.isWhiteSpace (Js.simpleLower Js.lowerMappings c) = false).
Proof.
  intros H1 H2.
  destruct (decide (Js.simpleLower Js.lowerMappings c = c)) as [E | Hne].
  - rewrite E. split; [| by split]. unfold isLower. rewrite E, Z.eqb_refl.
    destruct (Z.eqb_spec c 0x3A3); [done |]. by destruct (Z.eqb_spec c 0x130).
  - destruct lowerMappings_ok as [Hsteps Hok].
    apply (simpleLower_mapped _ _ Hsteps) in Hne.
    pose proof (proj1 (forallb_forall _ _) Hok c (proj1 (list_elem_of_In _ _) Hne)) as H.
    unfold lowerCheck in H.
    apply andb_prop in H as [H Hws]. apply andb_prop in H as [Hsc Hlow].
    split; [exact Hlow |]. split; [intros _; exact Hsc |]. intros _.
    by apply negb_true_iff.
Qed.

(** What lower-casing puts in the place of a character. *)
Lemma toLowerCaseChar_lower before c after :
  Forall (fun c' => isLower c' = true
                    /\ (Js.isScalar c = true -> Js.isScalar c' = true)
                    /\ (Js.isWhiteSpace c = false -> Js.isWhiteSpace c' = false))
    (Js.toLowerCaseChar before c after)
  /\ Js.toLowerCaseChar before c after <> [].
Proof.
  unfold Js.toLowerCaseChar.
  destruct (Z.eqb_spec c 0x3A3) as [-> |].
  { split; [| done]. constructor; [| constructor]. by case_match. }
  destruct (Z.eqb_spec c 0x130) as [-> |].
  { split; [| done]. by repeat constructor. }
  split; [| done]. constructor; [| constructor]. by apply simpleLower_lower.
Qed.

Lemma isWhiteSpace_elem c :
  Js.isWhiteSpace c = true ->
  c ∈ [0x9; 0xa; 0xb; 0xc; 0xd; 0x20; 0xa0; 0x1680; 0x2000; 0x2001; 0x2002; 0x2003;
       0x2004; 0x2005; 0x2006; 0x2007; 0x2008; 0x2009; 0x200a; 0x2028; 0x2029;
       0x202f; 0x205f; 0x3000; 0xfeff].
Proof.
  unfold Js.isWhiteSpace, Js.whiteSpace, Js.inRanges. intros H.
  assert (Hc : (9 <= c <= 13) \/ c = 0x20 \/ c = 0xa0 \/ c = 0x1680 \/ (0x2000 <= c <= 0x200a)
               \/ (0x2028 <= c <= 0x2029) \/ c = 0x202f \/ c = 0x205f \/ c = 0x3000
               \/ c = 0xfeff)
    by (repeat case_match; try discriminate; lia).
  clear H. rewrite !elem_of_cons. lia.
Qed.

(** White space is not cased and is its own lower case. *)
Lemma isWhiteSpace_lower c :
  Js.isWhiteSpace c = true ->
  Js.isCased c = false /\ forall before after, Js.toLowerCaseChar before c after = [c].
Proof.
  intros H. apply isWhiteSpace_elem in H.
  repeat (apply elem_of_cons in H as [-> | H]; [by vm_compute |]).
  by apply elem_of_nil in H.
Qed.

Lemma reachesCased_whiteSpace W :
  Forall (fun c => Js.isWhiteSpace c = true) W -> Js.reachesCased W = false.
Proof.
  induction 1 as [|w W Hw _ IH]; [done |]. cbn [Js.reachesCased].
  rewrite IH. destruct (Js.isCaseIgnorable w); [done |].
  by apply isWhiteSpace_lower.
Qed.

(** White space at the far end of a context does not count. *)
Lemma reachesCased_app_whiteSpace L W :
  Forall (fun c => Js.isWhiteSpace c = true) W ->
  Js.reachesCased (L ++ W) = Js.reachesCased L.
Proof.
  intros HW. induction L as [|c L IH]; [by apply reachesCased_whiteSpace |].
  cbn [app Js.reachesCased]. by rewrite IH.
Qed.

Lemma toLowerCaseFrom_before_whiteSpace W L :
  Forall (fun c => Js.isWhiteSpace c = true) W ->
  forall B, Js.toLowerCaseFrom (B ++ W) L = Js.toLowerCaseFrom B L.
Proof.
  intros HW. induction L as [|c L IH]; intros B; [done |].
  cbn [Js.toLowerCaseFrom]. rewrite (app_comm_cons B W c), IH. f_equal.
  unfold Js.toLowerCaseChar. by rewrite reachesCased_app_whiteSpace.
Qed.

Lemma toLowerCaseFrom_whiteSpace W :
  Forall (fun c => Js.isWhiteSpace c = true) W ->
  forall B, Js.toLowerCaseFrom B W = W.
Proof.
  induction 1 as [|w W Hw _ IH]; intros B; [done |].
  cbn [Js.toLowerCaseFrom]. rewrite IH.
  by rewrite (proj2 (isWhiteSpace_lower w Hw)).
Qed.

Lemma toLowerCaseChar_after_whiteSpace B c L W :
  Forall (fun c => Js.isWhiteSpace c = true) W ->
  Js.toLowerCaseChar B c (L ++ W) = Js.toLowerCaseChar B c L.
Proof. intros HW. unfold Js.toLowerCaseChar. by rewrite reachesCased_app_whiteSpace. Qed.

(** Lower-casing leaves alone what is in lower case already. *)
Lemma toLowerCaseFrom_lower L :
  Forall (fun c => isLower c = true) L -> forall B, Js.toLowerCaseFrom B L = L.
Proof.
  induction 1 as [|c L Hc _ IH]; intros B; [done |].
  cbn [Js.toLowerCaseFrom]. rewrite IH. unfold Js.toLowerCaseChar.
  unfold isLower in Hc.
  replace (c =? 0x3A3) with false by lia. replace (c =? 0x130) with false by lia.
  cbn [app]. f_equal. lia.
Qed.

Lemma toLowerCaseFrom_isLower L :
  forall B, Forall (fun c => isLower c = true) (Js.toLowerCaseFrom B L).
Proof.
  induction L as [|c L IH]; intros B; [constructor |].
  cbn [Js.toLowerCaseFrom]. apply Forall_app. split; [| apply IH].
  eapply Forall_impl; [apply toLowerCaseChar_lower |]. by intros c' [? _].
Qed.

Lemma toLowerCaseFrom_scalar L :
  Forall (fun c => Js.isScalar c = true) L ->
  forall B, Forall (fun c => Js.isScalar c = true) (Js.toLowerCaseFrom B L).
Proof.
  induction 1 as [|c L Hc _ IH]; intros B; [constructor |].
  cbn [Js.toLowerCaseFrom]. apply Forall_app. split; [| apply IH].
  eapply Forall_impl; [apply toLowerCaseChar_lower |]. intros c' (_ & Hs & _). by apply Hs.
Qed.

Lemma toLowerCaseFrom_idem B B' L :
  Js.toLowerCaseFrom B' (Js.toLowerCaseFrom B L) = Js.toLowerCaseFrom B L.
Proof. apply toLowerCaseFrom_lower, toLowerCaseFrom_isLower. Qed.

Lemma trimStart_sublist L : exists W,
  L = W ++ Js.trimStart L /\ Forall (fun c => Js.isWhiteSpace c = true) W.
Proof.
  induction L as [|c L (W & E & HW)]; [by exists [] |].
  cbn [Js.trimStart]. destruct (Js.isWhiteSpace c) eqn:Ec.
  - exists (c :: W). split; [by rewrite E at 1 | by constructor].
  - by exists [].
Qed.

Lemma trimEnd_sublist L : exists W,
  L = Js.trimEnd L ++ W /\ Forall (fun c => Js.isWhiteSpace c = true) W.
Proof.
  induction L as [|c L (W & E & HW)]; [by exists [] |].
  cbn [Js.trimEnd]. destruct (Js.trimEnd L) as [|b t] eqn:Et.
  - destruct (Js.isWhiteSpace c) eqn:Ec.
    + exists (c :: W). cbn [app] in E |- *. split; [by rewrite E at 1 | by constructor].
    + exists W. cbn [app] in E |- *. split; [by rewrite E at 1 | done].
  - exists W. split; [| done]. cbn [app]. by rewrite E at 1.
Qed.

Lemma trimStart_Forall (P : Z -> Prop) L : Forall P L -> Forall P (Js.trimStart L).
Proof.
  destruct (trimStart_sublist L) as (W & E & _). intros H. rewrite E in H.
  by apply Forall_app in H as [_ H].
Qed.

Lemma trimEnd_Forall (P : Z -> Prop) L : Forall P L -> Forall P (Js.trimEnd L).
Proof.
  destruct (trimEnd_sublist L) as (W & E & _). intros H. rewrite E in H.
  by apply Forall_app in H as [H _].
Qed.

(** Trimming before or after lower-casing: the start. *)
Lemma trimStart_lower L :
  forall B, Forall (fun c => Js.isWhiteSpace c = true) B ->
            Js.trimStart (Js.toLowerCaseFrom B L) = Js.toLowerCaseFrom [] (Js.trimStart L).
Proof.
  induction L as [|c L IH]; intros B HB; [done |].
  cbn [Js.toLowerCaseFrom Js.trimStart].
  destruct (Js.isWhiteSpace c) eqn:Ec.
  - rewrite (proj2 (isWhiteSpace_lower c Ec)). cbn [app Js.trimStart]. rewrite Ec.
    apply IH. by constructor.
  - cbn [Js.toLowerCaseFrom].
    rewrite <- (toLowerCaseFrom_before_whiteSpace B L HB [c]).
    replace (Js.toLowerCaseChar [] c L) with (Js.toLowerCaseChar B c L).
    2:{ unfold Js.toLowerCaseChar. by rewrite (reachesCased_whiteSpace B HB). }
    cbn [app].
    destruct (toLowerCaseChar_lower B c L) as [Hout Hne].
    destruct (Js.toLowerCaseChar B c L) as [|c' out]; [done |].
    cbn [app Js.trimStart]. apply Forall_cons in Hout as [(_ & _ & Hws) _].
    by rewrite (Hws Ec).
Qed.

Lemma trimEnd_app_whiteSpace X W :
  Forall (fun c => Js.isWhiteSpace c = false) X ->
  Forall (fun c => Js.isWhiteSpace c = true) W ->
  Js.trimEnd (X ++ W) = X.
Proof.
  intros HX HW. induction HX as [|c X Hc _ IH].
  - cbn [app]. induction HW as [|w W Hw _ IH]; [done |].
    cbn [Js.trimEnd]. by rewrite IH, Hw.
  - cbn [app Js.trimEnd]. rewrite IH. destruct X; [by rewrite Hc | done].
Qed.

Lemma trimEnd_app X Y : Js.trimEnd Y <> [] -> Js.trimEnd (X ++ Y) = X ++ Js.trimEnd Y.
Proof.
  intros HY. induction X as [|c X IH]; [done |].
  cbn [app Js.trimEnd]. rewrite IH. by destruct X, (Js.trimEnd Y).
Qed.

(** Trimming before or after lower-casing: the end. *)
Lemma trimEnd_lower L :
  forall B, Js.trimEnd (Js.toLowerCaseFrom B L) = Js.toLowerCaseFrom B (Js.trimEnd L).
Proof.
  induction L as [|c L IH]; intros B; [done |].
  cbn [Js.toLowerCaseFrom Js.trimEnd].
  destruct (trimEnd_sublist L) as (W & E & HW).
  assert (Hc : Js.toLowerCaseChar B c L = Js.toLowerCaseChar B c (Js.trimEnd L)).
  { rewrite E at 1. by apply toLowerCaseChar_after_whiteSpace. }
  destruct (Js.trimEnd L) as [|b t] eqn:Et.
  - cbn [app] in E. subst W. rewrite (toLowerCaseFrom_whiteSpace L HW).
    destruct (Js.isWhiteSpace c) eqn:Ec.
    + rewrite (proj2 (isWhiteSpace_lower c Ec)). cbn [app Js.trimEnd].
      rewrite <- (app_nil_l L), trimEnd_app_whiteSpace by done. by rewrite Ec.
    + cbn [Js.toLowerCaseFrom]. rewrite app_nil_r, <- Hc.
      apply trimEnd_app_whiteSpace; [| done].
      eapply Forall_impl; [apply toLowerCaseChar_lower |]. intros c' (_ & _ & Hws).
      by apply Hws.
  - cbn [Js.toLowerCaseFrom]. rewrite Hc.
    change (Js.toLowerCaseChar (c :: B) b t ++ Js.toLowerCaseFrom (b :: c :: B) t)
      with (Js.toLowerCaseFrom (c :: B) (b :: t)).
    rewrite <- IH. apply trimEnd_app. rewrite IH. cbn [Js.toLowerCaseFrom].
    destruct (toLowerCaseChar_lower (c :: B) b t) as [_ Hne].
    by destruct (Js.toLowerCaseChar (c :: B) b t).
Qed.

Lemma trimEnd_idem L : Js.trimEnd (Js.trimEnd L) = Js.trimEnd L.
Proof.
  induction L as [|c L IH]; [done |]. cbn [Js.trimEnd].
  destruct (Js.trimEnd L) as [|b u] eqn:E.
  - destruct (Js.isWhiteSpace c) eqn:Ec; [done |]. cbn [Js.trimEnd]. by rewrite Ec.
  - cbn [Js.trimEnd]. cbn [Js.trimEnd] in IH. by rewrite IH.
Qed.

Lemma trimStart_trimEnd_trimStart L :
  Js.trimStart (Js.trimEnd (Js.trimStart L)) = Js.trimEnd (Js.trimStart L).
Proof.
  induction L as [|c L IH]; [done |]. cbn [Js.trimStart].
  destruct (Js.isWhiteSpace c) eqn:Ec; [done |].
  cbn [Js.trimEnd]. destruct (Js.trimEnd L); rewrite ?Ec; cbn [Js.trimStart]; by rewrite ?Ec.
Qed.

(** The same facts of the strings. *)
Lemma toLowerCase_idem s : Js.toLowerCase (Js.toLowerCase s) = Js.toLowerCase s.
Proof.
  unfold Js.toLowerCase.
  rewrite codePoints_fromCodePoints by apply toLowerCaseFrom_scalar, codePoints_scalar.
  by rewrite toLowerCaseFrom_idem.
Qed.

Lemma trim_idem s : Js.trim (Js.trim s) = Js.trim s.
Proof.
  unfold Js.trim.
  rewrite codePoints_fromCodePoints
    by apply trimEnd_Forall, trimStart_Forall, codePoints_scalar.
  by rewrite trimStart_trimEnd_trimStart, trimEnd_idem.
Qed.

Lemma trim_lower s : Js.trim (Js.toLowerCase s) = Js.toLowerCase (Js.trim s).
Proof.
  unfold Js.trim, Js.toLowerCase.
  rewrite !codePoints_fromCodePoints.
  - by rewrite (trimStart_lower _ [] (Forall_nil_2 _)), trimEnd_lower.
  - apply trimEnd_Forall, trimStart_Forall, codePoints_scalar.
  - apply toLowerCaseFrom_scalar, codePoints_scalar.
Qed.

(* ===================================================================== *)
(** * The key of an address *)
(* ===================================================================== *)

Lemma hexDigit_hex n :
  MD5.hexDigit n ∈ list_ascii_of_string "0123456789abcdef".
Proof.
  unfold MD5.hexDigit.
  destruct (nth_in_or_default (Z.to_nat n) (list_ascii_of_string "0123456789abcdef")
              "0"%char) as [H | ->].
  - by apply list_elem_of_In.
  - simpl. by apply elem_of_cons; left.
Qed.

(** A capital outside the ASCII range: the address and its lower case,
    typed with spaces around it, have one key. *)
Lemma accented_address_key :
  Geocoder.createAddressHash "École, Cairo" = "3160b8a12b5d0b247f3ad607346b0816"%string
  /\ Geocoder.createAddressHash "  école, cairo " = Geocoder.createAddressHash "École, Cairo".
Proof. split; vm_compute; reflexivity. Qed.

(** X20.  The cache key of an address is that of its normal form: lower-
    casing the address, trimming it, or both, leaves the key as it is.
    The key is a string of 32 hexadecimal digits in lower case. *)
Theorem address_key_is_canonical (address : string) :
  Geocoder.createAddressHash (Js.trim (Js.toLowerCase address))
  = Geocoder.createAddressHash address
  /\ Geocoder.createAddressHash (Js.toLowerCase address) = Geocoder.createAddressHash address
  /\ Geocoder.createAddressHash (Js.trim address) = Geocoder.createAddressHash address
  /\ String.length (Geocoder.createAddressHash address) = 32%nat
  /\ Forall (fun c => c ∈ list_ascii_of_string "0123456789abcdef")
       (list_ascii_of_string (Geocoder.createAddressHash address)).
Proof.
  unfold Geocoder.createAddressHash. split_and!.
  - by rewrite <- (trim_lower (Js.toLowerCase address)), toLowerCase_idem, trim_idem.
  - by rewrite toLowerCase_idem.
  - by rewrite <- (trim_lower address), trim_idem.
  - unfold MD5.hexdigest. cbv zeta.
    generalize (foldl MD5.compress MD5.initial
                  (MD5.chunks 64
                     (length (MD5.pad (MD5.bytesOf (Js.trim (Js.toLowerCase address)))) / 64)
                     (MD5.pad (MD5.bytesOf (Js.trim (Js.toLowerCase address)))))).
    intros st. reflexivity.
  - unfold MD5.hexdigest. cbv zeta.
    generalize (foldl MD5.compress MD5.initial
                  (MD5.chunks 64
                     (length (MD5.pad (MD5.bytesOf (Js.trim (Js.toLowerCase address)))) / 64)
                     (MD5.pad (MD5.bytesOf (Js.trim (Js.toLowerCase address)))))).
    intros st. cbn [flat_map MD5.littleEndian seq map app String.concat MD5.hexByte
                    String.append list_ascii_of_string].
    repeat (constructor; [apply hexDigit_hex |]). constructor.
Qed.

(* ===================================================================== *)
(** * Clearing the cache *)
(* ===================================================================== *)

Lemma countWhere_all table :
  Geocoder.countWhere (fun _ => true) table = Z.of_nat (size table).
Proof.
  unfold Geocoder.countWhere. rewrite <- length_map_to_list. f_equal.
  induction (map_to_list table) as [|x l IH]; [done |]. simpl. by rewrite IH.
Qed.

(** X21.  [clearGeocache] raises nothing, empties the cache and reports
    the number of rows it held; it sends no request and leaves the saved
    optimisation states alone.  Afterwards [getGeocacheStats] counts
    0, 0, 0 with the rate "0", and resolving any address sends a request
    to the provider. *)
Theorem clearing_the_geocache (w : World) :
  exists cleared w',
    RouteService.clearGeocache w = (Returned cleared, w')
    /\ RouteService.deletedCount cleared = Z.of_nat (size (addressGeoCache w))
    /\ addressGeoCache w' = ∅
    /\ trace w' = trace w
    /\ routeOptimization w' = routeOptimization w
    /\ (exists stats,
          RouteService.getGeocacheStats w' = (Returned stats, w')
          /\ RouteService.statsData stats
             = {| Geocoder.totalAddresses := 0; Geocoder.validAddresses := 0;
                  Geocoder.geocodedAddresses := 0; Geocoder.cacheHitRate := "0" |})
    /\ forall address,
         trace (after (Geocoder.geocodeAddress address) w')
         = trace w ++ [GeocodeFetch address].
Proof.
  eexists _, _. split; [reflexivity |].
  cbn [RouteService.deletedCount addressGeoCache trace routeOptimization].
  split; [apply countWhere_all |]. split; [done |]. split; [done |]. split; [done |].
  split.
  - eexists. split; [reflexivity |]. reflexivity.
  - intros address. unfold after.
    unfold Geocoder.geocodeAddress, Geocoder.getCachedCoordinates, Geocoder.cacheCoordinates.
    set (h := Geocoder.createAddressHash address).
    set (a := Geocoder.extractAreaFromAddress address).
    set (g := Geocoder.extractGovernorateFromAddress address).
    unfold tryCatch, bind, getWorld, emit, newDate, setAddressGeoCache, ret, throw.
    cbv beta iota zeta. world_projections. rewrite lookup_empty. cbv beta iota zeta.
    cbn [geocodingApi].
    destruct (geocodingApi w address) as [| st results]; [done |].
    destruct (if decide (st = "OK"%string) then head results else None) as [r |];
      cbv beta iota zeta; world_projections; rewrite lookup_empty; done.
Qed.

(* ===================================================================== *)
(** * Computations that leave the world as it is *)
(* ===================================================================== *)

Lemma silent_ret {A} (a : A) : silent (ret a).
Proof. by intros w. Qed.

Lemma silent_throw {A} (e : JsError) : silent (throw (A := A) e).
Proof. by intros w. Qed.

Lemma silent_bind {A B} (m : M A) (k : A -> M B) :
  silent m -> (forall a, silent (k a)) -> silent (x <- m ;; k x).
Proof.
  intros Hm Hk w. specialize (Hm w). unfold after, bind in *.
  destruct (m w) as [[a | e] w1]; simpl in Hm; subst w1; [exact (Hk a w) | done].
Qed.

Lemma silent_forEachIndexed {A B} (f : nat -> A -> M B) l :
  (forall i x, silent (f i x)) -> forall i, silent (DistanceMatrix.forEachIndexed f i l).
Proof.
  intros Hf. induction l as [|x l IH]; intros i; [apply silent_ret |].
  cbn [DistanceMatrix.forEachIndexed]. apply silent_bind; [apply Hf | intros y].
  apply silent_bind; [apply IH | intros ys; apply silent_ret].
Qed.

Lemma silent_processDistanceMatrixResponse rows origins destinations :
  silent (DistanceMatrix.processDistanceMatrixResponse rows origins destinations).
Proof.
  unfold DistanceMatrix.processDistanceMatrixResponse.
  apply silent_bind; [| intros ?; apply silent_ret].
  apply silent_forEachIndexed. intros i row. apply silent_forEachIndexed.
  intros j element. unfold DistanceMatrix.processElement.
  destruct element; [apply silent_ret |].
  destruct (decide _); [apply silent_throw | apply silent_ret].
Qed.

Lemma silent_formatForRouteOptimization result points :
  silent (DistanceMatrix.formatForRouteOptimization result points).
Proof.
  unfold DistanceMatrix.formatForRouteOptimization.
  apply silent_bind; [| intros ?; apply silent_ret].
  apply silent_forEachIndexed. intros i row.
  apply silent_bind; [| intros ?; apply silent_ret].
  apply silent_forEachIndexed. intros j element. unfold DistanceMatrix.formatElement.
  destruct (_ && _); [| apply silent_ret].
  destruct (points !! i), (points !! j); try apply silent_throw.
  destruct (cellDistance element), (cellDuration element);
    first [apply silent_ret | apply silent_throw].
Qed.

Lemma after_tryCatch_throw {A} (m : M A) (wrap : JsError -> JsError) w :
  after (tryCatch m (fun e => throw (wrap e))) w = after m w.
Proof. unfold after, tryCatch. by destruct (m w) as [[a | e] w1]. Qed.

Lemma after_calculateDistanceMatrix origins destinations w :
  after (DistanceMatrix.calculateDistanceMatrix origins destinations) w
  = after (emit (DistanceMatrixFetch (map DistanceMatrix.latLng origins)
                   (map DistanceMatrix.latLng destinations))) w.
Proof.
  unfold DistanceMatrix.calculateDistanceMatrix. rewrite after_tryCatch_throw.
  unfold after at 1. unfold bind at 1, getWorld. unfold bind at 1. rewrite emit_run.
  destruct (distanceMatrixApi w _ _) as [reason | st message rows]; [done |].
  destruct (decide _); [| done].
  apply (silent_processDistanceMatrixResponse rows origins destinations).
Qed.

(** X22.  [calculateDeliveryDistances] sends at most one request: with
    fewer than two points it returns no distances, with its message, and
    changes nothing; with two or more it leaves the world as one request
    for the full matrix leaves it, whether it returns or raises. *)
Theorem one_matrix_request (points : list DeliveryPoint) (w : World) :
  ((length points < 2)%nat ->
   DistanceMatrix.calculateDeliveryDistances points w
   = (Returned {| distances := [];
                  matrix := None;
                  totalPoints := Z.of_nat (length points);
                  successfulCalculations := None;
                  calculatedAt := None;
                  distanceMessage :=
                    Some "Need at least 2 delivery points for distance calculation"%string |},
      w))
  /\ ((2 <= length points)%nat ->
      after (DistanceMatrix.calculateDeliveryDistances points) w
      = after (emit (DistanceMatrixFetch (map DistanceMatrix.latLng points)
                       (map DistanceMatrix.latLng points))) w).
Proof.
  unfold DistanceMatrix.calculateDeliveryDistances. split; intros Hlen.
  - destruct (Nat.ltb_spec (length points) 2); [done | lia].
  - destruct (Nat.ltb_spec (length points) 2); [lia |].
    rewrite after_tryCatch_throw.
    pose proof (after_calculateDistanceMatrix points points w) as Hm.
    unfold after in *. unfold bind at 1.
    destruct (DistanceMatrix.calculateDistanceMatrix points points w) as [[result | e] w1];
      simpl in Hm; subst w1; [| done].
    unfold bind at 1.
    pose proof (silent_formatForRouteOptimization result points
                  (snd (emit (DistanceMatrixFetch (map DistanceMatrix.latLng points)
                                (map DistanceMatrix.latLng points)) w))) as Hf.
    unfold after in Hf.
    destruct (DistanceMatrix.formatForRouteOptimization result points _) as [[edges | e] w2];
      simpl in Hf; by subst w2.
Qed.

(* ===================================================================== *)
(** * Failures of the provider *)
(* ===================================================================== *)

Lemma calculateDistanceMatrix_run origins destinations w :
  DistanceMatrix.calculateDistanceMatrix origins destinations w
  = match distanceMatrixApi w (map DistanceMatrix.latLng origins)
            (map DistanceMatrix.latLng destinations) with
    | MatrixUnreachable reason =>
        (Thrown (Error ("Failed to calculate distance matrix: " +:+ reason)),
         after (emit (DistanceMatrixFetch (map DistanceMatrix.latLng origins)
                        (map DistanceMatrix.latLng destinations))) w)
    | MatrixResponse st message rows =>
        if decide (st = "OK"%string)
        then tryCatch
               (DistanceMatrix.processDistanceMatrixResponse rows origins destinations)
               (fun error =>
                  throw (Error ("Failed to calculate distance matrix: "
                                +:+ errorMessage error)))
               (after (emit (DistanceMatrixFetch (map DistanceMatrix.latLng origins)
                               (map DistanceMatrix.latLng destinations))) w)
        else (Thrown (Error ("Failed to calculate distance matrix: "
                             +:+ "Distance Matrix API error: "
                             +:+ st +:+ " - " +:+ messageOr message)),
              after (emit (DistanceMatrixFetch (map DistanceMatrix.latLng origins)
                             (map DistanceMatrix.latLng destinations))) w)
    end.
Proof.
  unfold DistanceMatrix.calculateDistanceMatrix, tryCatch.
  unfold bind at 1, getWorld. unfold bind at 1. rewrite emit_run.
  destruct (distanceMatrixApi w _ _) as [reason | st message rows]; [done |].
  destruct (decide _); [done |]. by destruct message as [[|] |].
Qed.

Lemma calculateDistanceMatrix_failure origins destinations w :
  match distanceMatrixApi w (map DistanceMatrix.latLng origins)
          (map DistanceMatrix.latLng destinations) with
  | MatrixUnreachable reason =>
      fst (DistanceMatrix.calculateDistanceMatrix origins destinations w)
      = Thrown (Error ("Failed to calculate distance matrix: " +:+ reason))
  | MatrixResponse st message rows =>
      st <> "OK"%string ->
      fst (DistanceMatrix.calculateDistanceMatrix origins destinations w)
      = Thrown (Error ("Failed to calculate distance matrix: Distance Matrix API error: "
                       +:+ st +:+ " - " +:+ messageOr message))
  end.
Proof.
  rewrite calculateDistanceMatrix_run.
  destruct (distanceMatrixApi w _ _) as [reason | st message rows]; [done |].
  intros Hst. by destruct (decide _).
Qed.

(** X23.  For two points or more, a matrix provider that cannot be
    reached, or that answers with a status other than OK, makes
    [calculateDeliveryDistances] raise, the message naming both layers:
    "Failed to calculate delivery distances: Failed to calculate distance
    matrix: " followed by the reason, or by "Distance Matrix API error: ",
    the status, " - " and the provider's message ("Unknown error" without
    one). *)
Theorem provider_failures_are_wrapped (points : list DeliveryPoint) (w : World) :
  (2 <= length points)%nat ->
  match distanceMatrixApi w (map DistanceMatrix.latLng points)
          (map DistanceMatrix.latLng points) with
  | MatrixUnreachable reason =>
      fst (DistanceMatrix.calculateDeliveryDistances points w)
      = Thrown (Error ("Failed to calculate delivery distances: "
                       +:+ "Failed to calculate distance matrix: " +:+ reason))
  | MatrixResponse st message rows =>
      st <> "OK"%string ->
      fst (DistanceMatrix.calculateDeliveryDistances points w)
      = Thrown (Error ("Failed to calculate delivery distances: "
                       +:+ "Failed to calculate distance matrix: Distance Matrix API error: "
                       +:+ st +:+ " - " +:+ messageOr message))
  end.
Proof.
  intros Hlen. pose proof (calculateDistanceMatrix_failure points points w) as Hm.
  destruct (distanceMatrixApi w _ _) as [reason | st message rows];
    [| intros Hst; specialize (Hm Hst)];
    unfold DistanceMatrix.calculateDeliveryDistances, tryCatch;
    (destruct (Nat.ltb_spec (length points) 2); [lia |]);
    unfold bind at 1;
    (destruct (DistanceMatrix.calculateDistanceMatrix points points w) as [[|] ?];
       simpl in Hm; [discriminate Hm |]); injection Hm as ->; reflexivity.
Qed.

Lemma provider_failures_are_wrapped_witness :
  (2 <= length [tahrir; zamalek])%nat
  /\ fst (DistanceMatrix.calculateDeliveryDistances [tahrir; zamalek] (offline []))
     = Thrown (Error ("Failed to calculate delivery distances: "
                      +:+ "Failed to calculate distance matrix: " +:+ "fetch failed")).
Proof.
  assert (H : (2 <= length [tahrir; zamalek])%nat) by (simpl; lia).
  split; [exact H |].
  exact (provider_failures_are_wrapped [tahrir; zamalek] (offline []) H).
Defined.

(** X24.  [getDirectDistance] sends exactly one request, for one origin
    and one destination.  It returns the distance, duration and traffic
    duration of the one cell when the provider answers OK with a resolved
    cell; it raises "Failed to get direct distance: Cannot calculate
    distance between points" for an unresolved cell or an empty answer,
    and "Failed to get direct distance: Failed to calculate distance
    matrix: ..." when the provider cannot be reached or answers with
    another status. *)
Theorem direct_distance_outcomes (origin destination : DeliveryPoint) (w : World) :
  let reply :=
    distanceMatrixApi w [DistanceMatrix.latLng origin] [DistanceMatrix.latLng destination] in
  let outcome := fst (DistanceMatrix.getDirectDistance origin destination w) in
  trace (after (DistanceMatrix.getDirectDistance origin destination) w)
  = trace w ++ [DistanceMatrixFetch [DistanceMatrix.latLng origin]
                  [DistanceMatrix.latLng destination]]
  /\ (forall reason,
        reply = MatrixUnreachable reason ->
        outcome = Thrown (Error ("Failed to get direct distance: "
                                 +:+ "Failed to calculate distance matrix: " +:+ reason)))
  /\ (forall st message rows,
        reply = MatrixResponse st message rows ->
        st <> "OK"%string ->
        outcome = Thrown (Error ("Failed to get direct distance: "
                                 +:+ "Failed to calculate distance matrix: "
                                 +:+ "Distance Matrix API error: "
                                 +:+ st +:+ " - " +:+ messageOr message)))
  /\ (forall message distance duration inTraffic,
        reply = MatrixResponse "OK" message [[ElementOk distance duration inTraffic]] ->
        outcome = Returned {| DistanceMatrix.directDistance := Some distance;
                              DistanceMatrix.directDuration := Some duration;
                              DistanceMatrix.directDurationInTraffic := inTraffic;
                              DistanceMatrix.directOrigin := origin;
                              DistanceMatrix.directDestination := destination |})
  /\ (forall message st,
        reply = MatrixResponse "OK" message [[ElementFailed st]] ->
        st <> "OK"%string ->
        outcome = Thrown (Error ("Failed to get direct distance: "
                                 +:+ "Cannot calculate distance between points")))
  /\ (forall message,
        reply = MatrixResponse "OK" message [] ->
        outcome = Thrown (Error ("Failed to get direct distance: "
                                 +:+ "Cannot calculate distance between points"))).
Proof.
  cbv zeta. unfold DistanceMatrix.getDirectDistance. split_and!.
  - rewrite after_tryCatch_throw.
    pose proof (after_calculateDistanceMatrix [origin] [destination] w) as Hm.
    unfold after in *. unfold bind.
    destruct (DistanceMatrix.calculateDistanceMatrix [origin] [destination] w)
      as [[result | e] w1]; simpl in Hm; subst w1; [| done].
    destruct (_ ≫= _) as [cell |]; [| done]. by destruct (DistanceMatrix.isOk cell).
  - intros reason E. unfold tryCatch, bind.
    rewrite calculateDistanceMatrix_run. cbn [map]. by rewrite E.
  - intros st message rows E Hst. unfold tryCatch, bind.
    rewrite calculateDistanceMatrix_run. cbn [map]. rewrite E. by destruct (decide _).
  - intros message distance duration inTraffic E. unfold tryCatch, bind.
    rewrite calculateDistanceMatrix_run. cbn [map]. by rewrite E.
  - intros message st E Hst. unfold tryCatch, bind.
    rewrite calculateDistanceMatrix_run. cbn [map]. rewrite E.
    rewrite decide_True by done.
    unfold DistanceMatrix.processDistanceMatrixResponse, tryCatch, bind.
    cbn [DistanceMatrix.forEachIndexed]. unfold bind. cbn [DistanceMatrix.processElement].
    rewrite decide_False by done. cbn.
    unfold DistanceMatrix.isOk. cbn. by rewrite bool_decide_eq_false_2.
  - intros message E. unfold tryCatch, bind.
    rewrite calculateDistanceMatrix_run. cbn [map]. by rewrite E.
Qed.

(* ===================================================================== *)
(** * The edges of the distance data *)
(* ===================================================================== *)

Lemma forEachIndexed_returned {A B} (f : nat -> A -> M B) l :
  forall i w ys w',
    DistanceMatrix.forEachIndexed f i l w = (Returned ys, w') ->
    forall y, y ∈ ys ->
              exists j x w1 w2, l !! j = Some x /\ f (i + j)%nat x w1 = (Returned y, w2).
Proof.
  induction l as [|x l IH]; intros i w ys w' H y Hy.
  - injection H as <- <-. by apply elem_of_nil in Hy.
  - cbn [DistanceMatrix.forEachIndexed] in H.
    apply bind_returned in H as (y0 & w1 & H0 & H).
    apply bind_returned in H as (ys0 & w2 & H1 & H).
    injection H as <- <-.
    apply elem_of_cons in Hy as [-> | Hy].
    + exists 0%nat, x, w, w1. by rewrite Nat.add_0_r.
    + destruct (IH _ _ _ _ H1 y Hy) as (j & x' & wa & wb & Hj & Hf).
      exists (S j), x', wa, wb. split; [done |]. by rewrite Nat.add_succ_r.
Qed.

Lemma elem_of_concat {A} (x : A) (ls : list (list A)) :
  x ∈ concat ls -> exists l, l ∈ ls /\ x ∈ l.
Proof.
  induction ls as [|l ls IH]; simpl; intros H; [by apply elem_of_nil in H |].
  apply elem_of_app in H as [H | H].
  - exists l. split; [by apply elem_of_cons; left | done].
  - destruct (IH H) as (l' & Hl' & Hx). exists l'. split; [by apply elem_of_cons; right | done].
Qed.

Lemma formatElement_edgeOf points i j cell w es w' e :
  DistanceMatrix.formatElement points i j cell w = (Returned es, w') ->
  e ∈ es -> edgeOf points e.
Proof.
  unfold DistanceMatrix.formatElement.
  destruct (DistanceMatrix.isOk cell); cbn [andb];
    [| intros [= <- <-] He; by apply elem_of_nil in He].
  destruct (bool_decide_reflect (i = j)) as [| Hne]; cbn [negb];
    [intros [= <- <-] He; by apply elem_of_nil in He |].
  destruct (points !! i) as [from |] eqn:Ei; [| destruct (points !! j); discriminate].
  destruct (points !! j) as [to |] eqn:Ej; [| discriminate].
  destruct (cellDistance cell) as [distance |]; [| destruct (cellDuration cell); discriminate].
  destruct (cellDuration cell) as [duration |]; [| discriminate].
  intros [= <- <-] He. apply list_elem_of_singleton in He as ->.
  split; [done |]. split; [by exists from, to |].
  cbn [durationInTrafficSeconds durationSeconds]. unfold DistanceMatrix.trafficOrDuration.
  destruct (cellDurationInTraffic cell) as [tv |]; [| done].
  by destruct (decide (value tv = 0)).
Qed.

Lemma formatForRouteOptimization_edges result points w edges w' :
  DistanceMatrix.formatForRouteOptimization result points w = (Returned edges, w') ->
  Forall (edgeOf points) edges.
Proof.
  unfold DistanceMatrix.formatForRouteOptimization. intros H.
  apply bind_returned in H as (formatted & w1 & H & Hret). injection Hret as <- <-.
  apply Forall_forall. intros e He.
  apply elem_of_concat in He as (rowEdges & Hrow & He).
  destruct (forEachIndexed_returned _ _ _ _ _ _ H rowEdges Hrow)
    as (i & row & wa & wb & _ & Hi).
  apply bind_returned in Hi as (cells & wc & Hi & Hret). injection Hret as <- <-.
  apply elem_of_concat in He as (es & Hes & He).
  destruct (forEachIndexed_returned _ _ _ _ _ _ Hi es Hes) as (j & cell & wd & we & _ & Hj).
  by eapply formatElement_edgeOf.
Qed.

(** X25.  Every edge [calculateDeliveryDistances] returns joins two
    different delivery points, named by their positions in the array
    given, and carries their order ids and addresses; its traffic-aware
    duration is zero only when the plain duration is (a missing or zero
    traffic value gives way to the plain one).  [totalPoints] is the
    number of points, and fewer than two points give no edge. *)
Theorem distance_edges_are_well_formed (points : list DeliveryPoint) (w w' : World)
    (data : DistanceData) :
  DistanceMatrix.calculateDeliveryDistances points w = (Returned data, w') ->
  totalPoints data = Z.of_nat (length points)
  /\ Forall
       (fun e =>
          fromIndex e <> toIndex e
          /\ (exists from to,
                points !! fromIndex e = Some from
                /\ points !! toIndex e = Some to
                /\ (fromOrderId e, fromAddress e) = (orderId from, address from)
                /\ (toOrderId e, toAddress e) = (orderId to, address to))
          /\ (durationInTrafficSeconds e = 0 -> durationSeconds e = 0))
       (distances data)
  /\ ((length points < 2)%nat -> distances data = []).
Proof.
  unfold DistanceMatrix.calculateDeliveryDistances. intros H.
  apply tryCatch_returned in H as [H | (e & w1 & _ & H)]; [| discriminate H].
  destruct (Nat.ltb_spec (length points) 2) as [Hlt | Hge].
  - injection H as <- <-. split; [done |]. split; [constructor | done].
  - apply bind_returned in H as (result & w1 & _ & H).
    apply bind_returned in H as (edges & w2 & Hedges & H).
    apply bind_returned in H as (date & w3 & _ & H). injection H as <- <-.
    split; [done |]. split; [| intros ?; lia].
    exact (formatForRouteOptimization_edges _ _ _ _ _ Hedges).
Qed.

Lemma distance_edges_are_well_formed_witness :
  DistanceMatrix.calculateDeliveryDistances (RouteOptimizer.deliveryPointsOf cityGeocoded)
    cityAfterGeocoding
  = (Returned cityDistanceData,
     after (DistanceMatrix.calculateDeliveryDistances
              (RouteOptimizer.deliveryPointsOf cityGeocoded)) cityAfterGeocoding)
  /\ totalPoints cityDistanceData = 4.
Proof.
  assert (H : DistanceMatrix.calculateDeliveryDistances
                (RouteOptimizer.deliveryPointsOf cityGeocoded) cityAfterGeocoding
              = (Returned cityDistanceData,
                 after (DistanceMatrix.calculateDeliveryDistances
                          (RouteOptimizer.deliveryPointsOf cityGeocoded)) cityAfterGeocoding))
    by exact (run_eq (DistanceMatrix.calculateDeliveryDistances
                        (RouteOptimizer.deliveryPointsOf cityGeocoded))
                cityAfterGeocoding cityDistanceData eq_refl).
  split; [exact H |].
  rewrite (proj1 (distance_edges_are_well_formed _ _ _ _ H)). reflexivity.
Defined.

(* ===================================================================== *)
(** * The totals of a result *)
(* ===================================================================== *)

(** X26.  With distance data, the duration and the distance
    [formatOptimizationResult] reports are the same for any two routes of
    the same length, whatever their orders and their sequence: the route
    points carry their position in the route as matrix index. *)
Theorem reported_totals_depend_on_length (route route' : list Order)
    (metadata : Metadata.t) (data : DistanceData) (w : World) :
  Metadata.distanceData metadata = Some data ->
  length route = length route' ->
  exists result result',
    RouteOptimizer.formatOptimizationResult route metadata w = (Returned result, w)
    /\ RouteOptimizer.formatOptimizationResult route' metadata w = (Returned result', w)
    /\ Result.estimatedDuration result = Result.estimatedDuration result'
    /\ Result.estimatedDistance result = Result.estimatedDistance result'
    /\ Result.realDistanceCalculated result = Some true
    /\ ordersOf (Result.optimizedSequence result) = route
    /\ ordersOf (Result.optimizedSequence result') = route'.
Proof.
  intros Hdata Hlen. unfold RouteOptimizer.formatOptimizationResult, bind, newDate.
  rewrite Hdata. eexists _, _. split; [reflexivity |]. split; [reflexivity |].
  cbn [Result.estimatedDuration Result.estimatedDistance Result.realDistanceCalculated
       Result.optimizedSequence].
  rewrite (reported_totals_ignore_sequence route route' (distances data) Hlen).
  rewrite !ordersOf_sequenced. by split_and!.
Qed.

Lemma reported_totals_depend_on_length_witness :
  Metadata.distanceData
    (RouteOptimizer.metadataOf RouteOptimizer.NEAREST_NEIGHBOR false "25-40%"
       (Some cityDistanceData) None)
  = Some cityDistanceData
  /\ length [stop1; stop3; stop2; stop4] = length fourStops
  /\ exists result result',
       RouteOptimizer.formatOptimizationResult [stop1; stop3; stop2; stop4]
         (RouteOptimizer.metadataOf RouteOptimizer.NEAREST_NEIGHBOR false "25-40%"
            (Some cityDistanceData) None) city
       = (Returned result, city)
       /\ RouteOptimizer.formatOptimizationResult fourStops
            (RouteOptimizer.metadataOf RouteOptimizer.NEAREST_NEIGHBOR false "25-40%"
               (Some cityDistanceData) None) city
          = (Returned result', city)
       /\ Result.estimatedDuration result = Result.estimatedDuration result'.
Proof.
  split; [reflexivity |]. split; [reflexivity |].
  destruct (reported_totals_depend_on_length [stop1; stop3; stop2; stop4] fourStops
              (RouteOptimizer.metadataOf RouteOptimizer.NEAREST_NEIGHBOR false "25-40%"
                 (Some cityDistanceData) None) cityDistanceData city eq_refl eq_refl)
    as (result & result' & E & E' & Hd & _).
  by exists result, result'.
Defined.

(* ===================================================================== *)
(** * The totals along the sequence *)
(* ===================================================================== *)

Lemma segmentOf_shift first stop stops distances s :
  segmentOf (S first) stops distances s -> segmentOf first (stop :: stops) distances s.
Proof.
  intros (k & a & b & e & Ha & Hb & He & Hn & Hf & Ht & Htxt).
  exists (S k), a, b, e. split_and!; try done. rewrite Hn. lia.
Qed.

Lemma sequentialLoop_spec distances stops :
  forall i d t tt segments,
    exists added,
      RouteBuilder.sequentialLoop i stops distances (d, t, tt, segments)
      = (d + along distanceMeters distances (map RouteBuilder.stopOrder stops),
         t + along durationSeconds distances (map RouteBuilder.stopOrder stops),
         tt + along durationInTrafficSeconds distances (map RouteBuilder.stopOrder stops),
         segments ++ added)
      /\ Forall (segmentOf i stops distances) added
      /\ (length added < length stops \/ stops = [])%nat.
Proof.
  induction stops as [|a stops IH]; intros i d t tt segments.
  { exists []. unfold along. simpl. rewrite !Z.add_0_r, app_nil_r.
    split; [done |]. split; [constructor | by right]. }
  destruct stops as [|b stops].
  { exists []. unfold along. simpl. rewrite !Z.add_0_r, app_nil_r.
    split; [done |]. split; [constructor | left; simpl; lia]. }
  change (RouteBuilder.sequentialLoop i (a :: b :: stops) distances (d, t, tt, segments))
    with (RouteBuilder.sequentialLoop (S i) (b :: stops) distances
            match RouteOptimizer.findEdge distances (id (RouteBuilder.stopOrder a))
                    (id (RouteBuilder.stopOrder b)) with
            | Some distanceInfo =>
                (d + distanceMeters distanceInfo,
                 t + durationSeconds distanceInfo,
                 tt + durationInTrafficSeconds distanceInfo,
                 segments ++
                   [ {| RouteBuilder.segmentFrom :=
                          RouteBuilder.endpoint (RouteBuilder.stopOrder a);
                        RouteBuilder.segmentTo :=
                          RouteBuilder.endpoint (RouteBuilder.stopOrder b);
                        RouteBuilder.segmentDistance := distanceText distanceInfo;
                        RouteBuilder.segmentDuration := durationText distanceInfo;
                        RouteBuilder.segmentDurationInTraffic :=
                          durationInTrafficText distanceInfo;
                        RouteBuilder.segmentNumber := Z.of_nat i + 1 |} ])
            | None => (d, t, tt, segments)
            end).
  assert (Halong : forall measure,
            along measure distances (map RouteBuilder.stopOrder (a :: b :: stops))
            = match RouteOptimizer.findEdge distances (id (RouteBuilder.stopOrder a))
                      (id (RouteBuilder.stopOrder b)) with
              | Some e => measure e
              | None => 0
              end
              + along measure distances (map RouteBuilder.stopOrder (b :: stops)))
    by reflexivity.
  rewrite !Halong.
  destruct (RouteOptimizer.findEdge distances (id (RouteBuilder.stopOrder a))
              (id (RouteBuilder.stopOrder b))) as [e |] eqn:Ee.
  - destruct (IH (S i) (d + distanceMeters e) (t + durationSeconds e)
                (tt + durationInTrafficSeconds e)
                (segments ++
                   [ {| RouteBuilder.segmentFrom :=
                          RouteBuilder.endpoint (RouteBuilder.stopOrder a);
                        RouteBuilder.segmentTo :=
                          RouteBuilder.endpoint (RouteBuilder.stopOrder b);
                        RouteBuilder.segmentDistance := distanceText e;
                        RouteBuilder.segmentDuration := durationText e;
                        RouteBuilder.segmentDurationInTraffic := durationInTrafficText e;
                        RouteBuilder.segmentNumber := Z.of_nat i + 1 |} ]))
      as (added & E & Hall & Hlen).
    eexists (_ :: added). rewrite E. split.
    { rewrite <- (assoc_L (++)). cbn [app]. by rewrite !Z.add_assoc. }
    split.
    + constructor.
      * exists 0%nat, a, b, e. split_and!; try done.
        cbn [RouteBuilder.segmentNumber]. lia.
      * eapply Forall_impl; [exact Hall |]. intros s. apply segmentOf_shift.
    + left. destruct Hlen as [Hlen | Hnil]; [simpl in *; lia | discriminate Hnil].
  - destruct (IH (S i) d t tt segments) as (added & E & Hall & Hlen).
    exists added. rewrite E. split; [by rewrite !Z.add_0_l |].
    split.
    + eapply Forall_impl; [exact Hall |]. intros s. apply segmentOf_shift.
    + left. destruct Hlen as [Hlen | Hnil]; [simpl in *; lia | discriminate Hnil].
Qed.

Lemma along_calculateRouteDistance distances route :
  along durationInTrafficSeconds distances route
  = RouteOptimizer.calculateRouteDistance route distances.
Proof. by rewrite calculateRouteDistance_sum. Qed.

(** X27.  [RouteBuilder.calculateSequentialRouteTotals] does follow the
    sequence: its traffic-aware total is the sum over the consecutive
    stops of the edge between them (nothing for a missing edge), which is
    what [RouteOptimizer.calculateRouteDistance] computes for the same
    route, and so are its plain duration and its metres.  Each segment it
    lists describes the edge between two consecutive stops and is numbered
    after the first; there are at most [length - 1]. *)
Theorem sequential_totals_follow_the_sequence (stops : list RouteBuilder.RouteStop)
    (distances : list DistanceEdge) :
  let totals := RouteBuilder.calculateSequentialRouteTotals stops distances in
  let route := map RouteBuilder.stopOrder stops in
  RouteBuilder.totalDurationInTrafficSeconds totals
  = RouteOptimizer.calculateRouteDistance route distances
  /\ RouteBuilder.totalDurationInTrafficSeconds totals
     = sumZ (map (fun '(a, b) => edgeSeconds distances a b) (consecutive route))
  /\ RouteBuilder.totalDurationSeconds totals = along durationSeconds distances route
  /\ RouteBuilder.totalDistanceMeters totals = along distanceMeters distances route
  /\ RouteBuilder.totalDurationInTrafficText totals
     = RouteBuilder.formatDuration (RouteOptimizer.calculateRouteDistance route distances)
  /\ Forall (segmentOf 0 stops distances) (RouteBuilder.routeSegments totals)
  /\ (length (RouteBuilder.routeSegments totals) <= length stops - 1)%nat.
Proof.
  cbv zeta. unfold RouteBuilder.calculateSequentialRouteTotals.
  destruct (sequentialLoop_spec distances stops 0 0 0 0 []) as (added & E & Hall & Hlen).
  rewrite E.
  cbn [RouteBuilder.totalDurationInTrafficSeconds RouteBuilder.totalDurationSeconds
       RouteBuilder.totalDistanceMeters RouteBuilder.totalDurationInTrafficText
       RouteBuilder.routeSegments].
  rewrite !Z.add_0_l, app_nil_l, along_calculateRouteDistance.
  split_and!; try done.
  - apply calculateRouteDistance_sum.
  - destruct Hlen as [Hlen | ->]; [lia |]. by destruct added; [| inversion Hall]. 
Qed.

(* ===================================================================== *)
(** * Arrival times *)
(* ===================================================================== *)

Lemma ceilDiv60_bounds x :
  60 * (DistanceMatrix.ceilDiv60 x - 1) < x <= 60 * DistanceMatrix.ceilDiv60 x.
Proof.
  unfold DistanceMatrix.ceilDiv60.
  pose proof (Z.div_mod (- x) 60 ltac:(lia)). pose proof (Z.mod_pos_bound (- x) 60 ltac:(lia)).
  lia.
Qed.

Lemma stopsLoop_spec distances orders :
  forall index previous cumulativeTime,
    let stops := RouteBuilder.stopsLoop index previous cumulativeTime orders distances in
    map RouteBuilder.stop stops = orders
    /\ (forall k s, stops !! k = Some s ->
                    RouteBuilder.stopNumber s = Z.of_nat (index + k) + 1
                    /\ RouteBuilder.deliveryTimeEstimate s = 10
                    /\ RouteBuilder.estimatedArrivalTime s
                       = Js.numberToString (RouteBuilder.estimatedArrivalMinutes s)
                         +:+ " minutes from start")
    /\ (forall s, stops !! 0%nat = Some s ->
                  RouteBuilder.travelTimeFromPrevious s
                  = from_option (fun p => travelMinutes distances p (RouteBuilder.stop s))
                      0 previous
                  /\ RouteBuilder.estimatedArrivalMinutes s
                     = cumulativeTime + RouteBuilder.travelTimeFromPrevious s)
    /\ (forall k s s', stops !! k = Some s -> stops !! S k = Some s' ->
                       RouteBuilder.travelTimeFromPrevious s'
                       = travelMinutes distances (RouteBuilder.stop s) (RouteBuilder.stop s')
                       /\ RouteBuilder.estimatedArrivalMinutes s'
                          = RouteBuilder.estimatedArrivalMinutes s + 10
                            + RouteBuilder.travelTimeFromPrevious s').
Proof.
  induction orders as [|o orders IH]; intros index previous cumulativeTime; cbv zeta.
  { simpl. split_and!; try done; intros; by rewrite lookup_nil in *. }
  cbn [RouteBuilder.stopsLoop].
  set (travel := match previous with
                 | Some previousOrder =>
                     match RouteOptimizer.findEdge distances
                             (id (RouteBuilder.stopOrder previousOrder))
                             (id (RouteBuilder.stopOrder o)) with
                     | Some distanceInfo =>
                         DistanceMatrix.ceilDiv60 (durationInTrafficSeconds distanceInfo)
                     | None => 0
                     end
                 | None => 0
                 end).
  assert (Htravel : travel = from_option (fun p => travelMinutes distances p o) 0 previous).
  { unfold travel, travelMinutes, edgeSeconds. destruct previous as [p |]; [| done]. simpl.
    by destruct (RouteOptimizer.findEdge _ _ _). }
  destruct (IH (S index) (Some o) (cumulativeTime + travel + 10))
    as (Hmap & Hnum & Hhead & Hnext).
  cbv zeta in *. split_and!.
  - cbn [map RouteBuilder.stop]. by rewrite Hmap.
  - intros [|k] s Hs.
    + injection Hs as <-. cbn. split_and!; try done. lia.
    + destruct (Hnum k s Hs) as (Hn & Hd & Ht). split_and!; try done. rewrite Hn. lia.
  - intros s Hs. injection Hs as <-. cbn. by rewrite Htravel.
  - intros [|k] s s' Hs Hs'.
    + injection Hs as <-. destruct (Hhead s' Hs') as (Ht & Ha).
      cbn [RouteBuilder.stop RouteBuilder.estimatedArrivalMinutes] in *.
      split; [done |]. rewrite Ha. lia.
    + by apply (Hnext k).
Qed.

(** X28.  [buildDetailedStops] lists the stops in order, numbered 1, 2,
    ...; the first is reached at minute 0, and each next one 10 minutes of
    delivery plus the travel time after the one before, the travel time
    being the traffic-aware seconds of the edge between the two, rounded
    up to the minute (0 without an edge). *)
Theorem arrival_times_accumulate (orders : list RouteBuilder.RouteStop)
    (distances : list DistanceEdge) :
  let stops := RouteBuilder.buildDetailedStops orders distances in
  map RouteBuilder.stop stops = orders
  /\ (forall k s, stops !! k = Some s ->
                  RouteBuilder.stopNumber s = Z.of_nat k + 1
                  /\ RouteBuilder.deliveryTimeEstimate s = 10
                  /\ RouteBuilder.estimatedArrivalTime s
                     = Js.numberToString (RouteBuilder.estimatedArrivalMinutes s)
                       +:+ " minutes from start")
  /\ (forall s, stops !! 0%nat = Some s ->
                RouteBuilder.estimatedArrivalMinutes s = 0
                /\ RouteBuilder.travelTimeFromPrevious s = 0)
  /\ (forall k s s', stops !! k = Some s -> stops !! S k = Some s' ->
                     RouteBuilder.estimatedArrivalMinutes s'
                     = RouteBuilder.estimatedArrivalMinutes s + 10
                       + RouteBuilder.travelTimeFromPrevious s'
                     /\ RouteBuilder.travelTimeFromPrevious s'
                        = DistanceMatrix.ceilDiv60
                            (edgeSeconds distances
                               (RouteBuilder.stopOrder (RouteBuilder.stop s))
                               (RouteBuilder.stopOrder (RouteBuilder.stop s'))))
  /\ forall x, 60 * (DistanceMatrix.ceilDiv60 x - 1) < x <= 60 * DistanceMatrix.ceilDiv60 x.
Proof.
  cbv zeta. unfold RouteBuilder.buildDetailedStops.
  destruct (stopsLoop_spec distances orders 0 None 0) as (Hmap & Hnum & Hhead & Hnext).
  cbv zeta in *. split_and!; try done.
  - intros s Hs. destruct (Hhead s Hs) as (Ht & Ha). simpl in Ht. rewrite Ha, Ht. by split.
  - intros k s s' Hs Hs'. destruct (Hnext k s s' Hs Hs') as (Ht & Ha). by split.
  - apply ceilDiv60_bounds.
Qed.

(* ===================================================================== *)
(** * Geocoding the sequence *)
(* ===================================================================== *)

Lemma geocodeRouteOrder_spec s w :
  exists stop w',
    RouteBuilder.geocodeRouteOrder s w = (Returned stop, w')
    /\ stopFrom s stop
    /\ (RouteBuilder.missing (coordinates (order s)) = false -> w' = w).
Proof.
  unfold RouteBuilder.geocodeRouteOrder, tryCatch.
  assert (Hdone : forall c,
            stopFrom s
              {| RouteBuilder.sequenced :=
                   RouteBuilder.withStopCoordinates s (if isValid c then Some c else None);
                 RouteBuilder.geocoded := isValid c;
                 RouteBuilder.geocodingError := if isValid c then None else error c |}).
  { intros c. unfold stopFrom, RouteBuilder.stopOrder. cbn.
    destruct (isValid c) eqn:Ev; split_and!; try done.
    by intros c' [= <-]. }
  assert (Hfailed : forall e,
            stopFrom s
              {| RouteBuilder.sequenced := RouteBuilder.withStopCoordinates s None;
                 RouteBuilder.geocoded := false;
                 RouteBuilder.geocodingError := Some (errorMessage e) |}).
  { intros e. unfold stopFrom, RouteBuilder.stopOrder. cbn. by split_and!. }
  assert (Hfetch : RouteBuilder.missing (coordinates (order s)) = true ->
            exists stop w',
              match
                (c <- Geocoder.geocodeAddress (deliveryAddress (order s)) ;;
                 ret {| RouteBuilder.sequenced :=
                          RouteBuilder.withStopCoordinates s
                            (if isValid c then Some c else None);
                        RouteBuilder.geocoded := isValid c;
                        RouteBuilder.geocodingError :=
                          if isValid c then None else error c |}) w
              with
              | (Returned a, w') => (Returned a, w')
              | (Thrown e, w') =>
                  ret {| RouteBuilder.sequenced := RouteBuilder.withStopCoordinates s None;
                         RouteBuilder.geocoded := false;
                         RouteBuilder.geocodingError := Some (errorMessage e) |} w'
              end = (Returned stop, w')
              /\ stopFrom s stop
              /\ (RouteBuilder.missing (coordinates (order s)) = false -> w' = w)).
  { intros Hmissing. unfold bind.
    destruct (Geocoder.geocodeAddress (deliveryAddress (order s)) w) as [[c | e] w1].
    - eexists _, _. split; [reflexivity |]. split; [apply (Hdone c) |].
      by rewrite Hmissing.
    - eexists _, _. split; [reflexivity |]. split; [apply Hfailed |]. by rewrite Hmissing. }
  destruct (coordinates (order s)) as [c |] eqn:Ec; [| by apply Hfetch].
  destruct (RouteBuilder.missing (Some c)) eqn:Em; [by apply Hfetch |].
  eexists _, _. split; [reflexivity |]. split; [apply (Hdone c) | done].
Qed.

(** X29.  [geocodeRouteOrders] raises nothing: it returns one stop for
    each element of the sequence, in order and with its sequence number,
    equal to the order in everything but [coordinates]; [geocoded] is true
    exactly when the stop has coordinates, which are then valid, and a
    geocoded stop has no [geocodingError].  When every order comes with a
    latitude and a longitude the geocoder is not called. *)
Theorem route_geocoding_raises_nothing (sequence : list SequencedOrder) (w : World) :
  exists stops w',
    RouteBuilder.geocodeRouteOrders sequence w = (Returned stops, w')
    /\ Forall2
         (fun s stop =>
            sequenceNumber (RouteBuilder.sequenced stop) = sequenceNumber s
            /\ forget (RouteBuilder.stopOrder stop) = forget (order s)
            /\ (RouteBuilder.geocoded stop = true
                <-> is_Some (coordinates (RouteBuilder.stopOrder stop)))
            /\ (forall c, coordinates (RouteBuilder.stopOrder stop) = Some c ->
                          isValid c = true)
            /\ (RouteBuilder.geocoded stop = true -> RouteBuilder.geocodingError stop = None))
         sequence stops
    /\ (Forall (fun s => RouteBuilder.missing (coordinates (order s)) = false) sequence ->
        w' = w).
Proof.
  unfold RouteBuilder.geocodeRouteOrders. revert w.
  induction sequence as [|s sequence IH]; intros w.
  { exists [], w. split; [done |]. split; [constructor | done]. }
  destruct (geocodeRouteOrder_spec s w) as (stop & w1 & E1 & Hstop & Hsame).
  destruct (IH w1) as (stops & w2 & E2 & Hall & Hsame').
  exists (stop :: stops), w2. split.
  { cbn [forEachM]. by rewrite (bind_run _ _ _ _ _ E1), (bind_run _ _ _ _ _ E2). }
  split.
  - constructor; [| done]. destruct Hstop as (H1 & _ & H3 & H4 & H5 & H6). by split_and!.
  - intros Hno. apply Forall_cons in Hno as (Hs & Hno).
    rewrite (Hsame' Hno). by apply Hsame.
Qed.

(* ===================================================================== *)
(** * The bounds of the map *)
(* ===================================================================== *)

Lemma min_le x y : (RouteService.min x y <= x)%Q /\ (RouteService.min x y <= y)%Q.
Proof.
  unfold RouteService.min. destruct (Qle_bool x y) eqn:E.
  - split; [apply Qle_refl | by apply Qle_bool_iff].
  - split; [| apply Qle_refl]. apply Qlt_le_weak, Qnot_le_lt. intros H.
    apply Qle_bool_iff in H. by rewrite H in E.
Qed.

Lemma max_ge x y : (x <= RouteService.max x y)%Q /\ (y <= RouteService.max x y)%Q.
Proof.
  unfold RouteService.max. destruct (Qle_bool x y) eqn:E.
  - split; [by apply Qle_bool_iff | apply Qle_refl].
  - split; [apply Qle_refl |]. apply Qlt_le_weak, Qnot_le_lt. intros H.
    apply Qle_bool_iff in H. by rewrite H in E.
Qed.

Lemma min_cases x y : RouteService.min x y = x \/ RouteService.min x y = y.
Proof. unfold RouteService.min. destruct (Qle_bool x y); auto. Qed.

Lemma max_cases x y : RouteService.max x y = x \/ RouteService.max x y = y.
Proof. unfold RouteService.max. destruct (Qle_bool x y); auto. Qed.

Lemma widen_bounding start seen box c :
  bounding start seen box -> bounding start (seen ++ [c]) (widen box c).
Proof.
  destruct start as [[[a0 b0] c0] d0], box as [[[a b] c1] d].
  unfold bounding, widen.
  intros ((Ha & Hb & Hc & Hd) & Hall & Hmin & Hmax & Hmin' & Hmax').
  pose proof (min_le a (RouteService.toNumber (latitude c))) as (Hla & Hla').
  pose proof (max_ge b (RouteService.toNumber (latitude c))) as (Hlb & Hlb').
  pose proof (min_le c1 (RouteService.toNumber (longitude c))) as (Hlc & Hlc').
  pose proof (max_ge d (RouteService.toNumber (longitude c))) as (Hld & Hld').
  split_and!.
  - exact (Qle_trans _ _ _ Hla Ha).
  - exact (Qle_trans _ _ _ Hb Hlb).
  - exact (Qle_trans _ _ _ Hlc Hc).
  - exact (Qle_trans _ _ _ Hd Hld).
  - intros c' Hc'. apply elem_of_app in Hc' as [Hc' | Hc'].
    + destruct (Hall c' Hc') as (H1 & H2 & H3 & H4).
      split_and!;
        [exact (Qle_trans _ _ _ Hla H1) | exact (Qle_trans _ _ _ H2 Hlb)
        | exact (Qle_trans _ _ _ Hlc H3) | exact (Qle_trans _ _ _ H4 Hld)].
    + apply list_elem_of_singleton in Hc' as ->. by split_and!.
  - destruct (min_cases a (RouteService.toNumber (latitude c))) as [-> | ->].
    + destruct Hmin as [-> | (c' & Hc' & ->)]; [by left |].
      right. exists c'. split; [apply elem_of_app; by left | done].
    + right. exists c. split; [apply elem_of_app; right; by apply list_elem_of_singleton | done].
  - destruct (max_cases b (RouteService.toNumber (latitude c))) as [-> | ->].
    + destruct Hmax as [-> | (c' & Hc' & ->)]; [by left |].
      right. exists c'. split; [apply elem_of_app; by left | done].
    + right. exists c. split; [apply elem_of_app; right; by apply list_elem_of_singleton | done].
  - destruct (min_cases c1 (RouteService.toNumber (longitude c))) as [-> | ->].
    + destruct Hmin' as [-> | (c' & Hc' & ->)]; [by left |].
      right. exists c'. split; [apply elem_of_app; by left | done].
    + right. exists c. split; [apply elem_of_app; right; by apply list_elem_of_singleton | done].
  - destruct (max_cases d (RouteService.toNumber (longitude c))) as [-> | ->].
    + destruct Hmax' as [-> | (c' & Hc' & ->)]; [by left |].
      right. exists c'. split; [apply elem_of_app; by left | done].
    + right. exists c. split; [apply elem_of_app; right; by apply list_elem_of_singleton | done].
Qed.

Lemma foldl_widen_bounding start rest :
  forall seen box,
    bounding start seen box -> bounding start (seen ++ rest) (foldl widen box rest).
Proof.
  induction rest as [|c rest IH]; intros seen box H; simpl.
  - by rewrite app_nil_r.
  - rewrite (assoc_L (++) seen [c] rest : seen ++ c :: rest = (seen ++ [c]) ++ rest).
    by apply IH, widen_bounding.
Qed.

Lemma foldl_pointwise {A B} (f g : B -> A -> B) l :
  (forall b a, f b a = g b a) -> forall b, foldl f b l = foldl g b l.
Proof.
  intros H. induction l as [|a l IH]; intros b; [done |]. simpl. by rewrite H, IH.
Qed.

(** X30.  [calculateMapBounds] returns [null] exactly when no order has
    coordinates.  Otherwise the rectangle it returns contains the
    coordinates of every order that has them (a [null] latitude or
    longitude counting as 0, as [Math.min] and [Math.max] take it), and
    each of its four sides passes through the coordinates of one
    order. *)
Theorem map_bounds_enclose (orders : list Order) :
  match RouteService.calculateMapBounds orders with
  | None => forall o, o ∈ orders -> coordinates o = None
  | Some bounds =>
      (forall o c,
         o ∈ orders -> coordinates o = Some c ->
         (RouteService.mapLatitude (RouteService.southwest bounds)
          <= RouteService.toNumber (latitude c))%Q
         /\ (RouteService.toNumber (latitude c)
             <= RouteService.mapLatitude (RouteService.northeast bounds))%Q
         /\ (RouteService.mapLongitude (RouteService.southwest bounds)
             <= RouteService.toNumber (longitude c))%Q
         /\ (RouteService.toNumber (longitude c)
             <= RouteService.mapLongitude (RouteService.northeast bounds))%Q)
      /\ (exists o c, o ∈ orders /\ coordinates o = Some c
                      /\ RouteService.mapLatitude (RouteService.southwest bounds)
                         = RouteService.toNumber (latitude c))
      /\ (exists o c, o ∈ orders /\ coordinates o = Some c
                      /\ RouteService.mapLatitude (RouteService.northeast bounds)
                         = RouteService.toNumber (latitude c))
      /\ (exists o c, o ∈ orders /\ coordinates o = Some c
                      /\ RouteService.mapLongitude (RouteService.southwest bounds)
                         = RouteService.toNumber (longitude c))
      /\ (exists o c, o ∈ orders /\ coordinates o = Some c
                      /\ RouteService.mapLongitude (RouteService.northeast bounds)
                         = RouteService.toNumber (longitude c))
  end.
Proof.
  unfold RouteService.calculateMapBounds.
  destruct (omap coordinates orders) as [|first valid] eqn:E.
  { intros o Ho. destruct (coordinates o) as [c |] eqn:Ec; [| done].
    assert (Hin : c ∈ omap coordinates orders) by (apply list_elem_of_omap; by exists o).
    rewrite E in Hin. by apply elem_of_nil in Hin. }
  set (start := (RouteService.toNumber (latitude first), RouteService.toNumber (latitude first),
                 RouteService.toNumber (longitude first),
                 RouteService.toNumber (longitude first))).
  match goal with
  | |- context [foldl ?step start (first :: valid)] =>
      rewrite (foldl_pointwise step widen) by (by intros [[[? ?] ?] ?] ?)
  end.
  pose proof (foldl_widen_bounding start (first :: valid) [] start) as Hb.
  rewrite app_nil_l in Hb.
  assert (Hstart : bounding start [] start).
  { unfold bounding, start. split; [split_and!; apply Qle_refl |].
    split; [by intros c Hc; apply elem_of_nil in Hc |]. split_and!; by left. }
  specialize (Hb Hstart). clear Hstart.
  destruct (foldl widen start (first :: valid)) as [[[minLat maxLat] minLng] maxLng].
  unfold bounding, start in Hb.
  destruct Hb as (_ & Hall & Hmin & Hmax & Hmin' & Hmax').
  cbn [RouteService.southwest RouteService.northeast RouteService.mapLatitude
       RouteService.mapLongitude].
  assert (Hvalid : forall c, c ∈ first :: valid ->
                             exists o, o ∈ orders /\ coordinates o = Some c).
  { intros c Hc. rewrite <- E in Hc. by apply list_elem_of_omap in Hc. }
  assert (Hfirst : first ∈ first :: valid) by (by apply elem_of_cons; left).
  split_and!.
  - intros o c Ho Hc. apply Hall. rewrite <- E. apply list_elem_of_omap. by exists o.
  - destruct Hmin as [-> | (c & Hc & ->)].
    + destruct (Hvalid first Hfirst) as (o & Ho & Hfc). by exists o, first.
    + destruct (Hvalid c Hc) as (o & Ho & Hoc). by exists o, c.
  - destruct Hmax as [-> | (c & Hc & ->)].
    + destruct (Hvalid first Hfirst) as (o & Ho & Hfc). by exists o, first.
    + destruct (Hvalid c Hc) as (o & Ho & Hoc). by exists o, c.
  - destruct Hmin' as [-> | (c & Hc & ->)].
    + destruct (Hvalid first Hfirst) as (o & Ho & Hfc). by exists o, first.
    + destruct (Hvalid c Hc) as (o & Ho & Hoc). by exists o, c.
  - destruct Hmax' as [-> | (c & Hc & ->)].
    + destruct (Hvalid first Hfirst) as (o & Ho & Hfc). by exists o, first.
    + destruct (Hvalid c Hc) as (o & Ho & Hoc). by exists o, c.
Qed.
